(** * LinguaFriend: the live voice client and the chat input

    A shallow embedding of the parts of the repository that carry logic:
    - [LiveClient] of the Gemini service (audio wire format, playback
      timeline, transcription accumulators, tool calls, connection life
      cycle);
    - [ChatInput.handleSubmit] and the language button of [App];
    - the text chat ([initializeChatSession], [sendMessageStream],
      [App.handleSendMessage]) and [App.toggleLiveMode].

    Conventions.
    - A JavaScript string whose code units are all below 256 (a "binary
      string", and every base64 text) is a [string]: a list of 8-bit [ascii].
    - A [Uint8Array] is a [list byte]; an [Int16Array] is a [list Z] whose
      elements are in the signed 16-bit range.
    - A JavaScript number holding a time or an audio sample is an exact
      rational [Q]; the roundings of IEEE arithmetic are not modelled.  The
      non-finite Float32 values are kept where the code can meet them.
    - Callbacks and calls into the SDK or the browser are recorded, in the
      order the code makes them, in a trace of [Event]s.  A callback is taken
      to return normally and not to call back into the client; the [onError]
      of [App], which calls [disconnect], is the last thing the client does
      when it calls it, and [LiveMode] runs it there. *)

From Stdlib Require Import ZArith NArith QArith Qminmax List String Ascii Lia Bool.
From Stdlib.Strings Require Import Byte.
From Stdlib Require DecimalString DecimalZ.
Import ListNotations.

Local Open Scope string_scope.
Local Open Scope list_scope.

(** ** Results of fallible browser and SDK calls *)

(** A JavaScript [Error], identified by its message. *)
Definition Error := string.

Inductive Result (A : Type) : Type :=
| Ok (a : A)
| Throw (e : Error).
Arguments Ok {A} a.
Arguments Throw {A} e.

(** ** Bytes and typed arrays *)

Definition Uint8Array := list byte.
Definition Int16Array := list Z.

Definition byte_val (b : byte) : Z := Z.of_N (Byte.to_N b).

(** Storing an integer into a [Uint8Array] keeps it modulo 256. *)
Definition byte_of_Z (z : Z) : byte :=
  match Byte.of_N (Z.to_N (z mod 256)) with
  | Some b => b
  | None => x00
  end.

(** The signed 16-bit value held by two bytes, low byte first: typed arrays
    use the byte order of the platform, little-endian on every browser
    platform. *)
Definition int16_of_bytes (lo hi : byte) : Z :=
  let u := (byte_val lo + 256 * byte_val hi)%Z in
  if (u <? 32768)%Z then u else (u - 65536)%Z.

(** [new Int16Array(buffer)]: a [RangeError] unless the byte length is a
    multiple of two. *)
Fixpoint Int16Array_of_buffer (buf : Uint8Array) : Result Int16Array :=
  match buf with
  | [] => Ok []
  | [_] => Throw "RangeError: byte length of Int16Array should be a multiple of 2"
  | lo :: hi :: rest =>
      match Int16Array_of_buffer rest with
      | Ok l => Ok (int16_of_bytes lo hi :: l)
      | Throw e => Throw e
      end
  end.

(** [new Uint8Array(int16.buffer)]: the bytes behind an [Int16Array]. *)
Definition bytes_of_int16 (v : Z) : list byte :=
  [byte_of_Z v; byte_of_Z (v / 256)].

Definition buffer_of_Int16Array (a : Int16Array) : Uint8Array :=
  flat_map bytes_of_int16 a.

(** ** Base64: the browser's [btoa] and [atob]

    [btoa] is RFC 4648 base64 with padding; [atob] is the "forgiving-base64
    decode" of the WHATWG Infra standard. *)
Module Base64.

Local Open Scope N_scope.

Definition alphabet : string :=
  "ABCDEFGHIJKLMNOPQRSTUVWXYZabcdefghijklmnopqrstuvwxyz0123456789+/".

Definition pad : ascii := "="%char.

Definition char_of_sextet (n : N) : ascii :=
  match String.get (N.to_nat n) alphabet with
  | Some c => c
  | None => pad
  end.

Definition sextet_of_char (c : ascii) : option N :=
  let n := N_of_ascii c in
  if (65 <=? n) && (n <=? 90) then Some (n - 65)
  else if (97 <=? n) && (n <=? 122) then Some (n - 71)
  else if (48 <=? n) && (n <=? 57) then Some (n + 4)
  else if n =? 43 then Some 62
  else if n =? 47 then Some 63
  else None.

(** Three bytes give four sextets; a last group of one or two bytes gives
    two or three. *)
Fixpoint to_sextets (l : list N) : list N :=
  match l with
  | a :: b :: c :: r =>
      a / 4 :: (a mod 4) * 16 + b / 16 :: (b mod 16) * 4 + c / 64 :: c mod 64
        :: to_sextets r
  | [a; b] => [a / 4; (a mod 4) * 16 + b / 16; (b mod 16) * 4]
  | [a] => [a / 4; (a mod 4) * 16]
  | [] => []
  end.

Definition padding (len : nat) : list ascii :=
  match (len mod 3)%nat with
  | 1%nat => [pad; pad]
  | 2%nat => [pad]
  | _ => []
  end.

Definition btoa (s : string) : string :=
  let bytes := map N_of_ascii (list_ascii_of_string s) in
  string_of_list_ascii
    (map char_of_sextet (to_sextets bytes) ++ padding (List.length bytes)).

(** ASCII whitespace: TAB, LF, FF, CR and SPACE. *)
Definition is_whitespace (c : ascii) : bool :=
  let n := N_of_ascii c in
  (n =? 9) || (n =? 10) || (n =? 12) || (n =? 13) || (n =? 32).

Definition ends_with_pad (l : list ascii) : bool :=
  match rev l with
  | c :: _ => Ascii.eqb c pad
  | [] => false
  end.

(** When the length is a multiple of four, one or two trailing [=] are
    removed. *)
Definition remove_padding (l : list ascii) : list ascii :=
  if (List.length l mod 4 =? 0)%nat then
    if ends_with_pad l then
      let l1 := removelast l in
      if ends_with_pad l1 then removelast l1 else l1
    else l
  else l.

Fixpoint sextets_of_chars (l : list ascii) : option (list N) :=
  match l with
  | [] => Some []
  | c :: r =>
      match sextet_of_char c, sextets_of_chars r with
      | Some n, Some ns => Some (n :: ns)
      | _, _ => None
      end
  end.

(** Four sextets give three bytes; two or three left-over sextets give one
    or two bytes, their low bits being dropped. *)
Fixpoint of_sextets (l : list N) : list N :=
  match l with
  | a :: b :: c :: d :: r =>
      a * 4 + b / 16 :: (b mod 16) * 16 + c / 4 :: (c mod 4) * 64 + d
        :: of_sextets r
  | [a; b; c] => [a * 4 + b / 16; (b mod 16) * 16 + c / 4]
  | [a; b] => [a * 4 + b / 16]
  | _ => []
  end.

(** [None] stands for the [InvalidCharacterError] that [atob] throws. *)
Definition atob (s : string) : option string :=
  let data :=
    remove_padding
      (filter (fun c => negb (is_whitespace c)) (list_ascii_of_string s)) in
  if (List.length data mod 4 =? 1)%nat then None
  else
    match sextets_of_chars data with
    | None => None
    | Some ns => Some (string_of_list_ascii (map ascii_of_N (of_sextets ns)))
    end.

End Base64.

(** ** [LiveClient.encode] and [LiveClient.decode] *)

(** The loop [binary += String.fromCharCode(bytes[i])]. *)
Definition binary_of_bytes (bytes : Uint8Array) : string :=
  fold_left (fun binary b => (binary ++ String (ascii_of_byte b) EmptyString)%string)
    bytes EmptyString.

Definition encode (bytes : Uint8Array) : string :=
  Base64.btoa (binary_of_bytes bytes).

(** The loop [bytes[i] = binaryString.charCodeAt(i)]. *)
Fixpoint bytes_of_binary (binaryString : string) : Uint8Array :=
  match binaryString with
  | EmptyString => []
  | String c rest => byte_of_ascii c :: bytes_of_binary rest
  end.

Definition decode (base64 : string) : Result Uint8Array :=
  match Base64.atob base64 with
  | Some binaryString => Ok (bytes_of_binary binaryString)
  | None => Throw "InvalidCharacterError"
  end.

(** ** Float32 samples

    Every finite Float32 value is a rational, and the products of
    [createBlob] (a Float32 value in [-1, 1] by 32768 or 32767) are exact in
    double precision, so the arithmetic on [Q] below is the arithmetic the
    code performs. *)

Inductive float : Type :=
| Finite (q : Q)
| PosInf
| NegInf
| NaN.

Definition Math_min (a b : float) : float :=
  match a, b with
  | NaN, _ | _, NaN => NaN
  | NegInf, _ | _, NegInf => NegInf
  | PosInf, x | x, PosInf => x
  | Finite p, Finite q => if Qle_bool p q then a else b
  end.

Definition Math_max (a b : float) : float :=
  match a, b with
  | NaN, _ | _, NaN => NaN
  | PosInf, _ | _, PosInf => PosInf
  | NegInf, x | x, NegInf => x
  | Finite p, Finite q => if Qle_bool p q then b else a
  end.

(** The comparison [a < b]; false when an operand is [NaN]. *)
Definition float_lt (a b : float) : bool :=
  match a, b with
  | NaN, _ | _, NaN => false
  | _, NegInf => false
  | NegInf, _ => true
  | PosInf, _ => false
  | _, PosInf => true
  | Finite p, Finite q => negb (Qle_bool q p)
  end.

Definition float_sign (a : float) : comparison :=
  match a with
  | Finite q => (q ?= 0)%Q
  | PosInf => Gt
  | NegInf => Lt
  | NaN => Eq
  end.

(** The product [a * b]; an infinity times zero is [NaN]. *)
Definition float_mul (a b : float) : float :=
  match a, b with
  | NaN, _ | _, NaN => NaN
  | Finite p, Finite q => Finite (p * q)
  | _, _ =>
      match float_sign a, float_sign b with
      | Eq, _ | _, Eq => NaN
      | Lt, Lt | Gt, Gt => PosInf
      | _, _ => NegInf
      end
  end.

(** Truncation toward zero. *)
Definition Qtrunc (q : Q) : Z := Z.quot (Qnum q) (Zpos (Qden q)).

(** The signed 16-bit integer congruent to [z] modulo 2^16. *)
Definition wrap_int16 (z : Z) : Z :=
  let m := (z mod 65536)%Z in
  if (m <? 32768)%Z then m else (m - 65536)%Z.

(** ToInt16 of ECMAScript, applied when a number is stored into an
    [Int16Array]: [NaN] and the infinities become 0, a finite number is
    truncated and wrapped. *)
Definition ToInt16 (x : float) : Z :=
  match x with
  | Finite q => wrap_int16 (Qtrunc q)
  | _ => 0%Z
  end.

(** ** [LiveClient.createBlob] *)

Record Blob : Type := {
  blob_data : string;
  blob_mimeType : string
}.

(** One turn of the loop of [createBlob]: the value stored in [int16[i]]. *)
Definition pcm16_of_sample (x : float) : Z :=
  let s := Math_max (Finite (-1)) (Math_min (Finite 1) x) in
  ToInt16 (if float_lt s (Finite 0)
           then float_mul s (Finite 32768)
           else float_mul s (Finite 32767)).

Definition createBlob (data : list float) : Blob :=
  let int16 := map pcm16_of_sample data in
  {| blob_data := encode (buffer_of_Int16Array int16);
     blob_mimeType := "audio/pcm;rate=16000" |}.

(** The conversion as the specification words it, on a finite sample:
    clamp to [-1, 1], scale a negative sample by 0x8000 and any other by
    0x7FFF, truncate toward zero. *)
Definition spec_clamp (q : Q) : Q :=
  if Qlt_le_dec q (-1) then -1 else if Qlt_le_dec 1 q then 1 else q.

Definition spec_pcm16 (q : Q) : Z :=
  let s := spec_clamp q in
  if Qlt_le_dec s 0 then Qtrunc (s * 32768) else Qtrunc (s * 32767).

(** What the specification's conversion gives for each kind of sample: an
    infinity clamps to the bound of its sign; [NaN] is not ordered, is left
    alone by the clamp and is stored as 0. *)
Definition spec_pcm16_float (x : float) : Z :=
  match x with
  | Finite q => spec_pcm16 q
  | PosInf => 32767
  | NegInf => -32768
  | NaN => 0
  end.

(** ** [AudioBuffer] and [LiveClient.decodeAudioData] *)

Record AudioBuffer : Type := {
  numberOfChannels : nat;
  buffer_length : nat;
  buffer_sampleRate : Z;
  channelData : list (list Q)
}.

(** [AudioBuffer.duration], in seconds. *)
Definition duration (b : AudioBuffer) : Q :=
  inject_Z (Z.of_nat (buffer_length b)) / inject_Z (buffer_sampleRate b).

(** [BaseAudioContext.createBuffer]: a silent buffer.  The Web Audio API
    has it throw [NotSupportedError] when the number of channels is zero
    or above the number of channels supported (32 in the browsers), or when
    the number of frames is zero.  It also throws for a sample rate that
    the implementation does not support; which rates those are, outside the
    range from 8000 Hz to 96000 Hz that every implementation supports, is
    left to the implementation.  The sample rate is taken to be a
    supported one, as 24000, the only rate the client passes, is: the
    statements that are about other rates say so. *)
Definition maxChannels : nat := 32.

Definition createBuffer (numChannels frameCount : nat) (sampleRate : Z)
  : Result AudioBuffer :=
  if ((numChannels =? 0) || (maxChannels <? numChannels) || (frameCount =? 0))%nat
  then Throw "NotSupportedError"
  else Ok {| numberOfChannels := numChannels;
             buffer_length := frameCount;
             buffer_sampleRate := sampleRate;
             channelData := repeat (repeat 0%Q frameCount) numChannels |}.

(** The sample [dataInt16[k] / 32768.0]; the quotient is exact in Float32. *)
Definition sample_of_int16 (v : Z) : Q := v # 32768.

(** The two loops of [decodeAudioData]: channel [c] receives at frame [i]
    the sample at index [i * numChannels + c].  [createBuffer] truncates its
    frame count to an integer and a typed array ignores a store past its end,
    so the frames are those below the integer quotient. *)
Definition fill_channels (dataInt16 : Int16Array) (numChannels frameCount : nat)
  : list (list Q) :=
  map (fun c =>
         map (fun i => sample_of_int16 (nth (i * numChannels + c) dataInt16 0%Z))
             (seq 0 frameCount))
      (seq 0 numChannels).

Definition decodeAudioData (data : Uint8Array) (sampleRate : Z) (numChannels : nat)
  : Result AudioBuffer :=
  match Int16Array_of_buffer data with
  | Throw e => Throw e
  | Ok dataInt16 =>
      let frameCount := (List.length dataInt16 / numChannels)%nat in
      match createBuffer numChannels frameCount sampleRate with
      | Throw e => Throw e
      | Ok buffer =>
          Ok {| numberOfChannels := numberOfChannels buffer;
                buffer_length := buffer_length buffer;
                buffer_sampleRate := buffer_sampleRate buffer;
                channelData := fill_channels dataInt16 numChannels frameCount |}
      end
  end.

(** ** The state of a [LiveClient] *)

Inductive AudioContextState : Type := suspended | running | closed.

Record AudioContext : Type := {
  ctx_sampleRate : Z;
  ctx_state : AudioContextState
}.

Inductive GainNode : Type := createGain (ctx : AudioContext).

Definition MediaStream := nat.
Definition LiveSession := nat.

Inductive MediaStreamAudioSourceNode : Type :=
  createMediaStreamSource (ctx : AudioContext) (stream : MediaStream).

Inductive ScriptProcessorNode : Type :=
  createScriptProcessor (bufferSize inputChannels outputChannels : nat).

(** A playback source.  [node_id] stands for the identity of the object:
    the set [sources] holds objects, not values. *)
Record AudioBufferSourceNode : Type := {
  node_id : nat;
  node_buffer : AudioBuffer
}.

Record LiveClient : Type := {
  inputAudioContext : option AudioContext;
  outputAudioContext : option AudioContext;
  inputNode : option GainNode;
  outputNode : option GainNode;
  mediaStream : option MediaStream;
  scriptProcessor : option ScriptProcessorNode;
  source : option MediaStreamAudioSourceNode;
  nextStartTime : Q;
  sources : list AudioBufferSourceNode;
  currentInputTranscription : string;
  currentOutputTranscription : string;
  session : option LiveSession;
  isConnected : bool;
  language : string;
  (** Not a field of the class: the number of playback sources created so
      far, from which the next [node_id] is taken. *)
  nodesCreated : nat
}.

(** The constructor. *)
Definition newLiveClient (lang : string) : LiveClient :=
  {| inputAudioContext := None; outputAudioContext := None;
     inputNode := None; outputNode := None;
     mediaStream := None; scriptProcessor := None; source := None;
     nextStartTime := 0; sources := [];
     currentInputTranscription := ""; currentOutputTranscription := "";
     session := None; isConnected := false; language := lang;
     nodesCreated := 0 |}.

Definition set_inputAudioContext (v : option AudioContext) (s : LiveClient) :=
  {| inputAudioContext := v; outputAudioContext := outputAudioContext s;
     inputNode := inputNode s; outputNode := outputNode s;
     mediaStream := mediaStream s; scriptProcessor := scriptProcessor s;
     source := source s; nextStartTime := nextStartTime s; sources := sources s;
     currentInputTranscription := currentInputTranscription s;
     currentOutputTranscription := currentOutputTranscription s;
     session := session s; isConnected := isConnected s; language := language s;
     nodesCreated := nodesCreated s |}.

Definition set_outputAudioContext (v : option AudioContext) (s : LiveClient) :=
  {| inputAudioContext := inputAudioContext s; outputAudioContext := v;
     inputNode := inputNode s; outputNode := outputNode s;
     mediaStream := mediaStream s; scriptProcessor := scriptProcessor s;
     source := source s; nextStartTime := nextStartTime s; sources := sources s;
     currentInputTranscription := currentInputTranscription s;
     currentOutputTranscription := currentOutputTranscription s;
     session := session s; isConnected := isConnected s; language := language s;
     nodesCreated := nodesCreated s |}.

Definition set_inputNode (v : option GainNode) (s : LiveClient) :=
  {| inputAudioContext := inputAudioContext s;
     outputAudioContext := outputAudioContext s;
     inputNode := v; outputNode := outputNode s;
     mediaStream := mediaStream s; scriptProcessor := scriptProcessor s;
     source := source s; nextStartTime := nextStartTime s; sources := sources s;
     currentInputTranscription := currentInputTranscription s;
     currentOutputTranscription := currentOutputTranscription s;
     session := session s; isConnected := isConnected s; language := language s;
     nodesCreated := nodesCreated s |}.

Definition set_outputNode (v : option GainNode) (s : LiveClient) :=
  {| inputAudioContext := inputAudioContext s;
     outputAudioContext := outputAudioContext s;
     inputNode := inputNode s; outputNode := v;
     mediaStream := mediaStream s; scriptProcessor := scriptProcessor s;
     source := source s; nextStartTime := nextStartTime s; sources := sources s;
     currentInputTranscription := currentInputTranscription s;
     currentOutputTranscription := currentOutputTranscription s;
     session := session s; isConnected := isConnected s; language := language s;
     nodesCreated := nodesCreated s |}.

Definition set_mediaStream (v : option MediaStream) (s : LiveClient) :=
  {| inputAudioContext := inputAudioContext s;
     outputAudioContext := outputAudioContext s;
     inputNode := inputNode s; outputNode := outputNode s;
     mediaStream := v; scriptProcessor := scriptProcessor s;
     source := source s; nextStartTime := nextStartTime s; sources := sources s;
     currentInputTranscription := currentInputTranscription s;
     currentOutputTranscription := currentOutputTranscription s;
     session := session s; isConnected := isConnected s; language := language s;
     nodesCreated := nodesCreated s |}.

Definition set_scriptProcessor (v : option ScriptProcessorNode) (s : LiveClient) :=
  {| inputAudioContext := inputAudioContext s;
     outputAudioContext := outputAudioContext s;
     inputNode := inputNode s; outputNode := outputNode s;
     mediaStream := mediaStream s; scriptProcessor := v;
     source := source s; nextStartTime := nextStartTime s; sources := sources s;
     currentInputTranscription := currentInputTranscription s;
     currentOutputTranscription := currentOutputTranscription s;
     session := session s; isConnected := isConnected s; language := language s;
     nodesCreated := nodesCreated s |}.

Definition set_source (v : option MediaStreamAudioSourceNode) (s : LiveClient) :=
  {| inputAudioContext := inputAudioContext s;
     outputAudioContext := outputAudioContext s;
     inputNode := inputNode s; outputNode := outputNode s;
     mediaStream := mediaStream s; scriptProcessor := scriptProcessor s;
     source := v; nextStartTime := nextStartTime s; sources := sources s;
     currentInputTranscription := currentInputTranscription s;
     currentOutputTranscription := currentOutputTranscription s;
     session := session s; isConnected := isConnected s; language := language s;
     nodesCreated := nodesCreated s |}.

Definition set_nextStartTime (v : Q) (s : LiveClient) :=
  {| inputAudioContext := inputAudioContext s;
     outputAudioContext := outputAudioContext s;
     inputNode := inputNode s; outputNode := outputNode s;
     mediaStream := mediaStream s; scriptProcessor := scriptProcessor s;
     source := source s; nextStartTime := v; sources := sources s;
     currentInputTranscription := currentInputTranscription s;
     currentOutputTranscription := currentOutputTranscription s;
     session := session s; isConnected := isConnected s; language := language s;
     nodesCreated := nodesCreated s |}.

Definition set_sources (v : list AudioBufferSourceNode) (s : LiveClient) :=
  {| inputAudioContext := inputAudioContext s;
     outputAudioContext := outputAudioContext s;
     inputNode := inputNode s; outputNode := outputNode s;
     mediaStream := mediaStream s; scriptProcessor := scriptProcessor s;
     source := source s; nextStartTime := nextStartTime s; sources := v;
     currentInputTranscription := currentInputTranscription s;
     currentOutputTranscription := currentOutputTranscription s;
     session := session s; isConnected := isConnected s; language := language s;
     nodesCreated := nodesCreated s |}.

Definition set_currentInputTranscription (v : string) (s : LiveClient) :=
  {| inputAudioContext := inputAudioContext s;
     outputAudioContext := outputAudioContext s;
     inputNode := inputNode s; outputNode := outputNode s;
     mediaStream := mediaStream s; scriptProcessor := scriptProcessor s;
     source := source s; nextStartTime := nextStartTime s; sources := sources s;
     currentInputTranscription := v;
     currentOutputTranscription := currentOutputTranscription s;
     session := session s; isConnected := isConnected s; language := language s;
     nodesCreated := nodesCreated s |}.

Definition set_currentOutputTranscription (v : string) (s : LiveClient) :=
  {| inputAudioContext := inputAudioContext s;
     outputAudioContext := outputAudioContext s;
     inputNode := inputNode s; outputNode := outputNode s;
     mediaStream := mediaStream s; scriptProcessor := scriptProcessor s;
     source := source s; nextStartTime := nextStartTime s; sources := sources s;
     currentInputTranscription := currentInputTranscription s;
     currentOutputTranscription := v;
     session := session s; isConnected := isConnected s; language := language s;
     nodesCreated := nodesCreated s |}.

Definition set_session (v : option LiveSession) (s : LiveClient) :=
  {| inputAudioContext := inputAudioContext s;
     outputAudioContext := outputAudioContext s;
     inputNode := inputNode s; outputNode := outputNode s;
     mediaStream := mediaStream s; scriptProcessor := scriptProcessor s;
     source := source s; nextStartTime := nextStartTime s; sources := sources s;
     currentInputTranscription := currentInputTranscription s;
     currentOutputTranscription := currentOutputTranscription s;
     session := v; isConnected := isConnected s; language := language s;
     nodesCreated := nodesCreated s |}.

Definition set_isConnected (v : bool) (s : LiveClient) :=
  {| inputAudioContext := inputAudioContext s;
     outputAudioContext := outputAudioContext s;
     inputNode := inputNode s; outputNode := outputNode s;
     mediaStream := mediaStream s; scriptProcessor := scriptProcessor s;
     source := source s; nextStartTime := nextStartTime s; sources := sources s;
     currentInputTranscription := currentInputTranscription s;
     currentOutputTranscription := currentOutputTranscription s;
     session := session s; isConnected := v; language := language s;
     nodesCreated := nodesCreated s |}.

Definition set_nodesCreated (v : nat) (s : LiveClient) :=
  {| inputAudioContext := inputAudioContext s;
     outputAudioContext := outputAudioContext s;
     inputNode := inputNode s; outputNode := outputNode s;
     mediaStream := mediaStream s; scriptProcessor := scriptProcessor s;
     source := source s; nextStartTime := nextStartTime s; sources := sources s;
     currentInputTranscription := currentInputTranscription s;
     currentOutputTranscription := currentOutputTranscription s;
     session := session s; isConnected := isConnected s; language := language s;
     nodesCreated := v |}.

(** ** Server messages

    The message types are declared by the SDK, not by the repository.  A
    message is taken as the code reads it: [sc_audio] is
    [serverContent.modelTurn?.parts?.[0]?.inlineData?.data]; a
    transcription that is present is given by the text that [+=] appends to
    the accumulator, which is its [text], or 'undefined' when it comes
    without one; a tool call has its array of function calls, and a
    function call comes with its [args] object, whose fields may be
    absent. *)

Record ExplanationData : Type := {
  botTranslation : string;
  userOriginal : string;
  userEnglishTranslation : string
}.

Record FunctionArgs : Type := {
  arg_botTranslation : option string;
  arg_userOriginal : option string;
  arg_userEnglishTranslation : option string
}.

Record FunctionCall : Type := {
  fc_id : option string;
  fc_name : string;
  fc_args : FunctionArgs
}.

Record ServerContent : Type := {
  sc_audio : option string;
  sc_inputTranscription : option string;
  sc_outputTranscription : option string;
  sc_turnComplete : bool;
  sc_interrupted : bool
}.

Record LiveServerMessage : Type := {
  serverContent : option ServerContent;
  toolCall : option (list FunctionCall)
}.

(** The optional chains [message.serverContent?.x]. *)
Definition msg_audio (m : LiveServerMessage) : option string :=
  match serverContent m with Some sc => sc_audio sc | None => None end.

Definition msg_inputTranscription (m : LiveServerMessage) : option string :=
  match serverContent m with Some sc => sc_inputTranscription sc | None => None end.

Definition msg_outputTranscription (m : LiveServerMessage) : option string :=
  match serverContent m with Some sc => sc_outputTranscription sc | None => None end.

Definition msg_turnComplete (m : LiveServerMessage) : bool :=
  match serverContent m with Some sc => sc_turnComplete sc | None => false end.

Definition msg_interrupted (m : LiveServerMessage) : bool :=
  match serverContent m with Some sc => sc_interrupted sc | None => false end.

(** ** Observable events *)

Inductive Event : Type :=
(* callbacks *)
| OnInputTranscription (text : string)
| OnOutputTranscription (text : string)
| OnExplanation (data : ExplanationData)
| OnTurnComplete
| OnConnected
| OnDisconnected
| OnError (error : Error)
(* the session *)
| LiveConnect (lang : string)
| SendRealtimeInput (media : Blob)
| SendToolResponse (id : option string) (name : string) (result : string)
| SessionClose (sess : LiveSession)
(* playback *)
| SourceStart (src : AudioBufferSourceNode) (when : Q)
| SourceStop (src : AudioBufferSourceNode)
(* capture and contexts *)
| GetUserMedia
| NewAudioContext (sampleRate : Z)
| ContextResume (ctx : AudioContext)
| ContextClose (ctx : AudioContext)
| TracksStop (stream : MediaStream)
| SourceDisconnect (src : MediaStreamAudioSourceNode)
| ProcessorDisconnect (p : ScriptProcessorNode)
| SetTimeout (ms : nat)
| ConsoleError (label : string).

(** ** A monad for the methods: state, trace and exceptions *)

Definition M (A : Type) : Type :=
  LiveClient -> LiveClient * list Event * Result A.

Definition ret {A} (a : A) : M A := fun s => (s, [], Ok a).

Definition bind {A B} (m : M A) (k : A -> M B) : M B :=
  fun s =>
    match m s with
    | (s1, t1, Ok a) =>
        match k a s1 with
        | (s2, t2, r) => (s2, t1 ++ t2, r)
        end
    | (s1, t1, Throw e) => (s1, t1, Throw e)
    end.

Notation "x <- m ;; k" := (bind m (fun x => k))
  (at level 61, m at next level, right associativity).
Notation "m ;; k" := (bind m (fun _ => k))
  (at level 61, right associativity).

Definition get : M LiveClient := fun s => (s, [], Ok s).
Definition modify (f : LiveClient -> LiveClient) : M unit :=
  fun s => (f s, [], Ok tt).
Definition emit (e : Event) : M unit := fun s => (s, [e], Ok tt).
Definition lift {A} (r : Result A) : M A := fun s => (s, [], r).

(** [try { m } catch (e) { h e }]. *)
Definition try_catch {A} (m : M A) (h : Error -> M A) : M A :=
  fun s =>
    match m s with
    | (s1, t1, Throw e) =>
        match h e s1 with
        | (s2, t2, r) => (s2, t1 ++ t2, r)
        end
    | done => done
    end.

Definition when (c : bool) (m : M unit) : M unit :=
  if c then m else ret tt.

Fixpoint for_each {A} (l : list A) (body : A -> M unit) : M unit :=
  match l with
  | [] => ret tt
  | x :: r => body x ;; for_each r body
  end.

Definition state_of {A} (r : LiveClient * list Event * Result A) : LiveClient :=
  fst (fst r).
Definition trace_of {A} (r : LiveClient * list Event * Result A) : list Event :=
  snd (fst r).
Definition result_of {A} (r : LiveClient * list Event * Result A) : Result A :=
  snd r.

(** JavaScript truthiness of a string. *)
Definition truthy (s : string) : bool :=
  match s with EmptyString => false | _ => true end.

(** [v || '']: an absent field and an empty one both give the empty
    string. *)
Definition or_empty (v : option string) : string :=
  match v with
  | Some s => if truthy s then s else ""
  | None => ""
  end.

(** ** [Set<AudioBufferSourceNode>] in insertion order *)

Definition same_node (a b : AudioBufferSourceNode) : bool :=
  (node_id a =? node_id b)%nat.

Definition Set_add (x : AudioBufferSourceNode) (l : list AudioBufferSourceNode) :=
  if existsb (same_node x) l then l else l ++ [x].

Definition Set_delete (x : AudioBufferSourceNode) (l : list AudioBufferSourceNode) :=
  filter (fun y => negb (same_node x y)) l.

(** ** [LiveClient.handleMessage]

    [now] is the reading of [outputAudioContext.currentTime] made while the
    message is handled.  The method is taken to run to its end before the
    next event is delivered. *)

(** Lines 604-616: the schedule of one chunk of audio. *)
Definition scheduleAudio (now : Q) (base64Audio : string) : M unit :=
  modify (fun s => set_nextStartTime (Qmax (nextStartTime s) now) s) ;;
  try_catch
    (bytes <- lift (decode base64Audio) ;;
     audioBuffer <- lift (decodeAudioData bytes 24000 1) ;;
     s <- get ;;
     let src := {| node_id := nodesCreated s; node_buffer := audioBuffer |} in
     modify (set_nodesCreated (S (nodesCreated s))) ;;
     emit (SourceStart src (nextStartTime s)) ;;
     modify (fun s => set_nextStartTime (nextStartTime s + duration audioBuffer) s) ;;
     modify (fun s => set_sources (Set_add src (sources s)) s))
    (fun decodeErr => emit (ConsoleError "Audio Decode Error")).

Definition handleAudio (now : Q) (message : LiveServerMessage) : M unit :=
  s <- get ;;
  match msg_audio message, outputAudioContext s, outputNode s with
  | Some base64Audio, Some _, Some _ =>
      when (truthy base64Audio) (scheduleAudio now base64Audio)
  | _, _, _ => ret tt
  end.

Definition handleInputTranscription (message : LiveServerMessage) : M unit :=
  match msg_inputTranscription message with
  | Some text =>
      modify (fun s => set_currentInputTranscription
                         (currentInputTranscription s ++ text)%string s) ;;
      s <- get ;;
      emit (OnInputTranscription (currentInputTranscription s))
  | None => ret tt
  end.

Definition handleOutputTranscription (message : LiveServerMessage) : M unit :=
  match msg_outputTranscription message with
  | Some text =>
      modify (fun s => set_currentOutputTranscription
                         (currentOutputTranscription s ++ text)%string s) ;;
      s <- get ;;
      emit (OnOutputTranscription (currentOutputTranscription s))
  | None => ret tt
  end.

(** The body of the loop over the function calls.  [sendToolResponse] is
    called inside a [try] whose [catch] is empty: the call is recorded, and
    whether it throws changes nothing. *)
Definition handleFunctionCall (fc : FunctionCall) : M unit :=
  if String.eqb (fc_name fc) "provideBilingualDetails" then
    let args := fc_args fc in
    let explanationData :=
      {| botTranslation := or_empty (arg_botTranslation args);
         userOriginal := or_empty (arg_userOriginal args);
         userEnglishTranslation := or_empty (arg_userEnglishTranslation args) |} in
    emit (OnExplanation explanationData) ;;
    s <- get ;;
    match session s with
    | Some _ =>
        try_catch (emit (SendToolResponse (fc_id fc) (fc_name fc) "ok"))
                  (fun _ => ret tt)
    | None => ret tt
    end
  else ret tt.

Definition handleToolCall (message : LiveServerMessage) : M unit :=
  match toolCall message with
  | Some functionCalls => for_each functionCalls handleFunctionCall
  | None => ret tt
  end.

Definition handleTurnComplete (message : LiveServerMessage) : M unit :=
  when (msg_turnComplete message)
    (emit OnTurnComplete ;;
     modify (set_currentInputTranscription "") ;;
     modify (set_currentOutputTranscription "")).

Definition handleInterrupted (message : LiveServerMessage) : M unit :=
  when (msg_interrupted message)
    (s <- get ;;
     for_each (sources s)
       (fun src => try_catch (emit (SourceStop src)) (fun _ => ret tt)) ;;
     modify (set_sources []) ;;
     modify (set_nextStartTime 0) ;;
     modify (set_currentOutputTranscription "")).

Definition handleMessage (now : Q) (message : LiveServerMessage) : M unit :=
  s <- get ;;
  if negb (isConnected s) then ret tt
  else
    try_catch
      (handleAudio now message ;;
       handleInputTranscription message ;;
       handleOutputTranscription message ;;
       handleToolCall message ;;
       handleTurnComplete message ;;
       handleInterrupted message)
      (fun e => emit (ConsoleError "Msg Error:")).

(** The ['ended'] listener of a playback source. *)
Definition onSourceEnded (src : AudioBufferSourceNode) : M unit :=
  modify (fun s => set_sources (Set_delete src (sources s)) s).

(** ** [LiveClient.disconnect] *)

Definition closeContext (ctx : option AudioContext) : M unit :=
  match ctx with
  | Some c =>
      match ctx_state c with
      | closed => ret tt
      | _ => try_catch (emit (ContextClose c)) (fun _ => ret tt)
      end
  | None => ret tt
  end.

Definition disconnect : M unit :=
  modify (set_isConnected false) ;;
  try_catch
    ((s <- get ;;
      match session s with
      | Some sess =>
          try_catch (emit (SessionClose sess)) (fun _ => ret tt) ;;
          modify (set_session None)
      | None => ret tt
      end) ;;
     (s <- get ;;
      match mediaStream s with
      | Some stream => emit (TracksStop stream)
      | None => ret tt
      end) ;;
     (s <- get ;;
      match source s with
      | Some node => emit (SourceDisconnect node)
      | None => ret tt
      end) ;;
     (s <- get ;;
      match scriptProcessor s with
      | Some p => emit (ProcessorDisconnect p)
      | None => ret tt
      end) ;;
     s <- get ;;
     closeContext (inputAudioContext s) ;;
     closeContext (outputAudioContext s))
    (fun e => emit (ConsoleError "Disconnect cleanup error")) ;;
  emit OnDisconnected ;;
  modify (set_inputAudioContext None) ;;
  modify (set_outputAudioContext None) ;;
  modify (set_mediaStream None) ;;
  modify (set_source None) ;;
  modify (set_scriptProcessor None).

(** ** Audio capture *)

Definition startAudioStreaming : M unit :=
  s <- get ;;
  match inputAudioContext s, mediaStream s, session s with
  | Some ctx, Some stream, Some _ =>
      try_catch
        (modify (set_source (Some (createMediaStreamSource ctx stream))) ;;
         modify (set_scriptProcessor (Some (createScriptProcessor 4096 1 1))))
        (fun e => emit (ConsoleError "Audio Stream Start Error:"))
  | _, _, _ => ret tt
  end.

(** The timer set by [connect]. *)
Definition onStreamingTimer : M unit :=
  s <- get ;;
  when (isConnected s) startAudioStreaming.

(** The [onaudioprocess] callback of the script processor; [inputData] is
    channel 0 of the input buffer. *)
Definition onaudioprocess (inputData : list float) : M unit :=
  s <- get ;;
  match isConnected s, session s with
  | true, Some _ =>
      let pcmBlob := createBlob inputData in
      try_catch (emit (SendRealtimeInput pcmBlob)) (fun _ => ret tt)
  | _, _ => ret tt
  end.

(** ** [LiveClient.connect] *)

(** What the browser and the SDK answer during one call of [connect]. *)
Record Browser : Type := {
  API_KEY : option string;
  getUserMedia : Result MediaStream;
  newAudioContext : Z -> Result AudioContext;
  resume : AudioContext -> Result unit;
  liveConnect : Result LiveSession
}.

Definition has_API_KEY (env : Browser) : bool :=
  match API_KEY env with
  | Some k => truthy k
  | None => false
  end.

Definition resumed (ctx : AudioContext) : AudioContext :=
  {| ctx_sampleRate := ctx_sampleRate ctx; ctx_state := running |}.

(** The body of the [try] of [connect]. *)
Definition connect_body (env : Browser) : M unit :=
  emit GetUserMedia ;;
  stream <- lift (getUserMedia env) ;;
  modify (set_mediaStream (Some stream)) ;;
  emit (NewAudioContext 16000) ;;
  ictx <- lift (newAudioContext env 16000) ;;
  modify (set_inputAudioContext (Some ictx)) ;;
  emit (NewAudioContext 24000) ;;
  octx <- lift (newAudioContext env 24000) ;;
  modify (set_outputAudioContext (Some octx)) ;;
  ictx <- (match ctx_state ictx with
           | suspended =>
               emit (ContextResume ictx) ;;
               lift (resume env ictx) ;;
               modify (set_inputAudioContext (Some (resumed ictx))) ;;
               ret (resumed ictx)
           | _ => ret ictx
           end) ;;
  octx <- (match ctx_state octx with
           | suspended =>
               emit (ContextResume octx) ;;
               lift (resume env octx) ;;
               modify (set_outputAudioContext (Some (resumed octx))) ;;
               ret (resumed octx)
           | _ => ret octx
           end) ;;
  modify (set_inputNode (Some (createGain ictx))) ;;
  modify (set_outputNode (Some (createGain octx))) ;;
  s <- get ;;
  emit (LiveConnect (language s)) ;;
  sess <- lift (liveConnect env) ;;
  modify (set_session (Some sess)) ;;
  modify (set_isConnected true) ;;
  emit OnConnected ;;
  emit (SetTimeout 500).

Definition connect (env : Browser) : M unit :=
  if negb (has_API_KEY env) then emit (OnError "API Key missing")
  else
    try_catch (connect_body env)
      (fun error =>
         emit (ConsoleError "Connection Exception:") ;;
         disconnect ;;
         emit (OnError error)).

(** The [onclose] and [onerror] callbacks given to the session.  What
    they write with [console.error] is recorded, what they write with
    [console.log] is not. *)
Definition session_onclose : M unit := disconnect.

Definition session_onerror : M unit :=
  emit (ConsoleError "Live API Error Event:") ;;
  s <- get ;;
  when (isConnected s) (disconnect ;; emit (OnError "Network error occurred")).

(** ** Runs of a client *)

(** What can be delivered to a client. *)
Inductive Input : Type :=
| ServerMessage (now : Q) (message : LiveServerMessage)
| AudioProcess (inputData : list float)
| StreamingTimer
| SourceEnded (src : AudioBufferSourceNode)
| SessionClosed.

Definition deliver (i : Input) : M unit :=
  match i with
  | ServerMessage now message => handleMessage now message
  | AudioProcess inputData => onaudioprocess inputData
  | StreamingTimer => onStreamingTimer
  | SourceEnded src => onSourceEnded src
  | SessionClosed => session_onclose
  end.


(** The messages of a list, handled in order. *)
Definition handleMessages (msgs : list (Q * LiveServerMessage)) : M unit :=
  for_each msgs (fun nm => handleMessage (fst nm) (snd nm)).

(** ** The chat input *)

(** [String.prototype.trim] on a string of 8-bit code units: the white
    space and line terminators of ECMAScript below 256 are TAB, LF, VT, FF,
    CR, SPACE and NBSP. *)
Definition is_js_whitespace (c : ascii) : bool :=
  let n := N_of_ascii c in
  ((9 <=? n) && (n <=? 13) || (n =? 32) || (n =? 160))%N.

Fixpoint trimStart (s : string) : string :=
  match s with
  | EmptyString => EmptyString
  | String c rest => if is_js_whitespace c then trimStart rest else s
  end.

Fixpoint trimEnd (s : string) : string :=
  match s with
  | EmptyString => EmptyString
  | String c rest =>
      match trimEnd rest with
      | EmptyString => if is_js_whitespace c then EmptyString else String c EmptyString
      | kept => String c kept
      end
  end.

Definition trim (s : string) : string := trimEnd (trimStart s).

Module ChatInput.

(** The props [onSend] and [onToggleLive] are callbacks: calling them is
    an effect. *)
Record Props : Type := {
  isLiveActive : bool;
  isLoading : bool
}.

Inductive Effect : Type :=
| OnSend (text : string)
| OnToggleLive
| ResetTextareaHeight.

(** The component state is the text of the textarea. *)
Definition handleSubmit (props : Props) (input : string) : string * list Effect :=
  if truthy (trim input) && negb (isLoading props) && negb (isLiveActive props)
  then (EmptyString, [OnSend (trim input); ResetTextareaHeight])
  else (input, []).

Definition handleKeyDown (key : string) (shiftKey : bool)
           (props : Props) (input : string) : string * list Effect :=
  if String.eqb key "Enter" && negb shiftKey
  then handleSubmit props input
  else (input, []).

(** The attributes of the rendered elements. *)
Definition textarea_disabled (props : Props) : bool :=
  isLoading props || isLiveActive props.

Definition sendButton_rendered (props : Props) : bool :=
  negb (isLiveActive props).

Definition sendButton_disabled (props : Props) (input : string) : bool :=
  negb (truthy (trim input)) || isLoading props.

End ChatInput.

(** ** The header of [App] and the page *)

Module App.

Record State : Type := {
  isLive : bool;
  isLoading : bool;
  showLangMenu : bool;
  selectedLanguage : string;
  (** the state of the [ChatInput] the page renders *)
  input : string
}.

Definition chatInputProps (st : State) : ChatInput.Props :=
  {| ChatInput.isLiveActive := isLive st; ChatInput.isLoading := isLoading st |}.

Definition langButton_disabled (st : State) : bool := isLive st.

(** [() => !isLive && setShowLangMenu(!showLangMenu)]. *)
Definition langButton_onClick (st : State) : State :=
  if negb (isLive st)
  then {| isLive := isLive st; isLoading := isLoading st;
          showLangMenu := negb (showLangMenu st);
          selectedLanguage := selectedLanguage st; input := input st |}
  else st.

Definition langItem_onClick (code : string) (st : State) : State :=
  {| isLive := isLive st; isLoading := isLoading st; showLangMenu := false;
     selectedLanguage := code; input := input st |}.

Definition set_input (v : string) (st : State) : State :=
  {| isLive := isLive st; isLoading := isLoading st;
     showLangMenu := showLangMenu st;
     selectedLanguage := selectedLanguage st; input := v |}.

(** What the user can do to the text input and to the language selector.
    A disabled element receives no event, and an element that is not
    rendered cannot be clicked. *)
Inductive UserAction : Type :=
| ClickLanguageButton
| ClickLanguageItem (code : string)
| TypeText (value : string)
| PressKey (key : string) (shiftKey : bool)
| ClickSend.

Definition act (a : UserAction) (st : State) : State * list ChatInput.Effect :=
  let props := chatInputProps st in
  match a with
  | ClickLanguageButton =>
      if langButton_disabled st then (st, []) else (langButton_onClick st, [])
  | ClickLanguageItem code =>
      if showLangMenu st then (langItem_onClick code st, []) else (st, [])
  | TypeText value =>
      if ChatInput.textarea_disabled props then (st, [])
      else (set_input value st, [])
  | PressKey key shiftKey =>
      if ChatInput.textarea_disabled props then (st, [])
      else
        let (input', effects) :=
          ChatInput.handleKeyDown key shiftKey props (input st) in
        (set_input input' st, effects)
  | ClickSend =>
      if ChatInput.sendButton_rendered props
         && negb (ChatInput.sendButton_disabled props (input st))
      then
        let (input', effects) := ChatInput.handleSubmit props (input st) in
        (set_input input' st, effects)
      else (st, [])
  end.

Fixpoint acts (l : list UserAction) (st : State) : State * list ChatInput.Effect :=
  match l with
  | [] => (st, [])
  | a :: rest =>
      let (st1, e1) := act a st in
      let (st2, e2) := acts rest st1 in
      (st2, e1 ++ e2)
  end.

Definition is_send (e : ChatInput.Effect) : bool :=
  match e with ChatInput.OnSend _ => true | _ => false end.

End App.

(** ** Vocabulary of the statements *)

(** *** Actions and states *)

(** An action that always returns normally. *)
Definition total (m : M unit) : Prop :=
  forall s, result_of (m s) = Ok tt.

(** The states a client can be in: those the constructor, the methods and
    the callbacks produce. *)
Inductive reachable : LiveClient -> Prop :=
| reach_new (lang : string) : reachable (newLiveClient lang)
| reach_connect (env : Browser) (s : LiveClient) :
    reachable s -> reachable (state_of (connect env s))
| reach_disconnect (s : LiveClient) :
    reachable s -> reachable (state_of (disconnect s))
| reach_deliver (i : Input) (s : LiveClient) :
    reachable s -> reachable (state_of (deliver i s))
| reach_onerror (s : LiveClient) :
    reachable s -> reachable (state_of (session_onerror s)).

(** What holds of a connected client: [connect] sets the flag last, and
    [disconnect] clears it first. *)
Definition ready (s : LiveClient) : Prop :=
  session s <> None /\ outputAudioContext s <> None /\ outputNode s <> None.

(** The connection of a client: what [handleMessage] never touches. *)
Definition same_connection (s s' : LiveClient) : Prop :=
  isConnected s' = isConnected s /\
  session s' = session s /\
  outputAudioContext s' = outputAudioContext s /\
  outputNode s' = outputNode s.


(** *** Disconnection *)

(** What [disconnect] releases, and the state it leaves. *)
Definition close_events (ctx : option AudioContext) : list Event :=
  match ctx with
  | Some c => match ctx_state c with closed => [] | _ => [ContextClose c] end
  | None => []
  end.

Definition release_events (s : LiveClient) : list Event :=
  match session s with Some sess => [SessionClose sess] | None => [] end
  ++ match mediaStream s with Some stream => [TracksStop stream] | None => [] end
  ++ match source s with Some node => [SourceDisconnect node] | None => [] end
  ++ match scriptProcessor s with Some p => [ProcessorDisconnect p] | None => [] end
  ++ close_events (inputAudioContext s)
  ++ close_events (outputAudioContext s).

Definition released (s : LiveClient) : LiveClient :=
  {| inputAudioContext := None; outputAudioContext := None;
     inputNode := inputNode s; outputNode := outputNode s;
     mediaStream := None; scriptProcessor := None; source := None;
     nextStartTime := nextStartTime s; sources := sources s;
     currentInputTranscription := currentInputTranscription s;
     currentOutputTranscription := currentOutputTranscription s;
     session := None; isConnected := false; language := language s;
     nodesCreated := nodesCreated s |}.

(** *** The playback timeline *)

(** The state after a chunk has been scheduled at clock reading [now]. *)
Definition scheduled_state (now : Q) (audioBuffer : AudioBuffer) (s : LiveClient)
  : LiveClient :=
  let start := Qmax (nextStartTime s) now in
  let src := {| node_id := nodesCreated s; node_buffer := audioBuffer |} in
  set_sources (Set_add src (sources s))
    (set_nextStartTime (start + duration audioBuffer)
       (set_nodesCreated (S (nodesCreated s))
          (set_nextStartTime start s))).

(** The chunks a trace schedules, and the time at which the last of them
    ends; [init] when there is none. *)
Definition is_start (e : Event) : bool :=
  match e with SourceStart _ _ => true | _ => false end.

Definition lastEnd (init : Q) (tr : list Event) : Q :=
  fold_left (fun acc e => match e with
                          | SourceStart src start => start + duration (node_buffer src)
                          | _ => acc
                          end) tr init.

(** A trace that starts no playback source. *)
Definition starts_nothing (tr : list Event) : Prop :=
  Forall (fun e => is_start e = false) tr.

(** Clock readings that start at [c] or later and never go back. *)
Fixpoint nondecreasing (c : Q) (l : list Q) : Prop :=
  match l with
  | [] => True
  | t :: r => c <= t /\ nondecreasing t r
  end.

Definition no_interrupted (nm : Q * LiveServerMessage) : Prop :=
  msg_interrupted (snd nm) = false.

(** *** Transcriptions *)

(** The arguments of the transcription callbacks, in call order. *)
Definition inputCalls (tr : list Event) : list string :=
  flat_map (fun e => match e with OnInputTranscription t => [t] | _ => [] end) tr.

Definition outputCalls (tr : list Event) : list string :=
  flat_map (fun e => match e with OnOutputTranscription t => [t] | _ => [] end) tr.

(** The transcription fragments carried by a list of messages, in arrival
    order. *)
Definition inputFragments (msgs : list (Q * LiveServerMessage)) : list string :=
  flat_map (fun nm => match msg_inputTranscription (snd nm) with
                      | Some t => [t]
                      | None => []
                      end) msgs.

Definition outputFragments (msgs : list (Q * LiveServerMessage)) : list string :=
  flat_map (fun nm => match msg_outputTranscription (snd nm) with
                      | Some t => [t]
                      | None => []
                      end) msgs.

(** The list whose n-th element is the concatenation of the first n
    fragments. *)
Definition prefix_concats (fragments : list string) : list string :=
  map (fun n => String.concat "" (firstn n fragments))
      (seq 1 (List.length fragments)).

(** An accumulator after an optional fragment. *)
Definition accumulate (acc : string) (fragment : option string) : string :=
  match fragment with
  | Some t => (acc ++ t)%string
  | None => acc
  end.

(** The successive values of an accumulator that starts at [acc] and
    receives the fragments one by one. *)
Fixpoint running_concat (acc : string) (fragments : list string) : list string :=
  match fragments with
  | [] => []
  | t :: rest => (acc ++ t)%string :: running_concat (acc ++ t)%string rest
  end.

Definition no_turnComplete (nm : Q * LiveServerMessage) : Prop :=
  msg_turnComplete (snd nm) = false.

(** *** Tool calls *)

(** The events of the tool-call round trip. *)
Definition is_tool_event (e : Event) : bool :=
  match e with
  | OnExplanation _ | SendToolResponse _ _ _ => true
  | _ => false
  end.

(** The events of one function call, given the session of the client. *)
Definition functionCall_events (fc : FunctionCall) (s : LiveClient) : list Event :=
  if String.eqb (fc_name fc) "provideBilingualDetails" then
    OnExplanation
      {| botTranslation := or_empty (arg_botTranslation (fc_args fc));
         userOriginal := or_empty (arg_userOriginal (fc_args fc));
         userEnglishTranslation :=
           or_empty (arg_userEnglishTranslation (fc_args fc)) |}
    :: match session s with
       | Some _ => [SendToolResponse (fc_id fc) (fc_name fc) "ok"]
       | None => []
       end
  else [].

(** A field of the arguments, the empty string standing for an absent one. *)
Definition field_or_empty (v : option string) : string :=
  match v with
  | Some t => t
  | None => ""
  end.

(** The round trip the specification describes for one function call. *)
Definition spec_round_trip (fc : FunctionCall) : list Event :=
  if String.eqb (fc_name fc) "provideBilingualDetails" then
    [OnExplanation
       {| botTranslation := field_or_empty (arg_botTranslation (fc_args fc));
          userOriginal := field_or_empty (arg_userOriginal (fc_args fc));
          userEnglishTranslation :=
            field_or_empty (arg_userEnglishTranslation (fc_args fc)) |};
     SendToolResponse (fc_id fc) (fc_name fc) "ok"]
  else [].

(** *** Concrete browsers, clients and messages *)

(** A browser in which everything succeeds, and the client it connects. *)
Definition cooperative_browser : Browser :=
  {| API_KEY := Some "key";
     getUserMedia := Ok 1%nat;
     newAudioContext := fun rate => Ok {| ctx_sampleRate := rate; ctx_state := running |};
     resume := fun _ => Ok tt;
     liveConnect := Ok 7%nat |}.

Definition connected_client : LiveClient :=
  state_of (connect cooperative_browser (newLiveClient "Hindi")).

(** Browsers in which [connect] fails: no API key; no network when the
    session is opened. *)
Definition keyless_browser : Browser :=
  {| API_KEY := None;
     getUserMedia := getUserMedia cooperative_browser;
     newAudioContext := newAudioContext cooperative_browser;
     resume := resume cooperative_browser;
     liveConnect := liveConnect cooperative_browser |}.

Definition offline_browser : Browser :=
  {| API_KEY := Some "key";
     getUserMedia := Ok 1%nat;
     newAudioContext := fun rate => Ok {| ctx_sampleRate := rate; ctx_state := suspended |};
     resume := fun _ => Ok tt;
     liveConnect := Throw "WebSocket connection failed" |}.

(** Messages with one field set. *)
Definition audio_message (base64Audio : string) : LiveServerMessage :=
  {| serverContent :=
       Some {| sc_audio := Some base64Audio; sc_inputTranscription := None;
               sc_outputTranscription := None; sc_turnComplete := false;
               sc_interrupted := false |};
     toolCall := None |}.

Definition input_message (text : string) : LiveServerMessage :=
  {| serverContent :=
       Some {| sc_audio := None; sc_inputTranscription := Some text;
               sc_outputTranscription := None; sc_turnComplete := false;
               sc_interrupted := false |};
     toolCall := None |}.

Definition output_message (text : string) : LiveServerMessage :=
  {| serverContent :=
       Some {| sc_audio := None; sc_inputTranscription := None;
               sc_outputTranscription := Some text; sc_turnComplete := false;
               sc_interrupted := false |};
     toolCall := None |}.

Definition turnComplete_message : LiveServerMessage :=
  {| serverContent :=
       Some {| sc_audio := None; sc_inputTranscription := None;
               sc_outputTranscription := None; sc_turnComplete := true;
               sc_interrupted := false |};
     toolCall := None |}.

Definition interrupted_message : LiveServerMessage :=
  {| serverContent :=
       Some {| sc_audio := None; sc_inputTranscription := None;
               sc_outputTranscription := None; sc_turnComplete := false;
               sc_interrupted := true |};
     toolCall := None |}.

Definition toolCall_message (calls : list FunctionCall) : LiveServerMessage :=
  {| serverContent := None; toolCall := Some calls |}.

(** *** Turns of the transcription *)

(** The messages after which an accumulator is empty: a turn completion
    empties both, an interruption the output one. *)
Definition resets_input (m : LiveServerMessage) : bool := msg_turnComplete m.

Definition resets_output (m : LiveServerMessage) : bool :=
  msg_turnComplete m || msg_interrupted m.

(** The accumulator was last emptied where [pre] ends: the last message of
    [pre] resets it, or no message has been handled yet and the accumulator
    of the client, [acc], is empty, as the constructor leaves it. *)
Definition starts_turn (resets : LiveServerMessage -> bool) (acc : string)
           (pre : list (Q * LiveServerMessage)) : Prop :=
  match rev pre with
  | [] => acc = EmptyString
  | nm :: _ => resets (snd nm) = true
  end.

(** No message of [turn] resets the accumulator, except possibly the last
    one, whose fragment is appended before the reset. *)
Definition unbroken (resets : LiveServerMessage -> bool)
           (turn : list (Q * LiveServerMessage)) : Prop :=
  Forall (fun nm => resets (snd nm) = false) (removelast turn).

(** *** More vocabulary: audio *)

(** A message without its audio payload. *)
Definition strip_audio (m : LiveServerMessage) : LiveServerMessage :=
  {| serverContent :=
       match serverContent m with
       | Some sc =>
           Some {| sc_audio := None;
                   sc_inputTranscription := sc_inputTranscription sc;
                   sc_outputTranscription := sc_outputTranscription sc;
                   sc_turnComplete := sc_turnComplete sc;
                   sc_interrupted := sc_interrupted sc |}
       | None => None
       end;
     toolCall := toolCall m |}.





(** The playback fields, which the connection methods never write. *)
Definition same_playback (s s' : LiveClient) : Prop :=
  nextStartTime s' = nextStartTime s /\
  sources s' = sources s /\
  currentInputTranscription s' = currentInputTranscription s /\
  currentOutputTranscription s' = currentOutputTranscription s /\
  nodesCreated s' = nodesCreated s /\
  language s' = language s.


Definition holds_nothing (s : LiveClient) : Prop :=
  session s = None /\
  inputAudioContext s = None /\ outputAudioContext s = None /\
  mediaStream s = None /\ source s = None /\ scriptProcessor s = None.




(** A character of a base64 text: one of the alphabet, or the padding. *)
Definition is_base64_char (c : ascii) : Prop :=
  Base64.sextet_of_char c <> None \/ c = Base64.pad.


(** The signed 16-bit range. *)
Definition int16_range (v : Z) : Prop := (-32768 <= v <= 32767)%Z.


(** *** More vocabulary: connection *)




(** Events by kind. *)
Definition is_release (e : Event) : bool :=
  match e with
  | SessionClose _ | TracksStop _ | SourceDisconnect _
  | ProcessorDisconnect _ | ContextClose _ => true
  | _ => false
  end.

Definition is_send (e : Event) : bool :=
  match e with
  | SendRealtimeInput _ | SendToolResponse _ _ _ => true
  | _ => false
  end.



(** *** More vocabulary: messages *)

(** The events of the playback side: the starts and stops of sources, and
    the console. *)
Definition is_playback_event (e : Event) : bool :=
  match e with
  | SourceStart _ _ | SourceStop _ | ConsoleError _ => true
  | _ => false
  end.

Definition off_playback (tr : list Event) : list Event :=
  filter (fun e => negb (is_playback_event e)) tr.

(** What a message is expected to make a client call and send, playback
    apart: the transcriptions, the function calls, the end of the turn. *)
Definition message_callbacks (m : LiveServerMessage) (s : LiveClient) : list Event :=
  match msg_inputTranscription m with
  | Some t => [OnInputTranscription (currentInputTranscription s ++ t)]
  | None => []
  end
  ++ match msg_outputTranscription m with
     | Some t => [OnOutputTranscription (currentOutputTranscription s ++ t)]
     | None => []
     end
  ++ match toolCall m with
     | Some functionCalls => flat_map (fun fc => functionCall_events fc s) functionCalls
     | None => []
     end
  ++ (if msg_turnComplete m then [OnTurnComplete] else []).

(** ** The text chat: the service and [App.handleSendMessage] *)

Module Service.

(** A chat session of the SDK.  [initializeChatSession] creates it with the
    fixed model and temperature and with the system instruction of a
    language: the language stands for the configuration. *)
Record Chat : Type := { chat_language : string }.

(** What [chatSession.sendMessageStream] gives: the [text] of each chunk
    ([None] for a chunk without text), and the error that ends the stream
    when there is one; an error of the call itself is a failure after no
    chunk. *)
Record Reply : Type := {
  chunks : list (option string);
  failure : option Error
}.

(** The environment of one call. *)
Record Env : Type := {
  API_KEY : option string;
  sdk_sendMessageStream : Chat -> string -> Reply
}.

Definition has_API_KEY (env : Env) : bool :=
  match API_KEY env with
  | Some k => truthy k
  | None => false
  end.

(** The module variable [chatSession] is threaded through. *)
Definition initializeChatSession (env : Env) (language : string)
           (chatSession : option Chat) : option Chat :=
  if negb (has_API_KEY env) then chatSession
  else Some {| chat_language := language |}.

(** The generator [sendMessageStream], run to its end: the session it
    leaves, what it yields and how it ends. *)
Definition sendMessageStream (env : Env) (message : string)
           (chatSession : option Chat) : option Chat * Reply :=
  let chatSession :=
    match chatSession with
    | None => initializeChatSession env "Hindi" chatSession
    | Some _ => chatSession
    end in
  match chatSession with
  | None =>
      (chatSession,
       {| chunks := []; failure := Some "Chat session not initialized" |})
  | Some chat => (chatSession, sdk_sendMessageStream env chat message)
  end.

End Service.

Module TextChat.

Inductive Role : Type := USER | MODEL.

(** A message of the page.  The [timestamp], which only the bubble shows,
    is left out; an absent [isError] is [false]. *)
Record ChatMessage : Type := {
  id : string;
  role : Role;
  text : string;
  isError : bool
}.

(** [Number.prototype.toString] on an integer: its decimal digits. *)
Definition toString (n : Z) : string :=
  DecimalString.NilEmpty.string_of_int (Z.to_int n).

(** The state [handleSendMessage] works on: the [messages] and [isLoading]
    of the component, and the session of the service. *)
Record State : Type := {
  messages : list ChatMessage;
  isLoading : bool;
  chatSession : option Service.Chat
}.

(** The updater [prev => prev.map(msg => msg.id === botMsgId ? {...msg,
    text: fullResponseText} : msg)]. *)
Definition set_text (botMsgId fullResponseText : string)
           (prev : list ChatMessage) : list ChatMessage :=
  map (fun msg =>
         if String.eqb (id msg) botMsgId
         then {| id := id msg; role := role msg; text := fullResponseText;
                 isError := isError msg |}
         else msg) prev.

(** The [for await] loop over the chunks. *)
Fixpoint stream_chunks (botMsgId : string) (chunks : list (option string))
         (fullResponseText : string) (messages : list ChatMessage)
  : string * list ChatMessage :=
  match chunks with
  | [] => (fullResponseText, messages)
  | Some chunk :: rest =>
      if truthy chunk then
        let fullResponseText := (fullResponseText ++ chunk)%string in
        stream_chunks botMsgId rest fullResponseText
          (set_text botMsgId fullResponseText messages)
      else stream_chunks botMsgId rest fullResponseText messages
  | None :: rest => stream_chunks botMsgId rest fullResponseText messages
  end.

Definition connection_trouble : string :=
  "I'm having trouble connecting right now. Please check your internet connection or API Key.".

(** [handleSendMessage]; [now1], [now2] and [now3] are the readings of
    [Date.now()] for the user message, for the message of the model and for
    the error message.  The state updaters are applied in the order of the
    calls; the result is the state once the handler has returned. *)
Definition handleSendMessage (env : Service.Env) (now1 now2 now3 : Z)
           (text : string) (st : State) : State :=
  let userMsg :=
    {| id := toString now1; role := USER; text := text; isError := false |} in
  let messages := messages st ++ [userMsg] in
  let botMsgId := toString (now2 + 1) in
  let initialBotMsg :=
    {| id := botMsgId; role := MODEL; text := ""; isError := false |} in
  let messages := messages ++ [initialBotMsg] in
  let (chatSession, stream) :=
    Service.sendMessageStream env text (chatSession st) in
  let (fullResponseText, messages) :=
    stream_chunks botMsgId (Service.chunks stream) "" messages in
  let messages :=
    match Service.failure stream with
    | Some error =>
        messages ++ [{| id := toString now3; role := MODEL;
                        text := connection_trouble; isError := true |}]
    | None => messages
    end in
  {| messages := messages; isLoading := false; chatSession := chatSession |}.

(** The text of a reply: the texts of its chunks, one after the other. *)
Definition reply_text (chunks : list (option string)) : string :=
  String.concat "" (map field_or_empty chunks).

(** The effect of [App] on [selectedLanguage]:
    [initializeChatSession(selectedLanguage)]. *)
Definition languageEffect (env : Service.Env) (selectedLanguage : string)
           (st : State) : State :=
  {| messages := messages st; isLoading := isLoading st;
     chatSession :=
       Service.initializeChatSession env selectedLanguage (chatSession st) |}.

(** Text messages sent one after the other, each with its three readings
    of the clock. *)
Fixpoint handleSendMessages (env : Service.Env)
         (sends : list (Z * Z * Z * string)) (st : State) : State :=
  match sends with
  | [] => st
  | (now1, now2, now3, text) :: rest =>
      handleSendMessages env rest (handleSendMessage env now1 now2 now3 text st)
  end.

(** The three bubbles of an exchange that fails before any chunk. *)
Definition failed_exchange (send : Z * Z * Z * string) : list ChatMessage :=
  let '(now1, now2, now3, text) := send in
  [{| id := toString now1; role := USER; text := text; isError := false |};
   {| id := toString (now2 + 1); role := MODEL; text := EmptyString;
      isError := false |};
   {| id := toString now3; role := MODEL; text := connection_trouble;
      isError := true |}].

End TextChat.

(** ** [App.toggleLiveMode] *)


Module LiveMode.

Record TurnData : Type := {
  englishBot : string;
  explanationBot : string;
  userOriginal : string;
  userEnglish : string
}.

(** The state [toggleLiveMode] works on: [isLive], [selectedLanguage] and
    [messages] of the component, and the refs [liveClientRef] and
    [currentTurnData].  The ref holds the client; the model keeps in it
    the state of the client when the last call into it returned. *)
Record State : Type := {
  isLive : bool;
  selectedLanguage : string;
  liveClientRef : option LiveClient;
  currentTurnData : TurnData;
  messages : list TextChat.ChatMessage
}.












End LiveMode.

(** ** [connect], cut at its awaits

    [connect] is an [async] method: it gives the control back at each
    [await] (lines 508, 514, 515 and 524), and other calls into the client
    can run before the awaited promise settles.  After an await the method
    reads the fields of the client again, which a [disconnect] may have set
    to null in between. *)

(** Where a pending [connect] waits; a context is the one whose [resume]
    has been called. *)
Inductive Await : Type :=
| AwaitGetUserMedia
| AwaitResumeInput (ctx : AudioContext)
| AwaitResumeOutput (ctx : AudioContext)
| AwaitLiveConnect.

(** Reading a property of [null]. *)
Definition TypeError : Error := "TypeError".

(** The [catch] of [connect]. *)
Definition connect_catch (error : Error) : M (option Await) :=
  emit (ConsoleError "Connection Exception:") ;;
  disconnect ;;
  emit (OnError error) ;;
  ret None.

(** Lines 517 to 524: the gain nodes, and the call of [ai.live.connect]. *)
Definition connect_from_517 : M (option Await) :=
  s <- get ;;
  match inputAudioContext s with
  | None => lift (Throw TypeError)
  | Some ictx =>
      modify (set_inputNode (Some (createGain ictx))) ;;
      s <- get ;;
      match outputAudioContext s with
      | None => lift (Throw TypeError)
      | Some octx =>
          modify (set_outputNode (Some (createGain octx))) ;;
          s <- get ;;
          emit (LiveConnect (language s)) ;;
          ret (Some AwaitLiveConnect)
      end
  end.

(** Line 515. *)
Definition connect_from_515 : M (option Await) :=
  s <- get ;;
  match outputAudioContext s with
  | None => lift (Throw TypeError)
  | Some octx =>
      match ctx_state octx with
      | suspended => emit (ContextResume octx) ;; ret (Some (AwaitResumeOutput octx))
      | _ => connect_from_517
      end
  end.

(** Line 514. *)
Definition connect_from_514 : M (option Await) :=
  s <- get ;;
  match inputAudioContext s with
  | None => lift (Throw TypeError)
  | Some ictx =>
      match ctx_state ictx with
      | suspended => emit (ContextResume ictx) ;; ret (Some (AwaitResumeInput ictx))
      | _ => connect_from_515
      end
  end.

(** A context that has been resumed is running; the field of the client
    shows it when it still holds the context. *)
Definition note_resumed_input (ctx : AudioContext) (s : LiveClient) : LiveClient :=
  match inputAudioContext s with
  | Some _ => set_inputAudioContext (Some (resumed ctx)) s
  | None => s
  end.

Definition note_resumed_output (ctx : AudioContext) (s : LiveClient) : LiveClient :=
  match outputAudioContext s with
  | Some _ => set_outputAudioContext (Some (resumed ctx)) s
  | None => s
  end.

(** What [connect] does when the promise it awaits settles, up to its next
    await ([Some]) or to its end ([None]). *)
Definition connect_segment (env : Browser) (a : Await) : M (option Await) :=
  match a with
  | AwaitGetUserMedia =>
      stream <- lift (getUserMedia env) ;;
      modify (set_mediaStream (Some stream)) ;;
      emit (NewAudioContext 16000) ;;
      ictx <- lift (newAudioContext env 16000) ;;
      modify (set_inputAudioContext (Some ictx)) ;;
      emit (NewAudioContext 24000) ;;
      octx <- lift (newAudioContext env 24000) ;;
      modify (set_outputAudioContext (Some octx)) ;;
      connect_from_514
  | AwaitResumeInput ctx =>
      lift (resume env ctx) ;;
      modify (note_resumed_input ctx) ;;
      connect_from_515
  | AwaitResumeOutput ctx =>
      lift (resume env ctx) ;;
      modify (note_resumed_output ctx) ;;
      connect_from_517
  | AwaitLiveConnect =>
      sess <- lift (liveConnect env) ;;
      modify (set_session (Some sess)) ;;
      modify (set_isConnected true) ;;
      emit OnConnected ;;
      emit (SetTimeout 500) ;;
      ret None
  end.

Definition connect_resume (env : Browser) (a : Await) : M (option Await) :=
  try_catch (connect_segment env a) connect_catch.

(** The call of [connect], up to its first await. *)
Definition connect_begin (env : Browser) : M (option Await) :=
  if negb (has_API_KEY env) then emit (OnError "API Key missing") ;; ret None
  else emit GetUserMedia ;; ret (Some AwaitGetUserMedia).

(** [connect] with nothing in between: each promise settles at once. *)
Fixpoint connect_settle (env : Browser) (n : nat) (p : option Await) : M unit :=
  match p, n with
  | Some a, S n => p' <- connect_resume env a ;; connect_settle env n p'
  | _, _ => ret tt
  end.

Definition connect_uninterrupted (env : Browser) : M unit :=
  p <- connect_begin env ;; connect_settle env 4 p.

(** *** Runs with a pending [connect] *)

(** A client, and the [connect] that is pending on it, if any, with the
    browser it runs in. *)
Record Async : Type := {
  client : LiveClient;
  pending : option (Browser * Await)
}.

(** What can happen to a client: calls of its methods, the promise of the
    pending [connect] settling, and what is delivered to it. *)
Inductive Step : Type :=
| CallConnect (env : Browser)
| Settle
| CallDisconnect
| Deliver (i : Input)
| SessionError.

Definition next_pending (env : Browser) (r : Result (option Await))
  : option (Browser * Await) :=
  match r with
  | Ok (Some a) => Some (env, a)
  | _ => None
  end.

(** One step.  [None]: the step cannot happen, or is not modelled (a second
    [connect] while one is pending; a promise settling when none is
    awaited). *)
Definition step (st : Step) (a : Async) : option (Async * list Event) :=
  match st, pending a with
  | CallConnect env, None =>
      let r := connect_begin env (client a) in
      Some ({| client := state_of r; pending := next_pending env (result_of r) |},
            trace_of r)
  | CallConnect _, Some _ => None
  | Settle, Some (env, w) =>
      let r := connect_resume env w (client a) in
      Some ({| client := state_of r; pending := next_pending env (result_of r) |},
            trace_of r)
  | Settle, None => None
  | CallDisconnect, p =>
      let r := disconnect (client a) in
      Some ({| client := state_of r; pending := p |}, trace_of r)
  | Deliver i, p =>
      let r := deliver i (client a) in
      Some ({| client := state_of r; pending := p |}, trace_of r)
  | SessionError, p =>
      let r := session_onerror (client a) in
      Some ({| client := state_of r; pending := p |}, trace_of r)
  end.

Fixpoint steps (l : list Step) (a : Async) : option (Async * list Event) :=
  match l with
  | [] => Some (a, [])
  | st :: rest =>
      match step st a with
      | Some (a1, t1) =>
          match steps rest a1 with
          | Some (a2, t2) => Some (a2, t1 ++ t2)
          | None => None
          end
      | None => None
      end
  end.

(** The states a client reaches, with at most one [connect] pending. *)
Inductive reaches : Async -> Prop :=
| reaches_new (lang : string) :
    reaches {| client := newLiveClient lang; pending := None |}
| reaches_step (st : Step) (a a' : Async) (tr : list Event) :
    reaches a -> step st a = Some (a', tr) -> reaches a'.

(** The invariant of a client under any interleaving. *)
Definition interleaved_invariant (a : Async) : Prop :=
  let s := client a in
  (isConnected s = true <-> session s <> None) /\
  (source s = None <-> scriptProcessor s = None) /\
  (pending a = None -> isConnected s = false -> holds_nothing s).

(** The awaits a pending [connect] has before it, the one it is at
    included. *)
Definition awaits_left (a : Await) : nat :=
  match a with
  | AwaitGetUserMedia => 4
  | AwaitResumeInput _ => 3
  | AwaitResumeOutput _ => 2
  | AwaitLiveConnect => 1
  end.

(** What a part of [connect] that does not reach its end leaves alone. *)
Definition same_link (s s' : LiveClient) : Prop :=
  isConnected s' = isConnected s /\
  session s' = session s /\
  source s' = source s /\
  scriptProcessor s' = scriptProcessor s.

(** A client with no [connect] pending. *)
Definition idle (s : LiveClient) : Async := {| client := s; pending := None |}.

(** A part of [connect] that throws, or reaches an await with at most [k]
    awaits left, and leaves the link alone. *)
Definition advances (k : nat) (s : LiveClient)
           (r : LiveClient * list Event * Result (option Await)) : Prop :=
  same_link s (state_of r) /\
  ((exists e, result_of r = Throw e) \/
   (exists w, result_of r = Ok (Some w) /\ awaits_left w <= k)%nat).

(** * Properties *)

(** ** Base64 *)

Section Base64Facts.
Import Base64.
Local Open Scope N_scope.

Lemma list_ind3 (A : Type) (P : list A -> Prop) :
  P [] -> (forall a, P [a]) -> (forall a b, P [a; b]) ->
  (forall a b c r, P r -> P (a :: b :: c :: r)) ->
  forall l, P l.
Proof.
  intros H0 H1 H2 H3.
  assert (H : forall l, P l /\ (forall a, P (a :: l)) /\ (forall a b, P (a :: b :: l))).
  { induction l as [|x l (IH0 & IH1 & IH2)]; repeat split; auto. }
  intro l. apply H.
Qed.

Lemma sextet_char_roundtrip (n : N) :
  n < 64 -> sextet_of_char (char_of_sextet n) = Some n.
Proof.
  intro Hn.
  assert (Hall : forallb
            (fun k => match sextet_of_char (char_of_sextet (N.of_nat k)) with
                      | Some m => m =? N.of_nat k
                      | None => false
                      end) (seq 0 64) = true) by (vm_compute; reflexivity).
  rewrite forallb_forall in Hall.
  specialize (Hall (N.to_nat n)).
  rewrite N2Nat.id in Hall.
  destruct (sextet_of_char (char_of_sextet n)) as [m|].
  - f_equal. apply N.eqb_eq. apply Hall. apply in_seq. lia.
  - discriminate Hall. apply in_seq. lia.
Qed.

Lemma char_of_sextet_plain (n : N) :
  n < 64 ->
  is_whitespace (char_of_sextet n) = false /\
  Ascii.eqb (char_of_sextet n) pad = false.
Proof.
  intro Hn.
  assert (Hall : forallb
            (fun k => negb (is_whitespace (char_of_sextet (N.of_nat k))) &&
                      negb (Ascii.eqb (char_of_sextet (N.of_nat k)) pad))
            (seq 0 64) = true) by (vm_compute; reflexivity).
  rewrite forallb_forall in Hall.
  specialize (Hall (N.to_nat n)).
  rewrite N2Nat.id in Hall.
  assert (Hin : In (N.to_nat n) (seq 0 64)) by (apply in_seq; lia).
  apply Hall in Hin. apply andb_true_iff in Hin. destruct Hin as [H1 H2].
  split; apply negb_true_iff; assumption.
Qed.

Lemma to_sextets_bounded (l : list N) :
  Forall (fun b => b < 256) l -> Forall (fun n => n < 64) (to_sextets l).
Proof.
  induction l as [|a|a b|a b c r IH] using list_ind3; intro H; simpl.
  - constructor.
  - inversion_clear H. repeat constructor; zify; Z.to_euclidean_division_equations; lia.
  - inversion_clear H as [|? ? Ha H']. inversion_clear H' as [|? ? Hb _].
    repeat constructor; zify; Z.to_euclidean_division_equations; lia.
  - inversion_clear H as [|? ? Ha H']. inversion_clear H' as [|? ? Hb H''].
    inversion_clear H'' as [|? ? Hc Hr].
    repeat (constructor; [zify; Z.to_euclidean_division_equations; lia|]).
    auto.
Qed.

Lemma of_to_sextets (l : list N) :
  Forall (fun b => b < 256) l -> of_sextets (to_sextets l) = l.
Proof.
  induction l as [|a|a b|a b c r IH] using list_ind3; intro H.
  - reflexivity.
  - inversion_clear H. cbn [to_sextets of_sextets]. f_equal.
    zify; Z.to_euclidean_division_equations; lia.
  - inversion_clear H as [|? ? Ha H']. inversion_clear H' as [|? ? Hb _].
    cbn [to_sextets of_sextets].
    f_equal; [|f_equal]; zify; Z.to_euclidean_division_equations; lia.
  - inversion_clear H as [|? ? Ha H']. inversion_clear H' as [|? ? Hb H''].
    inversion_clear H'' as [|? ? Hc Hr].
    cbn [to_sextets of_sextets]. rewrite (IH Hr).
    f_equal; [|f_equal; [|f_equal]]; zify; Z.to_euclidean_division_equations; lia.
Qed.

End Base64Facts.
Section CodecFacts.
Import Base64.
Local Open Scope nat_scope.

Lemma to_sextets_length (l : list N) :
  exists k : nat,
    (List.length l = 3 * k /\ List.length (to_sextets l) = 4 * k) \/
    (List.length l = 3 * k + 1 /\ List.length (to_sextets l) = 4 * k + 2) \/
    (List.length l = 3 * k + 2 /\ List.length (to_sextets l) = 4 * k + 3).
Proof.
  induction l as [|a|a b|a b c r [k IH]] using list_ind3.
  - exists 0%nat. left. split; reflexivity.
  - exists 0%nat. right. left. split; reflexivity.
  - exists 0%nat. right. right. split; reflexivity.
  - exists (S k). cbn [to_sextets List.length]. lia.
Qed.

Lemma sextets_of_chars_map (ns : list N) :
  Forall (fun n => (n < 64)%N) ns ->
  sextets_of_chars (map char_of_sextet ns) = Some ns.
Proof.
  induction 1 as [|n ns Hn _ IH]; simpl.
  - reflexivity.
  - rewrite (sextet_char_roundtrip n Hn), IH. reflexivity.
Qed.

Lemma filter_plain_chars (ns : list N) :
  Forall (fun n => (n < 64)%N) ns ->
  filter (fun c => negb (is_whitespace c)) (map char_of_sextet ns) =
  map char_of_sextet ns.
Proof.
  induction 1 as [|n ns Hn _ IH]; simpl.
  - reflexivity.
  - destruct (char_of_sextet_plain n Hn) as [Hw _]. rewrite Hw. simpl.
    rewrite IH. reflexivity.
Qed.

Lemma ends_with_pad_snoc (l : list ascii) (c : ascii) :
  ends_with_pad (l ++ [c]) = Ascii.eqb c pad.
Proof.
  unfold ends_with_pad. rewrite rev_app_distr. reflexivity.
Qed.

Lemma ends_with_pad_plain (ns : list N) :
  Forall (fun n => (n < 64)%N) ns ->
  ends_with_pad (map char_of_sextet ns) = false.
Proof.
  intro H. destruct ns as [|n ns] using rev_ind.
  - reflexivity.
  - rewrite map_app. simpl. rewrite ends_with_pad_snoc.
    apply Forall_app in H. destruct H as [_ H]. inversion_clear H as [|? ? Hn _].
    apply (char_of_sextet_plain n Hn).
Qed.

(** Removing the padding that [btoa] appends gives back the unpadded text. *)
Lemma remove_padding_btoa (ns : list N) (len : nat) :
  Forall (fun n => (n < 64)%N) ns ->
  (List.length ns + List.length (padding len)) mod 4 = 0%nat ->
  remove_padding (map char_of_sextet ns ++ padding len) = map char_of_sextet ns.
Proof.
  intros Hns Hlen. unfold remove_padding.
  rewrite length_app, length_map, Hlen. simpl Nat.eqb. cbv iota.
  unfold padding in *. destruct (len mod 3)%nat as [|[|[|m]]].
  - rewrite app_nil_r. rewrite (ends_with_pad_plain ns Hns). reflexivity.
  - change [pad; pad] with ([pad] ++ [pad]). rewrite app_assoc.
    rewrite ends_with_pad_snoc. change (Ascii.eqb pad pad) with true. cbv iota.
    rewrite removelast_last, ends_with_pad_snoc.
    change (Ascii.eqb pad pad) with true. cbv iota.
    apply removelast_last.
  - rewrite ends_with_pad_snoc. change (Ascii.eqb pad pad) with true. cbv iota.
    rewrite removelast_last. rewrite (ends_with_pad_plain ns Hns). reflexivity.
  - rewrite app_nil_r. rewrite (ends_with_pad_plain ns Hns). reflexivity.
Qed.

Lemma N_of_ascii_bounded_all (l : list ascii) :
  Forall (fun b => (b < 256)%N) (map N_of_ascii l).
Proof.
  induction l; simpl; constructor; auto using N_ascii_bounded.
Qed.

Lemma ascii_of_N_of_ascii_all (l : list ascii) :
  map ascii_of_N (map N_of_ascii l) = l.
Proof.
  induction l as [|c l IH]; simpl.
  - reflexivity.
  - rewrite ascii_N_embedding, IH. reflexivity.
Qed.

(** [atob] undoes [btoa] on every binary string. *)
Lemma atob_btoa (s : string) : atob (btoa s) = Some s.
Proof.
  unfold atob, btoa.
  set (bytes := map N_of_ascii (list_ascii_of_string s)).
  assert (Hb : Forall (fun b => (b < 256)%N) bytes)
    by apply N_of_ascii_bounded_all.
  pose proof (to_sextets_bounded bytes Hb) as Hs.
  rewrite list_ascii_of_string_of_list_ascii.
  assert (Hpadplain : filter (fun c => negb (is_whitespace c))
                        (padding (List.length bytes)) = padding (List.length bytes)).
  { unfold padding. destruct (List.length bytes mod 3)%nat as [|[|[|m]]]; reflexivity. }
  rewrite filter_app, (filter_plain_chars _ Hs), Hpadplain.
  destruct (to_sextets_length bytes) as [k Hk].
  assert (Hmod : ((List.length (to_sextets bytes) +
                   List.length (padding (List.length bytes))) mod 4 = 0)%nat /\
                 (List.length (to_sextets bytes) mod 4 <> 1)%nat).
  { assert (Hpad : forall n r, (r < 3)%nat ->
                     ((3 * n + r) mod 3 = r)%nat).
    { intros n r Hr. rewrite Nat.add_comm, Nat.mul_comm, Nat.Div0.mod_add.
      apply Nat.mod_small. exact Hr. }
    assert (Hquad : forall n r, (r < 4)%nat ->
                     ((4 * n + r) mod 4 = r)%nat).
    { intros n r Hr. rewrite Nat.add_comm, Nat.mul_comm, Nat.Div0.mod_add.
      apply Nat.mod_small. exact Hr. }
    unfold padding.
    destruct Hk as [[H1 H2]|[[H1 H2]|[H1 H2]]]; rewrite H1, H2.
    - rewrite <- (Nat.add_0_r (3 * k)), Hpad by lia. simpl List.length.
      rewrite !Nat.add_0_r. rewrite <- (Nat.add_0_r (4 * k)), Hquad by lia.
      split; [reflexivity | discriminate].
    - rewrite Hpad by lia. simpl List.length.
      replace (4 * k + 2 + 2)%nat with (4 * (k + 1) + 0)%nat by lia.
      rewrite !Hquad by lia. split; [reflexivity | discriminate].
    - rewrite Hpad by lia. simpl List.length.
      replace (4 * k + 3 + 1)%nat with (4 * (k + 1) + 0)%nat by lia.
      rewrite !Hquad by lia. split; [reflexivity | discriminate]. }
  destruct Hmod as [Hmod0 Hmod1].
  rewrite (remove_padding_btoa _ _ Hs Hmod0).
  rewrite length_map.
  destruct (Nat.eqb_spec (List.length (to_sextets bytes) mod 4) 1) as [E|_];
    [contradiction|].
  rewrite (sextets_of_chars_map _ Hs), (of_to_sextets _ Hb).
  unfold bytes. rewrite ascii_of_N_of_ascii_all, string_of_list_ascii_of_string.
  reflexivity.
Qed.

End CodecFacts.

Lemma string_app_nil_r (s : string) : (s ++ "")%string = s.
Proof.
  induction s as [|c s IH]; simpl; [reflexivity | f_equal; exact IH].
Qed.

Lemma string_app_assoc (a b c : string) :
  ((a ++ b) ++ c)%string = (a ++ (b ++ c))%string.
Proof.
  induction a as [|x a IH]; simpl; [reflexivity | f_equal; exact IH].
Qed.

(** The loop of [encode] builds the string whose characters are the bytes. *)
Lemma binary_of_bytes_spec (bytes : Uint8Array) :
  binary_of_bytes bytes = string_of_list_byte bytes.
Proof.
  unfold binary_of_bytes.
  assert (H : forall acc,
             fold_left (fun binary b =>
                          (binary ++ String (ascii_of_byte b) EmptyString)%string)
               bytes acc = (acc ++ string_of_list_byte bytes)%string).
  { induction bytes as [|b bytes IH]; intro acc; simpl.
    - symmetry. apply string_app_nil_r.
    - rewrite IH, string_app_assoc. reflexivity. }
  apply (H EmptyString).
Qed.

Lemma bytes_of_binary_spec (s : string) :
  bytes_of_binary s = list_byte_of_string s.
Proof.
  induction s as [|c s IH]; simpl; [reflexivity | now rewrite IH].
Qed.

Lemma decode_inverts_encode (bytes : Uint8Array) :
  decode (encode bytes) = Ok bytes.
Proof.
  unfold decode, encode.
  rewrite atob_btoa, binary_of_bytes_spec, bytes_of_binary_spec.
  rewrite list_byte_of_string_of_list_byte. reflexivity.
Qed.

(** C8. For every byte array [bytes], [decode (encode bytes)] returns
    [bytes]: the private [decode] of the client inverts its [encode], which
    gives the base64 text of the bytes; and encoding what [decode] returns
    gives that text back. *)
Theorem decode_encode (bytes : Uint8Array) :
  decode (encode bytes) = Ok bytes /\
  encode bytes = Base64.btoa (string_of_list_byte bytes) /\
  exists bytes', decode (encode bytes) = Ok bytes' /\ encode bytes' = encode bytes.
Proof.
  repeat split.
  - apply decode_inverts_encode.
  - unfold encode. rewrite binary_of_bytes_spec. reflexivity.
  - exists bytes. split; [apply decode_inverts_encode | reflexivity].
Qed.

(** The codec on a few texts. *)
Example btoa_Man : Base64.btoa "Man" = "TWFu".
Proof. reflexivity. Qed.

Example btoa_Ma : Base64.btoa "Ma" = "TWE=".
Proof. reflexivity. Qed.

Example btoa_M : Base64.btoa "M" = "TQ==".
Proof. reflexivity. Qed.

Example atob_unpadded : Base64.atob "TQ" = Some "M".
Proof. reflexivity. Qed.

Example atob_bad_length : Base64.atob "TWFuT" = None.
Proof. reflexivity. Qed.

Example atob_bad_padding : Base64.atob "TQ=" = None.
Proof. reflexivity. Qed.

Example encode_two_samples : encode [x00; x00; xff; x7f] = "AAD/fw==".
Proof. reflexivity. Qed.

Example decode_odd_length : decode "AA==" = Ok [x00].
Proof. reflexivity. Qed.

(** ** Typed arrays *)

Section TypedArrayFacts.
Local Open Scope Z_scope.

Lemma byte_val_range (b : byte) : 0 <= byte_val b < 256.
Proof.
  unfold byte_val. pose proof (Byte.to_N_bounded b). lia.
Qed.

Lemma byte_val_of_Z (z : Z) : byte_val (byte_of_Z z) = z mod 256.
Proof.
  unfold byte_val, byte_of_Z.
  assert (Hr : 0 <= z mod 256 < 256) by (apply Z.mod_pos_bound; lia).
  destruct (Byte.of_N (Z.to_N (z mod 256))) as [b|] eqn:E.
  - apply Byte.to_of_N in E. rewrite E. lia.
  - apply Byte.of_N_None_iff in E. lia.
Qed.

Lemma int16_of_bytes_range (lo hi : byte) :
  -32768 <= int16_of_bytes lo hi <= 32767.
Proof.
  unfold int16_of_bytes.
  pose proof (byte_val_range lo). pose proof (byte_val_range hi).
  destruct (Z.ltb_spec (byte_val lo + 256 * byte_val hi) 32768); lia.
Qed.

Lemma int16_of_bytes_of_int16 (v : Z) :
  -32768 <= v <= 32767 ->
  int16_of_bytes (byte_of_Z v) (byte_of_Z (v / 256)) = v.
Proof.
  intro Hv. unfold int16_of_bytes. rewrite !byte_val_of_Z.
  destruct (Z.ltb_spec (v mod 256 + 256 * ((v / 256) mod 256)) 32768);
    Z.to_euclidean_division_equations; lia.
Qed.

(** Reading back as [Int16Array] the bytes behind an [Int16Array]. *)
Lemma Int16Array_of_buffer_of_Int16Array (a : Int16Array) :
  Forall (fun v => -32768 <= v <= 32767) a ->
  Int16Array_of_buffer (buffer_of_Int16Array a) = Ok a.
Proof.
  induction 1 as [|v a Hv _ IH].
  - reflexivity.
  - cbn [buffer_of_Int16Array flat_map bytes_of_int16 app Int16Array_of_buffer].
    fold (buffer_of_Int16Array a). rewrite IH, (int16_of_bytes_of_int16 v Hv).
    reflexivity.
Qed.

Lemma buffer_of_Int16Array_length (a : Int16Array) :
  List.length (buffer_of_Int16Array a) = (2 * List.length a)%nat.
Proof.
  induction a as [|v a IH]; simpl; [reflexivity | rewrite IH; lia].
Qed.

(** An even number of bytes is read as that many 16-bit values, the one at
    index [i] held by the bytes at [2 i] and [2 i + 1]. *)
Lemma Int16Array_of_buffer_even (n : nat) :
  forall data : Uint8Array,
    List.length data = (2 * n)%nat ->
    exists a : Int16Array,
      Int16Array_of_buffer data = Ok a /\
      List.length a = n /\
      forall i, (i < n)%nat ->
        nth i a 0 = int16_of_bytes (nth (2 * i) data x00) (nth (2 * i + 1) data x00).
Proof.
  induction n as [|n IH]; intros data Hlen.
  - destruct data; [|discriminate]. exists []. repeat split. intros i Hi. lia.
  - destruct data as [|lo [|hi rest]]; try (simpl in Hlen; lia).
    destruct (IH rest) as (a & Ha & Hla & Hnth); [simpl in Hlen; lia|].
    exists (int16_of_bytes lo hi :: a).
    cbn [Int16Array_of_buffer]. rewrite Ha. repeat split.
    + simpl. now rewrite Hla.
    + intros [|i] Hi.
      * reflexivity.
      * replace (2 * S i)%nat with (S (S (2 * i))) by lia.
        replace (S (S (2 * i)) + 1)%nat with (S (S (2 * i + 1))) by lia.
        cbn [nth]. apply Hnth. lia.
Qed.

End TypedArrayFacts.

(** ** [createBlob] *)

Section CreateBlobFacts.
Local Open Scope Z_scope.

Lemma wrap_int16_small (z : Z) : -32768 <= z <= 32767 -> wrap_int16 z = z.
Proof.
  intro Hz. unfold wrap_int16.
  destruct (Z.ltb_spec (z mod 65536) 32768);
    Z.to_euclidean_division_equations; lia.
Qed.

Lemma Qtrunc_scale_neg (s : Q) :
  (-1 <= s)%Q -> (s <= 0)%Q -> -32768 <= Qtrunc (s * 32768) <= 0.
Proof.
  destruct s as [n d]. unfold Qle, Qtrunc. simpl. intros H1 H2.
  assert (Hd : 0 < Z.pos d) by lia.
  rewrite Pos2Z.inj_mul.
  Z.to_euclidean_division_equations. nia.
Qed.

Lemma Qtrunc_scale_pos (s : Q) :
  (0 <= s)%Q -> (s <= 1)%Q -> 0 <= Qtrunc (s * 32767) <= 32767.
Proof.
  destruct s as [n d]. unfold Qle, Qtrunc. simpl. intros H1 H2.
  assert (Hd : 0 < Z.pos d) by lia.
  rewrite Pos2Z.inj_mul.
  Z.to_euclidean_division_equations. nia.
Qed.

Lemma spec_clamp_range (q : Q) : (-1 <= spec_clamp q)%Q /\ (spec_clamp q <= 1)%Q.
Proof.
  unfold spec_clamp.
  destruct (Qlt_le_dec q (-1)); [split; discriminate|].
  destruct (Qlt_le_dec 1 q); [split; discriminate|].
  split; assumption.
Qed.

Lemma spec_pcm16_range (q : Q) : -32768 <= spec_pcm16 q <= 32767.
Proof.
  unfold spec_pcm16. destruct (spec_clamp_range q) as [H1 H2].
  destruct (Qlt_le_dec (spec_clamp q) 0) as [Hneg|Hpos].
  - pose proof (Qtrunc_scale_neg _ H1 (Qlt_le_weak _ _ Hneg)). lia.
  - pose proof (Qtrunc_scale_pos _ Hpos H2). lia.
Qed.

Lemma spec_pcm16_float_range (x : float) : -32768 <= spec_pcm16_float x <= 32767.
Proof.
  destruct x; simpl; try lia. apply spec_pcm16_range.
Qed.

Lemma Qtrunc_comp (p q : Q) : (p == q)%Q -> Qtrunc p = Qtrunc q.
Proof.
  destruct p as [a b], q as [c d]. unfold Qeq, Qtrunc. simpl. intro H.
  rewrite <- (Z.quot_mul_cancel_r a (Z.pos b) (Z.pos d)) by lia.
  rewrite H, (Z.mul_comm (Z.pos b) (Z.pos d)).
  apply Z.quot_mul_cancel_r; lia.
Qed.

(** The clamp of the code, by [Math.min] and [Math.max], is the clamp of the
    specification, up to the fraction that represents the bound 1. *)
Lemma clamp_finite (q : Q) :
  exists c : Q,
    Math_max (Finite (-1)) (Math_min (Finite 1) (Finite q)) = Finite c /\
    (c == spec_clamp q)%Q.
Proof.
  unfold spec_clamp. cbn [Math_min].
  destruct (Qle_bool 1 q) eqn:E1.
  - apply Qle_bool_iff in E1. exists 1%Q. split; [reflexivity|].
    destruct (Qlt_le_dec q (-1)) as [H|H].
    + exfalso. apply (Qlt_irrefl q).
      apply Qlt_le_trans with (-1)%Q; [exact H|].
      apply Qle_trans with 1%Q; [discriminate | exact E1].
    + destruct (Qlt_le_dec 1 q) as [H'|H']; [reflexivity|].
      apply Qle_antisym; assumption.
  - assert (Hlt : (q < 1)%Q).
    { apply Qnot_le_lt. intro H. apply Qle_bool_iff in H. congruence. }
    cbn [Math_max].
    destruct (Qle_bool (-1) q) eqn:E2.
    + apply Qle_bool_iff in E2. exists q. split; [reflexivity|].
      destruct (Qlt_le_dec q (-1)) as [H|H].
      * exfalso. apply (Qlt_irrefl q). apply Qlt_le_trans with (-1)%Q; assumption.
      * destruct (Qlt_le_dec 1 q) as [H'|H']; [|reflexivity].
        exfalso. apply (Qlt_irrefl q). apply Qlt_trans with 1%Q; assumption.
    + assert (Hlt' : (q < -1)%Q).
      { apply Qnot_le_lt. intro H. apply Qle_bool_iff in H. congruence. }
      exists (-1)%Q. split; [reflexivity|].
      destruct (Qlt_le_dec q (-1)) as [H|H]; [reflexivity|].
      exfalso. apply (Qlt_irrefl q). apply Qlt_le_trans with (-1)%Q; assumption.
Qed.

(** On a finite sample the loop of [createBlob] stores the value the
    specification describes. *)
Lemma pcm16_of_finite (q : Q) : pcm16_of_sample (Finite q) = spec_pcm16 q.
Proof.
  unfold pcm16_of_sample, spec_pcm16.
  destruct (clamp_finite q) as (c & -> & Hc).
  destruct (spec_clamp_range q) as [H1 H2].
  cbn [float_lt].
  destruct (Qlt_le_dec (spec_clamp q) 0) as [Hneg|Hpos].
  - assert (E : Qle_bool 0 c = false).
    { destruct (Qle_bool 0 c) eqn:E; [|reflexivity].
      apply Qle_bool_iff in E. rewrite Hc in E.
      exfalso. apply (Qlt_irrefl 0). apply Qle_lt_trans with (spec_clamp q); assumption. }
    rewrite E. cbn [negb float_mul ToInt16].
    rewrite (Qtrunc_comp (c * 32768) (spec_clamp q * 32768))
      by (rewrite Hc; reflexivity).
    apply wrap_int16_small.
    pose proof (Qtrunc_scale_neg _ H1 (Qlt_le_weak _ _ Hneg)). lia.
  - assert (E : Qle_bool 0 c = true).
    { apply Qle_bool_iff. rewrite Hc. exact Hpos. }
    rewrite E. cbn [negb float_mul ToInt16].
    rewrite (Qtrunc_comp (c * 32767) (spec_clamp q * 32767))
      by (rewrite Hc; reflexivity).
    apply wrap_int16_small.
    pose proof (Qtrunc_scale_pos _ Hpos H2). lia.
Qed.

Lemma pcm16_of_sample_spec (x : float) : pcm16_of_sample x = spec_pcm16_float x.
Proof.
  destruct x; [apply pcm16_of_finite | reflexivity | reflexivity | reflexivity].
Qed.

Lemma map_pcm16_spec (data : list float) :
  map pcm16_of_sample data = map spec_pcm16_float data.
Proof.
  apply map_ext. exact pcm16_of_sample_spec.
Qed.

End CreateBlobFacts.

(** C5. For every Float32 input buffer [data], [createBlob] returns a blob of
    MIME type ['audio/pcm;rate=16000'] whose payload is the base64 text of
    the bytes behind the Int16 array of the converted samples: the bytes
    are two per sample, decoding the payload gives them back, and read
    little-endian they are the samples clamped to [-1, 1], scaled by 0x8000
    when negative and by 0x7FFF otherwise, and truncated toward zero (a NaN
    sample is stored as 0); every stored value lies in [-32768, 32767]. *)
Theorem createBlob_pcm16 (data : list float) :
  let samples := map spec_pcm16_float data in
  let bytes := buffer_of_Int16Array samples in
  blob_mimeType (createBlob data) = "audio/pcm;rate=16000" /\
  blob_data (createBlob data) = Base64.btoa (string_of_list_byte bytes) /\
  decode (blob_data (createBlob data)) = Ok bytes /\
  List.length bytes = (2 * List.length data)%nat /\
  Int16Array_of_buffer bytes = Ok samples /\
  Forall (fun v => (-32768 <= v <= 32767)%Z) samples.
Proof.
  intros samples bytes.
  assert (Hrange : Forall (fun v => (-32768 <= v <= 32767)%Z) samples).
  { apply Forall_forall. intros v Hv. apply in_map_iff in Hv.
    destruct Hv as (x & <- & _). apply spec_pcm16_float_range. }
  unfold createBlob. cbn [blob_mimeType blob_data].
  rewrite map_pcm16_spec. fold samples. fold bytes.
  repeat split.
  - unfold encode. rewrite binary_of_bytes_spec. reflexivity.
  - apply decode_inverts_encode.
  - unfold bytes. rewrite buffer_of_Int16Array_length. unfold samples.
    rewrite length_map. reflexivity.
  - apply Int16Array_of_buffer_of_Int16Array. exact Hrange.
  - exact Hrange.
Qed.

Example pcm16_samples :
  map pcm16_of_sample
      [Finite (1 # 2); Finite (-3 # 2); NaN; PosInf; NegInf; Finite (-1 # 3); Finite 1]
  = [16383; -32768; 0; 32767; -32768; -10922; 32767]%Z.
Proof. reflexivity. Qed.

Example createBlob_two_samples :
  createBlob [Finite (1 # 2); Finite (-1)] =
  {| blob_data := "/z8AgA=="; blob_mimeType := "audio/pcm;rate=16000" |}.
Proof. reflexivity. Qed.

(** ** [decodeAudioData] *)

Section DecodeAudioFacts.

Lemma sample_of_int16_range (v : Z) :
  (-32768 <= v <= 32767)%Z ->
  -1 <= sample_of_int16 v /\ sample_of_int16 v < 1.
Proof.
  intro Hv. unfold sample_of_int16, Qle, Qlt. simpl. lia.
Qed.

Lemma sample_of_int16_quotient (v : Z) :
  sample_of_int16 v == inject_Z v / 32768.
Proof.
  unfold sample_of_int16, Qeq, Qdiv, Qmult, Qinv, inject_Z. simpl. lia.
Qed.

Lemma nth_map_seq (f : nat -> Q) (n i : nat) :
  (i < n)%nat -> nth i (map f (seq 0 n)) 0 = f i.
Proof.
  intro Hi.
  rewrite (nth_indep _ 0 (f 0%nat)) by (rewrite length_map, length_seq; exact Hi).
  rewrite map_nth, seq_nth by exact Hi. reflexivity.
Qed.

(** With one channel, frames and 16-bit values correspond one to one. *)
Lemma decodeAudioData_mono (data : Uint8Array) (a : Int16Array) (sampleRate : Z) :
  Int16Array_of_buffer data = Ok a ->
  (1 <= List.length a)%nat ->
  decodeAudioData data sampleRate 1 =
  Ok {| numberOfChannels := 1;
        buffer_length := List.length a;
        buffer_sampleRate := sampleRate;
        channelData := [map (fun i => sample_of_int16 (nth i a 0%Z))
                            (seq 0 (List.length a))] |}.
Proof.
  intros Ha Hlen. unfold decodeAudioData. rewrite Ha, Nat.div_1_r.
  unfold createBuffer.
  replace (List.length a =? 0)%nat with false
    by (symmetry; apply Nat.eqb_neq; lia).
  change (maxChannels <? 1)%nat with false.
  cbn [Nat.eqb orb numberOfChannels buffer_length buffer_sampleRate].
  unfold fill_channels. change (seq 0 1) with [0%nat].
  set (len := List.length a). cbn [map]. do 3 f_equal.
  apply map_ext. intro i. rewrite Nat.mul_1_r, Nat.add_0_r. reflexivity.
Qed.

End DecodeAudioFacts.

(** C6, as stated, fails on the empty byte array (even length, n = 0):
    [createBuffer] refuses a buffer of zero frames, so no [AudioBuffer] is
    produced. *)
Lemma decodeAudioData_empty_throws :
  List.length (@nil byte) = (2 * 0)%nat /\
  decodeAudioData [] 24000 1 = Throw "NotSupportedError" /\
  forall buffer, decodeAudioData [] 24000 1 <> Ok buffer.
Proof.
  repeat split. intros buffer H. discriminate H.
Qed.

(** C6, amended. For every byte array of even, non-zero length [2 * n],
    [decodeAudioData] called with [numChannels = 1] produces an
    [AudioBuffer] of one channel with exactly [n] frames, whose sample at
    [i] is the little-endian signed 16-bit value held by the bytes at [2 i]
    and [2 i + 1] divided by 32768; hence every sample lies in [-1, 1). *)
Theorem decodeAudioData_frames (data : Uint8Array) (n : nat) (sampleRate : Z) :
  List.length data = (2 * n)%nat ->
  (1 <= n)%nat ->
  exists (buffer : AudioBuffer) (cd : list Q),
    decodeAudioData data sampleRate 1 = Ok buffer /\
    numberOfChannels buffer = 1%nat /\
    buffer_length buffer = n /\
    channelData buffer = [cd] /\
    List.length cd = n /\
    forall i, (i < n)%nat ->
      nth i cd 0 ==
        inject_Z (int16_of_bytes (nth (2 * i) data x00) (nth (2 * i + 1) data x00))
        / 32768 /\
      -1 <= nth i cd 0 /\ nth i cd 0 < 1.
Proof.
  intros Hlen Hn.
  destruct (Int16Array_of_buffer_even n data Hlen) as (a & Ha & Hla & Hnth).
  eexists. eexists. split.
  - apply decodeAudioData_mono; [exact Ha | lia].
  - cbn [numberOfChannels buffer_length channelData]. rewrite Hla.
    repeat split; try reflexivity.
    + rewrite length_map, length_seq. reflexivity.
    + rewrite nth_map_seq by assumption. rewrite (Hnth i) by assumption.
      apply sample_of_int16_quotient.
    + rewrite nth_map_seq by assumption. rewrite (Hnth i) by assumption.
      apply sample_of_int16_range, int16_of_bytes_range.
    + rewrite nth_map_seq by assumption. rewrite (Hnth i) by assumption.
      apply sample_of_int16_range, int16_of_bytes_range.
Qed.

Lemma decodeAudioData_frames_witness :
  exists (buffer : AudioBuffer) (cd : list Q),
    decodeAudioData [x00; x80; xff; x7f] 24000 1 = Ok buffer /\
    numberOfChannels buffer = 1%nat /\
    buffer_length buffer = 2%nat /\
    channelData buffer = [cd] /\
    List.length cd = 2%nat /\
    forall i, (i < 2)%nat ->
      nth i cd 0 ==
        inject_Z (int16_of_bytes (nth (2 * i) [x00; x80; xff; x7f] x00)
                                 (nth (2 * i + 1) [x00; x80; xff; x7f] x00))
        / 32768 /\
      -1 <= nth i cd 0 /\ nth i cd 0 < 1.
Proof.
  apply (decodeAudioData_frames [x00; x80; xff; x7f] 2 24000).
  - reflexivity.
  - lia.
Defined.

Example decodeAudioData_odd_length :
  decodeAudioData [x00] 24000 1 =
  Throw "RangeError: byte length of Int16Array should be a multiple of 2".
Proof. reflexivity. Qed.

Example decodeAudioData_two_channels :
  decodeAudioData [x00; x80; xff; x7f; x01; x00; xff; xff] 24000 2 =
  Ok {| numberOfChannels := 2; buffer_length := 2; buffer_sampleRate := 24000;
        channelData := [[-32768 # 32768; 1 # 32768]; [32767 # 32768; -1 # 32768]] |}.
Proof. reflexivity. Qed.

(** ** The blocks of [handleMessage] *)

Section MonadFacts.

Lemma seq_total (m k : M unit) (s : LiveClient) :
  total m ->
  (m ;; k) s =
  (state_of (k (state_of (m s))),
   trace_of (m s) ++ trace_of (k (state_of (m s))),
   result_of (k (state_of (m s)))).
Proof.
  intro Hm. specialize (Hm s). unfold bind.
  destruct (m s) as [[s1 t1] r1]. cbn in Hm. subst r1. cbn.
  destruct (k s1) as [[s2 t2] r2]. reflexivity.
Qed.

Lemma seq_total_total (m k : M unit) : total m -> total k -> total (m ;; k).
Proof.
  intros Hm Hk s. rewrite (seq_total m k s Hm). apply Hk.
Qed.

Lemma try_catch_total (m : M unit) (h : Error -> M unit) (s : LiveClient) :
  total m -> try_catch m h s = m s.
Proof.
  intro Hm. specialize (Hm s). unfold try_catch.
  destruct (m s) as [[s1 t1] [[]|e]]; [reflexivity | discriminate Hm].
Qed.

Lemma for_each_total {A} (l : list A) (body : A -> M unit) :
  (forall x, total (body x)) -> total (for_each l body).
Proof.
  intro Hb. induction l as [|x l IH]; intro s.
  - reflexivity.
  - cbn [for_each]. rewrite (seq_total _ _ s (Hb x)). apply IH.
Qed.

(** A loop whose body only emits events leaves the state alone. *)
Lemma for_each_emits {A} (l : list A) (body : A -> M unit)
      (events : A -> LiveClient -> list Event) (s : LiveClient) :
  (forall x s', body x s' = (s', events x s', Ok tt)) ->
  for_each l body s = (s, flat_map (fun x => events x s) l, Ok tt).
Proof.
  intro Hb. induction l as [|x l IH].
  - reflexivity.
  - cbn [for_each flat_map]. unfold bind. rewrite Hb, IH. reflexivity.
Qed.

End MonadFacts.

Section BlockFacts.

Variable now : Q.
Variable message : LiveServerMessage.

Lemma scheduleAudio_decoded (base64Audio : string) (bytes : Uint8Array)
      (audioBuffer : AudioBuffer) (s : LiveClient) :
  decode base64Audio = Ok bytes ->
  decodeAudioData bytes 24000 1 = Ok audioBuffer ->
  scheduleAudio now base64Audio s =
  (scheduled_state now audioBuffer s,
   [SourceStart {| node_id := nodesCreated s; node_buffer := audioBuffer |}
      (Qmax (nextStartTime s) now)],
   Ok tt).
Proof.
  intros Hd Ha. unfold scheduleAudio, try_catch, bind, modify, lift, get, emit.
  rewrite Hd, Ha. reflexivity.
Qed.

Lemma scheduleAudio_failed (base64Audio : string) (s : LiveClient) :
  (forall bytes audioBuffer,
      decode base64Audio = Ok bytes ->
      decodeAudioData bytes 24000 1 <> Ok audioBuffer) ->
  scheduleAudio now base64Audio s =
  (set_nextStartTime (Qmax (nextStartTime s) now) s,
   [ConsoleError "Audio Decode Error"], Ok tt).
Proof.
  intro Hf. unfold scheduleAudio, try_catch, bind, modify, lift, get, emit.
  destruct (decode base64Audio) as [bytes|e] eqn:Hd; [|reflexivity].
  destruct (decodeAudioData bytes 24000 1) as [audioBuffer|e] eqn:Ha;
    [|reflexivity].
  exfalso. exact (Hf bytes audioBuffer eq_refl Ha).
Qed.

Lemma scheduleAudio_total (base64Audio : string) :
  total (scheduleAudio now base64Audio).
Proof.
  intro s. unfold scheduleAudio, try_catch, bind, modify, lift, get, emit.
  destruct (decode base64Audio) as [bytes|e]; [|reflexivity].
  destruct (decodeAudioData bytes 24000 1) as [audioBuffer|e]; reflexivity.
Qed.

Lemma handleAudio_total : total (handleAudio now message).
Proof.
  intro s. unfold handleAudio, bind, get, when.
  destruct (msg_audio message) as [b|]; [|reflexivity].
  destruct (outputAudioContext s); [|reflexivity].
  destruct (outputNode s); [|reflexivity].
  destruct (truthy b); [|reflexivity].
  pose proof (scheduleAudio_total b s) as H.
  destruct (scheduleAudio now b s) as [[s1 t1] r1]. exact H.
Qed.

Lemma handleInputTranscription_total : total (handleInputTranscription message).
Proof.
  intro s. unfold handleInputTranscription.
  destruct (msg_inputTranscription message); reflexivity.
Qed.

Lemma handleOutputTranscription_total : total (handleOutputTranscription message).
Proof.
  intro s. unfold handleOutputTranscription.
  destruct (msg_outputTranscription message); reflexivity.
Qed.

Lemma handleFunctionCall_spec (fc : FunctionCall) (s : LiveClient) :
  handleFunctionCall fc s = (s, functionCall_events fc s, Ok tt).
Proof.
  unfold handleFunctionCall, functionCall_events.
  destruct (String.eqb (fc_name fc) "provideBilingualDetails"); [|reflexivity].
  unfold bind, emit, get, try_catch. destruct (session s); reflexivity.
Qed.

Lemma handleToolCall_spec (s : LiveClient) :
  handleToolCall message s =
  (s,
   match toolCall message with
   | Some functionCalls => flat_map (fun fc => functionCall_events fc s) functionCalls
   | None => []
   end,
   Ok tt).
Proof.
  unfold handleToolCall. destruct (toolCall message) as [calls|]; [|reflexivity].
  apply for_each_emits. intros fc s'. apply handleFunctionCall_spec.
Qed.

Lemma handleToolCall_total : total (handleToolCall message).
Proof.
  intro s. rewrite handleToolCall_spec. reflexivity.
Qed.

Lemma handleTurnComplete_total : total (handleTurnComplete message).
Proof.
  intro s. unfold handleTurnComplete, when.
  destruct (msg_turnComplete message); reflexivity.
Qed.

Lemma stop_sources_spec (l : list AudioBufferSourceNode) (s : LiveClient) :
  for_each l (fun src => try_catch (emit (SourceStop src)) (fun _ => ret tt)) s =
  (s, map SourceStop l, Ok tt).
Proof.
  rewrite (for_each_emits l _ (fun src _ => [SourceStop src]) s).
  - rewrite flat_map_concat_map. f_equal. f_equal.
    induction l as [|x l IH]; [reflexivity|]. simpl. f_equal. exact IH.
  - intros x s'. reflexivity.
Qed.

Lemma handleInterrupted_spec (s : LiveClient) :
  handleInterrupted message s =
  if msg_interrupted message then
    (set_currentOutputTranscription ""
       (set_nextStartTime 0 (set_sources [] s)),
     map SourceStop (sources s), Ok tt)
  else (s, [], Ok tt).
Proof.
  unfold handleInterrupted, when.
  destruct (msg_interrupted message); [|reflexivity].
  unfold bind at 1. unfold get at 1. unfold bind at 1.
  rewrite stop_sources_spec. unfold bind, modify. cbn.
  rewrite app_nil_r. reflexivity.
Qed.

Lemma handleInterrupted_total : total (handleInterrupted message).
Proof.
  intro s. rewrite handleInterrupted_spec.
  destruct (msg_interrupted message); reflexivity.
Qed.

(** A connected client runs the six blocks in order; none of them throws. *)
Lemma handleMessage_connected (s : LiveClient) :
  isConnected s = true ->
  let r1 := handleAudio now message s in
  let r2 := handleInputTranscription message (state_of r1) in
  let r3 := handleOutputTranscription message (state_of r2) in
  let r4 := handleToolCall message (state_of r3) in
  let r5 := handleTurnComplete message (state_of r4) in
  let r6 := handleInterrupted message (state_of r5) in
  handleMessage now message s =
  (state_of r6,
   trace_of r1 ++ trace_of r2 ++ trace_of r3 ++ trace_of r4 ++ trace_of r5
     ++ trace_of r6,
   Ok tt).
Proof.
  intros Hc r1 r2 r3 r4 r5 r6. unfold handleMessage.
  unfold bind at 1. unfold get at 1. rewrite Hc. cbn [negb].
  rewrite try_catch_total.
  2:{ repeat apply seq_total_total;
      auto using handleAudio_total, handleInputTranscription_total,
        handleOutputTranscription_total, handleToolCall_total,
        handleTurnComplete_total, handleInterrupted_total. }
  rewrite (seq_total _ _ _ handleAudio_total). fold r1.
  rewrite (seq_total _ _ _ handleInputTranscription_total). fold r2.
  rewrite (seq_total _ _ _ handleOutputTranscription_total). fold r3.
  rewrite (seq_total _ _ _ handleToolCall_total). fold r4.
  rewrite (seq_total _ _ _ handleTurnComplete_total). fold r5. fold r6.
  pose proof (handleInterrupted_total (state_of r5)) as H6. fold r6 in H6.
  rewrite H6. reflexivity.
Qed.

Lemma handleMessage_disconnected (s : LiveClient) :
  isConnected s = false -> handleMessage now message s = (s, [], Ok tt).
Proof.
  intro Hc. unfold handleMessage, bind, get. rewrite Hc. reflexivity.
Qed.

End BlockFacts.
(** ** What a message leaves alone *)

Section FrameFacts.

Lemma same_connection_refl (s : LiveClient) : same_connection s s.
Proof. repeat split. Qed.

Lemma same_connection_trans (a b c : LiveClient) :
  same_connection a b -> same_connection b c -> same_connection a c.
Proof.
  unfold same_connection. intros (H1 & H2 & H3 & H4) (K1 & K2 & K3 & K4).
  repeat split; congruence.
Qed.

(** The three outcomes of the audio block. *)
Lemma handleAudio_cases (now : Q) (message : LiveServerMessage) (s : LiveClient) :
  handleAudio now message s = (s, [], Ok tt) \/
  (exists base64Audio bytes audioBuffer,
      msg_audio message = Some base64Audio /\
      decode base64Audio = Ok bytes /\
      decodeAudioData bytes 24000 1 = Ok audioBuffer /\
      handleAudio now message s =
      (scheduled_state now audioBuffer s,
       [SourceStart {| node_id := nodesCreated s; node_buffer := audioBuffer |}
          (Qmax (nextStartTime s) now)],
       Ok tt)) \/
  (exists base64Audio,
      msg_audio message = Some base64Audio /\
      handleAudio now message s =
      (set_nextStartTime (Qmax (nextStartTime s) now) s,
       [ConsoleError "Audio Decode Error"], Ok tt)).
Proof.
  unfold handleAudio, bind, get, when.
  destruct (msg_audio message) as [b|]; [|left; reflexivity].
  destruct (outputAudioContext s); [|left; reflexivity].
  destruct (outputNode s); [|left; reflexivity].
  destruct (truthy b); [|left; reflexivity].
  cbn [app].
  destruct (decode b) as [bytes|e] eqn:Hd.
  - destruct (decodeAudioData bytes 24000 1) as [audioBuffer|e] eqn:Ha.
    + right. left. exists b, bytes, audioBuffer.
      rewrite (scheduleAudio_decoded now b bytes audioBuffer s Hd Ha).
      repeat split; try reflexivity; assumption.
    + right. right. exists b. split; [reflexivity|].
      rewrite scheduleAudio_failed; [reflexivity|].
      intros bytes' buf' Hd' Ha'. congruence.
  - right. right. exists b. split; [reflexivity|].
    rewrite scheduleAudio_failed; [reflexivity|].
    intros bytes' buf' Hd'. congruence.
Qed.

Lemma handleAudio_connection (now : Q) (message : LiveServerMessage) (s : LiveClient) :
  same_connection s (state_of (handleAudio now message s)).
Proof.
  destruct (handleAudio_cases now message s)
    as [H|[(b & bytes & buf & _ & _ & _ & H)|(b & _ & H)]];
    rewrite H; repeat split.
Qed.

Lemma handleInputTranscription_connection (message : LiveServerMessage) (s : LiveClient) :
  same_connection s (state_of (handleInputTranscription message s)).
Proof.
  unfold handleInputTranscription.
  destruct (msg_inputTranscription message); repeat split.
Qed.

Lemma handleOutputTranscription_connection (message : LiveServerMessage) (s : LiveClient) :
  same_connection s (state_of (handleOutputTranscription message s)).
Proof.
  unfold handleOutputTranscription.
  destruct (msg_outputTranscription message); repeat split.
Qed.

Lemma handleTurnComplete_connection (message : LiveServerMessage) (s : LiveClient) :
  same_connection s (state_of (handleTurnComplete message s)).
Proof.
  unfold handleTurnComplete, when.
  destruct (msg_turnComplete message); repeat split.
Qed.

Lemma handleInterrupted_connection (message : LiveServerMessage) (s : LiveClient) :
  same_connection s (state_of (handleInterrupted message s)).
Proof.
  rewrite handleInterrupted_spec.
  destruct (msg_interrupted message); repeat split.
Qed.

Lemma handleMessage_connection (now : Q) (message : LiveServerMessage) (s : LiveClient) :
  same_connection s (state_of (handleMessage now message s)).
Proof.
  destruct (isConnected s) eqn:Hc.
  - rewrite (handleMessage_connected now message s Hc). cbn [state_of fst].
    eapply same_connection_trans; [apply handleAudio_connection|].
    eapply same_connection_trans; [apply handleInputTranscription_connection|].
    eapply same_connection_trans; [apply handleOutputTranscription_connection|].
    rewrite (handleToolCall_spec message (state_of (handleOutputTranscription _ _))).
    cbn [state_of fst].
    eapply same_connection_trans; [apply handleTurnComplete_connection|].
    apply handleInterrupted_connection.
  - rewrite (handleMessage_disconnected now message s Hc). apply same_connection_refl.
Qed.

Lemma handleMessages_connection (msgs : list (Q * LiveServerMessage)) :
  forall s, same_connection s (state_of (handleMessages msgs s)).
Proof.
  unfold handleMessages. induction msgs as [|[now m] msgs IH]; intro s.
  - apply same_connection_refl.
  - cbn [for_each fst snd].
    rewrite seq_total.
    + cbn [state_of fst]. eapply same_connection_trans;
        [apply handleMessage_connection | apply IH].
    + intro s'. destruct (isConnected s') eqn:Hc.
      * rewrite (handleMessage_connected now m s' Hc). reflexivity.
      * rewrite (handleMessage_disconnected now m s' Hc). reflexivity.
Qed.

Lemma handleMessage_total (now : Q) (message : LiveServerMessage) :
  total (handleMessage now message).
Proof.
  intro s'. destruct (isConnected s') eqn:Hc.
  - rewrite (handleMessage_connected now message s' Hc). reflexivity.
  - rewrite (handleMessage_disconnected now message s' Hc). reflexivity.
Qed.

(** Handling a list of messages: the first, then the others. *)
Lemma handleMessages_cons (now : Q) (m : LiveServerMessage)
      (msgs : list (Q * LiveServerMessage)) (s : LiveClient) :
  handleMessages ((now, m) :: msgs) s =
  (state_of (handleMessages msgs (state_of (handleMessage now m s))),
   trace_of (handleMessage now m s)
     ++ trace_of (handleMessages msgs (state_of (handleMessage now m s))),
   Ok tt).
Proof.
  unfold handleMessages at 1. cbn [for_each fst snd].
  rewrite (seq_total _ _ _ (handleMessage_total now m)).
  fold (handleMessages msgs). f_equal.
  apply for_each_total. intros [now' m']. apply handleMessage_total.
Qed.

End FrameFacts.

(** One message that carries everything: the order of the effects. *)
Example handleMessage_order :
  trace_of
    (handleMessage (3 # 2)
       {| serverContent :=
            Some {| sc_audio := Some "AAD/fw=="; sc_inputTranscription := Some "hi";
                    sc_outputTranscription := Some "namaste";
                    sc_turnComplete := true; sc_interrupted := true |};
          toolCall :=
            Some [ {| fc_id := Some "c1"; fc_name := "provideBilingualDetails";
                      fc_args := {| arg_botTranslation := Some "hello";
                                    arg_userOriginal := Some "";
                                    arg_userEnglishTranslation := None |} |} ] |}
       connected_client)
  = let src :=
      {| node_id := 0;
         node_buffer := {| numberOfChannels := 1; buffer_length := 2;
                           buffer_sampleRate := 24000;
                           channelData := [[0 # 32768; 32767 # 32768]] |} |} in
    [SourceStart src (3 # 2);
     OnInputTranscription "hi"; OnOutputTranscription "namaste";
     OnExplanation {| botTranslation := "hello"; userOriginal := "";
                      userEnglishTranslation := "" |};
     SendToolResponse (Some "c1") "provideBilingualDetails" "ok";
     OnTurnComplete;
     SourceStop src].
Proof. reflexivity. Qed.

(** ** Connection life cycle *)

Section ConnectionFacts.

Ltac run_monad :=
  unfold bind, get, modify, emit, lift, ret, try_catch, when; cbn.

Lemma disconnect_spec (s : LiveClient) :
  disconnect s = (released s, release_events s ++ [OnDisconnected], Ok tt).
Proof.
  unfold disconnect, closeContext, released, release_events, close_events.
  destruct s as [iac oac inN outN ms sp src nst srcs cit cot sess conn lang nc].
  destruct sess, ms, src, sp;
    destruct iac as [[r1 []]|]; destruct oac as [[r2 []]|]; reflexivity.
Qed.


(** The body of [connect] either throws or leaves a connected client with
    its session, output context and output node set. *)
Lemma connect_body_cases (env : Browser) (s : LiveClient) :
  (exists e, result_of (connect_body env s) = Throw e) \/
  (result_of (connect_body env s) = Ok tt /\
   isConnected (state_of (connect_body env s)) = true /\
   ready (state_of (connect_body env s))).
Proof.
  unfold connect_body, ready. run_monad.
  destruct (getUserMedia env) as [stream|e]; [|left; eexists; reflexivity].
  destruct (newAudioContext env 16000) as [ictx|e]; [|left; eexists; reflexivity].
  destruct (newAudioContext env 24000) as [octx|e]; [|left; eexists; reflexivity].
  destruct (ctx_state ictx) eqn:Ei; run_monad;
    try (destruct (resume env ictx) as [[]|e]; [|left; eexists; reflexivity]);
    destruct (ctx_state octx) eqn:Eo; run_monad;
    try (destruct (resume env _) as [[]|e]; [|left; eexists; reflexivity]);
    (destruct (liveConnect env) as [sess|e]; [|left; eexists; reflexivity]);
    right; repeat split; discriminate.
Qed.

Lemma connect_keeps_ready (env : Browser) (s : LiveClient) :
  (isConnected s = true -> ready s) ->
  isConnected (state_of (connect env s)) = true ->
  ready (state_of (connect env s)).
Proof.
  intro Hs. unfold connect.
  destruct (has_API_KEY env); cbn [negb]; [|exact Hs].
  unfold try_catch.
  destruct (connect_body_cases env s) as [[e He]|(Hok & Hc & Hr)].
  - destruct (connect_body env s) as [[s1 t1] r1]. cbn in He. subst r1.
    unfold bind at 1. unfold emit at 1. unfold bind at 1.
    rewrite disconnect_spec. cbn. discriminate.
  - destruct (connect_body env s) as [[s1 t1] r1]. cbn in Hok, Hc, Hr. subst r1.
    intros _. exact Hr.
Qed.

Lemma startAudioStreaming_connection (s : LiveClient) :
  same_connection s (state_of (startAudioStreaming s)) /\
  result_of (startAudioStreaming s) = Ok tt.
Proof.
  unfold startAudioStreaming, bind, get.
  destruct (inputAudioContext s), (mediaStream s), (session s); repeat split.
Qed.

Lemma deliver_connection (i : Input) (s : LiveClient) :
  isConnected (state_of (deliver i s)) = true ->
  same_connection s (state_of (deliver i s)).
Proof.
  destruct i as [now m|data| |src|]; cbn [deliver].
  - intros _. apply handleMessage_connection.
  - intros _. unfold onaudioprocess, bind, get.
    destruct (isConnected s), (session s); apply same_connection_refl.
  - intros _. unfold onStreamingTimer, bind, get, when.
    destruct (isConnected s); [|apply same_connection_refl].
    pose proof (startAudioStreaming_connection s) as [H _].
    destruct (startAudioStreaming s) as [[s1 t1] r1]. exact H.
  - intros _. repeat split.
  - unfold session_onclose. rewrite disconnect_spec. discriminate.
Qed.

(** A connected client has its session, its output context and its output
    node. *)
(** The [onerror] callback of the session logs the event and, on a
    connected client, disconnects and reports. *)
Lemma session_onerror_spec (s : LiveClient) :
  session_onerror s =
  if isConnected s
  then (released s,
        ConsoleError "Live API Error Event:"
          :: release_events s ++ [OnDisconnected; OnError "Network error occurred"],
        Ok tt)
  else (s, [ConsoleError "Live API Error Event:"], Ok tt).
Proof.
  unfold session_onerror. unfold bind at 1. unfold emit at 1.
  unfold bind at 1. unfold get at 1.
  destruct (isConnected s) eqn:Hc; [|reflexivity].
  unfold when. unfold bind. rewrite disconnect_spec. cbn.
  rewrite <- app_assoc. reflexivity.
Qed.

Lemma reachable_ready (s : LiveClient) :
  reachable s -> isConnected s = true -> ready s.
Proof.
  induction 1 as [lang|env s _ IH|s _ IH|i s _ IH|s _ IH].
  - discriminate.
  - apply connect_keeps_ready. exact IH.
  - rewrite disconnect_spec. discriminate.
  - intro Hc. destruct (deliver_connection i s Hc) as (H1 & H2 & H3 & H4).
    rewrite H1 in Hc. specialize (IH Hc). unfold ready in *.
    rewrite H2, H3, H4. exact IH.
  - rewrite session_onerror_spec.
    destruct (isConnected s) eqn:Hc.
    + discriminate.
    + cbn. congruence.
Qed.


End ConnectionFacts.

Example connect_offline_trace :
  trace_of (connect offline_browser (newLiveClient "Hindi")) =
  [GetUserMedia; NewAudioContext 16000; NewAudioContext 24000;
   ContextResume {| ctx_sampleRate := 16000; ctx_state := suspended |};
   ContextResume {| ctx_sampleRate := 24000; ctx_state := suspended |};
   LiveConnect "Hindi"; ConsoleError "Connection Exception:";
   TracksStop 1%nat;
   ContextClose {| ctx_sampleRate := 16000; ctx_state := running |};
   ContextClose {| ctx_sampleRate := 24000; ctx_state := running |};
   OnDisconnected; OnError "WebSocket connection failed"].
Proof. reflexivity. Qed.

Example connect_cooperative_trace :
  trace_of (connect cooperative_browser (newLiveClient "Hindi")) =
  [GetUserMedia; NewAudioContext 16000; NewAudioContext 24000;
   LiveConnect "Hindi"; OnConnected; SetTimeout 500].
Proof. reflexivity. Qed.



(** C9. Without an API key, [connect] calls [onError] with 'API Key missing'
    and does nothing else: no microphone request, no audio context, no
    session, no change of state.  With a key, when the body of [connect]
    raises an exception, [connect] runs [disconnect] (the session, the
    tracks, the nodes and the contexts held at that point are released,
    [onDisconnected] is called, the client is left disconnected with its
    resources null) and then calls [onError] with that exception. *)
Theorem connect_failure (env : Browser) (s : LiveClient) :
  (has_API_KEY env = false ->
   connect env s = (s, [OnError "API Key missing"], Ok tt)) /\
  (has_API_KEY env = true ->
   forall s1 t1 error,
     connect_body env s = (s1, t1, Throw error) ->
     connect env s =
       (state_of (disconnect s1),
        t1 ++ ConsoleError "Connection Exception:"
           :: trace_of (disconnect s1) ++ [OnError error],
        Ok tt) /\
     trace_of (disconnect s1) = release_events s1 ++ [OnDisconnected] /\
     isConnected (state_of (disconnect s1)) = false /\
     session (state_of (disconnect s1)) = None /\
     inputAudioContext (state_of (disconnect s1)) = None /\
     outputAudioContext (state_of (disconnect s1)) = None /\
     mediaStream (state_of (disconnect s1)) = None /\
     source (state_of (disconnect s1)) = None /\
     scriptProcessor (state_of (disconnect s1)) = None).
Proof.
  split.
  - intro Hk. unfold connect. rewrite Hk. reflexivity.
  - intros Hk s1 t1 error Hb. unfold connect. rewrite Hk. cbn [negb].
    unfold try_catch. rewrite Hb.
    unfold bind at 1. unfold emit at 1. unfold bind at 1.
    rewrite disconnect_spec. cbn [state_of trace_of fst snd].
    repeat split.
Qed.

Lemma connect_failure_witness :
  let s := newLiveClient "Hindi" in
  connect keyless_browser s = (s, [OnError "API Key missing"], Ok tt) /\
  connect offline_browser s =
    (state_of (disconnect (state_of (connect_body offline_browser s))),
     trace_of (connect_body offline_browser s)
       ++ ConsoleError "Connection Exception:"
       :: trace_of (disconnect (state_of (connect_body offline_browser s)))
       ++ [OnError "WebSocket connection failed"],
     Ok tt) /\
  isConnected (state_of (connect offline_browser s)) = false /\
  In (TracksStop 1%nat) (trace_of (connect offline_browser s)).
Proof.
  intro s.
  destruct (connect_failure keyless_browser s) as [Hkey _].
  destruct (connect_failure offline_browser s) as [_ Hthrow].
  specialize (Hkey eq_refl).
  specialize (Hthrow eq_refl
                (state_of (connect_body offline_browser s))
                (trace_of (connect_body offline_browser s))
                "WebSocket connection failed" eq_refl).
  destruct Hthrow as (Hc & Htr & Hconn & _).
  split; [exact Hkey|]. split; [exact Hc|]. split.
  - rewrite Hc. exact Hconn.
  - rewrite Hc. cbn [trace_of fst snd]. rewrite Htr. vm_compute. tauto.
Defined.

(** ** One message, field by field *)

Section MessageFacts.

Variable now : Q.
Variable message : LiveServerMessage.
Variable s : LiveClient.
Hypothesis Hconnected : isConnected s = true.

Lemma or_empty_field (v : option string) : or_empty v = field_or_empty v.
Proof.
  destruct v as [[|c t]|]; reflexivity.
Qed.

Lemma filter_tool_stops (l : list AudioBufferSourceNode) :
  filter is_tool_event (map SourceStop l) = [].
Proof.
  induction l as [|x l IH]; [reflexivity | exact IH].
Qed.

Lemma inputCalls_stops (l : list AudioBufferSourceNode) :
  inputCalls (map SourceStop l) = [].
Proof.
  induction l as [|x l IH]; [reflexivity | exact IH].
Qed.

Lemma outputCalls_stops (l : list AudioBufferSourceNode) :
  outputCalls (map SourceStop l) = [].
Proof.
  induction l as [|x l IH]; [reflexivity | exact IH].
Qed.

Lemma inputCalls_app (a b : list Event) :
  inputCalls (a ++ b) = inputCalls a ++ inputCalls b.
Proof. apply flat_map_app. Qed.

Lemma outputCalls_app (a b : list Event) :
  outputCalls (a ++ b) = outputCalls a ++ outputCalls b.
Proof. apply flat_map_app. Qed.

Lemma inputCalls_tool (calls : list FunctionCall) (s' : LiveClient) :
  inputCalls (flat_map (fun fc => functionCall_events fc s') calls) = [].
Proof.
  induction calls as [|fc calls IH]; [reflexivity|].
  cbn [flat_map]. rewrite inputCalls_app, IH, app_nil_r.
  unfold functionCall_events.
  destruct (String.eqb (fc_name fc) "provideBilingualDetails"); [|reflexivity].
  destruct (session s'); reflexivity.
Qed.

Lemma outputCalls_tool (calls : list FunctionCall) (s' : LiveClient) :
  outputCalls (flat_map (fun fc => functionCall_events fc s') calls) = [].
Proof.
  induction calls as [|fc calls IH]; [reflexivity|].
  cbn [flat_map]. rewrite outputCalls_app, IH, app_nil_r.
  unfold functionCall_events.
  destruct (String.eqb (fc_name fc) "provideBilingualDetails"); [|reflexivity].
  destruct (session s'); reflexivity.
Qed.

(** The audio block leaves the transcriptions alone and calls no
    transcription callback. *)
Lemma handleAudio_transcripts :
  let r := handleAudio now message s in
  currentInputTranscription (state_of r) = currentInputTranscription s /\
  currentOutputTranscription (state_of r) = currentOutputTranscription s /\
  inputCalls (trace_of r) = [] /\ outputCalls (trace_of r) = [] /\
  filter is_tool_event (trace_of r) = [].
Proof.
  destruct (handleAudio_cases now message s)
    as [H|[(b & bytes & buf & _ & _ & _ & H)|(b & _ & H)]];
    rewrite H; repeat split.
Qed.

(** The transcription side of one message. *)
Lemma handleMessage_transcripts :
  let r := handleMessage now message s in
  currentInputTranscription (state_of r) =
    (if msg_turnComplete message then ""
     else accumulate (currentInputTranscription s) (msg_inputTranscription message)) /\
  currentOutputTranscription (state_of r) =
    (if msg_turnComplete message || msg_interrupted message then ""
     else accumulate (currentOutputTranscription s) (msg_outputTranscription message)) /\
  inputCalls (trace_of r) =
    match msg_inputTranscription message with
    | Some t => [(currentInputTranscription s ++ t)%string]
    | None => []
    end /\
  outputCalls (trace_of r) =
    match msg_outputTranscription message with
    | Some t => [(currentOutputTranscription s ++ t)%string]
    | None => []
    end /\
  (msg_turnComplete message = true -> In OnTurnComplete (trace_of r)).
Proof.
  rewrite (handleMessage_connected now message s Hconnected). cbn zeta.
  destruct handleAudio_transcripts as (HA1 & HA2 & HA3 & HA4 & _).
  set (sA := state_of (handleAudio now message s)) in *.
  set (tA := trace_of (handleAudio now message s)) in *.
  cbn [state_of trace_of fst snd].
  rewrite !inputCalls_app, !outputCalls_app, HA3, HA4.
  rewrite !handleToolCall_spec, !handleInterrupted_spec.
  unfold handleTurnComplete, handleOutputTranscription, handleInputTranscription,
    when, accumulate.
  assert (Htool_in : forall s', inputCalls
            match toolCall message with
            | Some functionCalls =>
                flat_map (fun fc => functionCall_events fc s') functionCalls
            | None => []
            end = []).
  { intro s'. destruct (toolCall message); [apply inputCalls_tool | reflexivity]. }
  assert (Htool_out : forall s', outputCalls
            match toolCall message with
            | Some functionCalls =>
                flat_map (fun fc => functionCall_events fc s') functionCalls
            | None => []
            end = []).
  { intro s'. destruct (toolCall message); [apply outputCalls_tool | reflexivity]. }
  cbn [state_of trace_of fst snd]. rewrite Htool_in, Htool_out.
  destruct (msg_inputTranscription message) as [tin|],
           (msg_outputTranscription message) as [tout|],
           (msg_turnComplete message), (msg_interrupted message);
    cbn; rewrite ?inputCalls_stops, ?outputCalls_stops, ?HA1, ?HA2;
    repeat split; try discriminate;
    intros _;
    repeat first [apply in_eq | apply in_cons | (apply in_or_app; right)].
Qed.

End MessageFacts.
(** ** Transcriptions over a sequence of messages *)

Section TranscriptionFacts.

Lemma concat_cons (t : string) (l : list string) :
  String.concat "" (t :: l) = (t ++ String.concat "" l)%string.
Proof.
  destruct l as [|x l]; cbn [String.concat].
  - symmetry. apply string_app_nil_r.
  - reflexivity.
Qed.

Lemma running_prefixes (fragments : list string) :
  forall acc,
    running_concat acc fragments =
    map (fun n => (acc ++ String.concat "" (firstn n fragments))%string)
        (seq 1 (List.length fragments)).
Proof.
  induction fragments as [|t rest IH]; intro acc.
  - reflexivity.
  - cbn [running_concat List.length].
    change (seq 1 (S (List.length rest))) with (1%nat :: seq 2 (List.length rest)).
    cbn [map]. f_equal.
    rewrite IH, <- (seq_shift _ 1), map_map. apply map_ext. intro n.
    cbn [firstn]. rewrite concat_cons, string_app_assoc. reflexivity.
Qed.

Lemma running_empty (fragments : list string) :
  running_concat "" fragments = prefix_concats fragments.
Proof.
  rewrite running_prefixes. reflexivity.
Qed.

Lemma prefix_concats_nth (fragments : list string) (n : nat) :
  (1 <= n <= List.length fragments)%nat ->
  nth_error (prefix_concats fragments) (n - 1) =
  Some (String.concat "" (firstn n fragments)).
Proof.
  intro Hn. unfold prefix_concats.
  rewrite nth_error_map, nth_error_seq.
  destruct (Nat.ltb_spec (n - 1) (List.length fragments)) as [_|H]; [|lia].
  cbn [option_map]. replace (1 + (n - 1))%nat with n by lia. reflexivity.
Qed.

Lemma prefix_concats_length (fragments : list string) :
  List.length (prefix_concats fragments) = List.length fragments.
Proof.
  unfold prefix_concats. rewrite length_map, length_seq. reflexivity.
Qed.

(** Between two turn completions the input callback receives the running
    concatenation of the input fragments. *)
Lemma input_accumulates (seg : list (Q * LiveServerMessage)) :
  forall s,
    isConnected s = true ->
    Forall no_turnComplete seg ->
    inputCalls (trace_of (handleMessages seg s)) =
    running_concat (currentInputTranscription s) (inputFragments seg).
Proof.
  induction seg as [|[now m] seg IH]; intros s Hc Hseg.
  - reflexivity.
  - inversion_clear Hseg as [|? ? Hm Hrest]. unfold no_turnComplete in Hm.
    cbn [snd] in Hm.
    rewrite handleMessages_cons. cbn [trace_of fst snd].
    rewrite inputCalls_app.
    destruct (handleMessage_transcripts now m s Hc) as (Hin & _ & Hcalls & _ & _).
    rewrite Hm in Hin. rewrite Hcalls.
    destruct (handleMessage_connection now m s) as (Hc' & _).
    rewrite IH; [|congruence|exact Hrest]. rewrite Hin.
    cbn [inputFragments flat_map snd].
    destruct (msg_inputTranscription m) as [t|]; reflexivity.
Qed.

(** Between two resets (turn completion or interruption) the output
    callback receives the running concatenation of the output fragments. *)
Lemma output_accumulates (seg : list (Q * LiveServerMessage)) :
  forall s,
    isConnected s = true ->
    Forall no_turnComplete seg ->
    Forall no_interrupted seg ->
    outputCalls (trace_of (handleMessages seg s)) =
    running_concat (currentOutputTranscription s) (outputFragments seg).
Proof.
  induction seg as [|[now m] seg IH]; intros s Hc Hseg Hint.
  - reflexivity.
  - inversion_clear Hseg as [|? ? Hm Hrest]. unfold no_turnComplete in Hm.
    inversion_clear Hint as [|? ? Hi Hirest]. unfold no_interrupted in Hi.
    cbn [snd] in Hm, Hi.
    rewrite handleMessages_cons. cbn [trace_of fst snd].
    rewrite outputCalls_app.
    destruct (handleMessage_transcripts now m s Hc) as (_ & Hout & _ & Hcalls & _).
    rewrite Hm, Hi in Hout. cbn [orb] in Hout. rewrite Hcalls.
    destruct (handleMessage_connection now m s) as (Hc' & _).
    rewrite IH; [|congruence|exact Hrest|exact Hirest]. rewrite Hout.
    cbn [outputFragments flat_map snd].
    destruct (msg_outputTranscription m) as [t|]; reflexivity.
Qed.

(** The messages of two lists, handled one list after the other. *)
Lemma handleMessages_app (a b : list (Q * LiveServerMessage)) :
  forall s,
    handleMessages (a ++ b) s =
    (state_of (handleMessages b (state_of (handleMessages a s))),
     trace_of (handleMessages a s)
       ++ trace_of (handleMessages b (state_of (handleMessages a s))),
     Ok tt).
Proof.
  induction a as [|[now m] a IH]; intro s.
  - cbn [app]. change (handleMessages [] s) with (s, @nil Event, Ok tt).
    cbn [state_of trace_of fst snd app].
    assert (Ht : result_of (handleMessages b s) = Ok tt).
    { apply for_each_total. intros [now' m']. apply handleMessage_total. }
    destruct (handleMessages b s) as [[s1 t1] r1]. cbn in Ht. subst r1.
    reflexivity.
  - cbn [app]. rewrite !handleMessages_cons. cbn [state_of trace_of fst snd].
    rewrite IH. cbn [state_of trace_of fst snd]. rewrite app_assoc. reflexivity.
Qed.

(** One call per fragment, whatever the messages. *)
Lemma calls_per_fragment (msgs : list (Q * LiveServerMessage)) :
  forall s,
    isConnected s = true ->
    List.length (inputCalls (trace_of (handleMessages msgs s))) =
      List.length (inputFragments msgs) /\
    List.length (outputCalls (trace_of (handleMessages msgs s))) =
      List.length (outputFragments msgs).
Proof.
  induction msgs as [|[now m] msgs IH]; intros s Hc; [split; reflexivity|].
  rewrite handleMessages_cons. cbn [trace_of fst snd].
  rewrite inputCalls_app, outputCalls_app, !length_app.
  destruct (handleMessage_transcripts now m s Hc) as (_ & _ & Hi & Ho & _).
  destruct (handleMessage_connection now m s) as (Hc' & _).
  destruct (IH (state_of (handleMessage now m s))) as [IHi IHo]; [congruence|].
  rewrite Hi, Ho, IHi, IHo.
  cbn [inputFragments outputFragments flat_map snd]. rewrite !length_app.
  destruct (msg_inputTranscription m), (msg_outputTranscription m); split; reflexivity.
Qed.

(** Within a turn, the last message of which may end it, the input
    callback receives the running concatenation of the input fragments. *)
Lemma input_accumulates_turn (turn : list (Q * LiveServerMessage)) :
  forall s,
    isConnected s = true ->
    unbroken resets_input turn ->
    inputCalls (trace_of (handleMessages turn s)) =
    running_concat (currentInputTranscription s) (inputFragments turn).
Proof.
  induction turn as [|[now m] turn IH]; intros s Hc Hturn; [reflexivity|].
  rewrite handleMessages_cons. cbn [trace_of fst snd].
  rewrite inputCalls_app.
  destruct (handleMessage_transcripts now m s Hc) as (Hin & _ & Hcalls & _ & _).
  destruct (handleMessage_connection now m s) as (Hc' & _).
  rewrite Hcalls. cbn [inputFragments flat_map snd].
  destruct turn as [|nm turn].
  - change (handleMessages [] (state_of (handleMessage now m s)))
      with (state_of (handleMessage now m s), @nil Event, Ok tt).
    cbn [trace_of fst snd inputCalls flat_map]. rewrite !app_nil_r.
    destruct (msg_inputTranscription m); reflexivity.
  - unfold unbroken in Hturn. cbn [removelast] in Hturn.
    inversion_clear Hturn as [|? ? Hm Hrest]. cbn [snd] in Hm.
    unfold resets_input in Hm. rewrite Hm in Hin.
    rewrite IH; [|congruence|exact Hrest]. rewrite Hin.
    destruct (msg_inputTranscription m) as [t|]; reflexivity.
Qed.

Lemma output_accumulates_turn (turn : list (Q * LiveServerMessage)) :
  forall s,
    isConnected s = true ->
    unbroken resets_output turn ->
    outputCalls (trace_of (handleMessages turn s)) =
    running_concat (currentOutputTranscription s) (outputFragments turn).
Proof.
  induction turn as [|[now m] turn IH]; intros s Hc Hturn; [reflexivity|].
  rewrite handleMessages_cons. cbn [trace_of fst snd].
  rewrite outputCalls_app.
  destruct (handleMessage_transcripts now m s Hc) as (_ & Hout & _ & Hcalls & _).
  destruct (handleMessage_connection now m s) as (Hc' & _).
  rewrite Hcalls. cbn [outputFragments flat_map snd].
  destruct turn as [|nm turn].
  - change (handleMessages [] (state_of (handleMessage now m s)))
      with (state_of (handleMessage now m s), @nil Event, Ok tt).
    cbn [trace_of fst snd outputCalls flat_map]. rewrite !app_nil_r.
    destruct (msg_outputTranscription m); reflexivity.
  - unfold unbroken in Hturn. cbn [removelast] in Hturn.
    inversion_clear Hturn as [|? ? Hm Hrest]. cbn [snd] in Hm.
    unfold resets_output in Hm. rewrite Hm in Hout.
    rewrite IH; [|congruence|exact Hrest]. rewrite Hout.
    destruct (msg_outputTranscription m) as [t|]; reflexivity.
Qed.

(** Where a turn starts, the accumulators are empty. *)
Lemma starts_turn_input (pre : list (Q * LiveServerMessage)) (s : LiveClient) :
  isConnected s = true ->
  starts_turn resets_input (currentInputTranscription s) pre ->
  currentInputTranscription (state_of (handleMessages pre s)) = "".
Proof.
  intros Hc. unfold starts_turn.
  destruct (rev pre) as [|[now m] front] eqn:Hrev.
  - apply (f_equal (@rev _)) in Hrev. rewrite rev_involutive in Hrev.
    subst pre. intro H. exact H.
  - apply (f_equal (@rev _)) in Hrev. rewrite rev_involutive in Hrev.
    cbn [rev] in Hrev. subst pre. cbn [snd]. intro Hm.
    rewrite handleMessages_app. cbn [state_of fst].
    rewrite handleMessages_cons. cbn [state_of fst].
    destruct (handleMessages_connection (rev front) s) as (Hc0 & _).
    destruct (handleMessage_transcripts now m
                (state_of (handleMessages (rev front) s))) as (Hin & _);
      [congruence|].
    unfold resets_input in Hm. rewrite Hm in Hin. exact Hin.
Qed.

Lemma starts_turn_output (pre : list (Q * LiveServerMessage)) (s : LiveClient) :
  isConnected s = true ->
  starts_turn resets_output (currentOutputTranscription s) pre ->
  currentOutputTranscription (state_of (handleMessages pre s)) = "".
Proof.
  intros Hc. unfold starts_turn.
  destruct (rev pre) as [|[now m] front] eqn:Hrev.
  - apply (f_equal (@rev _)) in Hrev. rewrite rev_involutive in Hrev.
    subst pre. intro H. exact H.
  - apply (f_equal (@rev _)) in Hrev. rewrite rev_involutive in Hrev.
    cbn [rev] in Hrev. subst pre. cbn [snd]. intro Hm.
    rewrite handleMessages_app. cbn [state_of fst].
    rewrite handleMessages_cons. cbn [state_of fst].
    destruct (handleMessages_connection (rev front) s) as (Hc0 & _).
    destruct (handleMessage_transcripts now m
                (state_of (handleMessages (rev front) s))) as (_ & Hout & _);
      [congruence|].
    unfold resets_output in Hm. rewrite Hm in Hout. exact Hout.
Qed.

End TranscriptionFacts.

(** C3, as stated, fails for the output transcription: an interruption
    between two fragments of the same turn empties the output accumulator,
    so the second call carries "b" and not the concatenation "ab" of the two
    fragments received since the last turn completion. *)
Lemma output_transcription_interrupted :
  let s := state_of (handleMessage 0 turnComplete_message connected_client) in
  let seg := [(1, output_message "a"); (2, interrupted_message);
              (3, output_message "b")] in
  Forall no_turnComplete seg /\
  outputFragments seg = ["a"; "b"] /\
  nth_error (outputCalls (trace_of (handleMessages seg s))) 1 = Some "b" /\
  String.concat "" (firstn 2 (outputFragments seg)) = "ab" /\
  "b" <> "ab".
Proof.
  repeat split; try discriminate.
  repeat constructor.
Qed.

(** C3, amended. For every sequence of server messages, [pre] followed
    by [turn], handled by a connected client, one transcription callback is
    made per fragment.  Let the input accumulator have been emptied last
    where [pre] ends ([pre] ends with a turn completion, or nothing has been
    handled yet and the accumulator is empty, as in a new client), and let
    no message of [turn] but possibly its last complete the turn: then the
    n-th input fragment of [turn], the fragment of a message that completes
    the turn included, makes [onInputTranscription] be called with the
    concatenation of the first n input fragments of [turn].  The same holds
    of the output fragments and [onOutputTranscription], a turn being ended
    by a turn completion or an interruption.  And when a message with
    [turnComplete] is handled, [onTurnComplete] is called and both
    accumulators become empty. *)
Theorem transcription_accumulation
        (s : LiveClient) (pre turn : list (Q * LiveServerMessage)) :
  isConnected s = true ->
  let s0 := state_of (handleMessages pre s) in
  let tr := trace_of (handleMessages turn s0) in
  let whole := trace_of (handleMessages (pre ++ turn) s) in
  whole = trace_of (handleMessages pre s) ++ tr /\
  List.length (inputCalls whole) = List.length (inputFragments (pre ++ turn)) /\
  List.length (outputCalls whole) = List.length (outputFragments (pre ++ turn)) /\
  (starts_turn resets_input (currentInputTranscription s) pre ->
   unbroken resets_input turn ->
   List.length (inputCalls tr) = List.length (inputFragments turn) /\
   forall n, (1 <= n <= List.length (inputFragments turn))%nat ->
     nth_error (inputCalls tr) (n - 1) =
     Some (String.concat "" (firstn n (inputFragments turn)))) /\
  (starts_turn resets_output (currentOutputTranscription s) pre ->
   unbroken resets_output turn ->
   List.length (outputCalls tr) = List.length (outputFragments turn) /\
   forall n, (1 <= n <= List.length (outputFragments turn))%nat ->
     nth_error (outputCalls tr) (n - 1) =
     Some (String.concat "" (firstn n (outputFragments turn)))) /\
  (forall now message,
      msg_turnComplete message = true ->
      let r := handleMessage now message s0 in
      In OnTurnComplete (trace_of r) /\
      currentInputTranscription (state_of r) = "" /\
      currentOutputTranscription (state_of r) = "").
Proof.
  intros Hc s0 tr whole.
  assert (Hc0 : isConnected s0 = true).
  { destruct (handleMessages_connection pre s) as (H & _). fold s0 in H. congruence. }
  split.
  { unfold whole, tr, s0. rewrite handleMessages_app. reflexivity. }
  destruct (calls_per_fragment (pre ++ turn) s Hc) as [Hni Hno].
  split; [exact Hni|]. split; [exact Hno|].
  split; [|split].
  - intros Hstart Hturn.
    assert (Hcalls : inputCalls tr = prefix_concats (inputFragments turn)).
    { unfold tr. rewrite (input_accumulates_turn turn s0 Hc0 Hturn).
      unfold s0. rewrite (starts_turn_input pre s Hc Hstart).
      apply running_empty. }
    rewrite Hcalls. split.
    + apply prefix_concats_length.
    + intros n Hn. apply prefix_concats_nth. exact Hn.
  - intros Hstart Hturn.
    assert (Hcalls : outputCalls tr = prefix_concats (outputFragments turn)).
    { unfold tr. rewrite (output_accumulates_turn turn s0 Hc0 Hturn).
      unfold s0. rewrite (starts_turn_output pre s Hc Hstart).
      apply running_empty. }
    rewrite Hcalls. split.
    + apply prefix_concats_length.
    + intros n Hn. apply prefix_concats_nth. exact Hn.
  - intros now message Hm r.
    destruct (handleMessage_transcripts now message s0 Hc0)
      as (Hin & Hout & _ & _ & Htc).
    fold r in Hin, Hout, Htc. rewrite Hm in Hin, Hout. cbn [orb] in Hout.
    split; [apply Htc; exact Hm|]. split; assumption.
Qed.

Lemma transcription_accumulation_witness :
  let closing :=
    {| serverContent :=
         Some {| sc_audio := None; sc_inputTranscription := Some "maste";
                 sc_outputTranscription := Some "lo"; sc_turnComplete := true;
                 sc_interrupted := false |};
       toolCall := None |} in
  let first := [(0, input_message "na"); (1, output_message "hel");
                (2, closing)] in
  let second := [(3, output_message "a"); (4, input_message "b");
                 (5, interrupted_message)] in
  (* the first turn of a session, closed by a message that carries fragments *)
  (let tr := trace_of (handleMessages first connected_client) in
   inputCalls tr = ["na"; "namaste"] /\
   outputCalls tr = ["hel"; "hello"] /\
   forall n, (1 <= n <= 2)%nat ->
     nth_error (inputCalls tr) (n - 1) =
     Some (String.concat "" (firstn n ["na"; "maste"]))) /\
  (* the turn after it *)
  (let tr := trace_of (handleMessages second
                         (state_of (handleMessages first connected_client))) in
   forall n, (1 <= n <= 1)%nat ->
     nth_error (inputCalls tr) (n - 1) = Some (String.concat "" (firstn n ["b"])) /\
     nth_error (outputCalls tr) (n - 1) = Some (String.concat "" (firstn n ["a"]))).
Proof.
  intros closing first second. split.
  - intro tr. split; [reflexivity|]. split; [reflexivity|].
    destruct (transcription_accumulation connected_client [] first eq_refl)
      as (_ & _ & _ & Hin & _).
    destruct Hin as [_ Hnth]; [reflexivity | repeat constructor |].
    exact Hnth.
  - intro tr.
    destruct (transcription_accumulation connected_client first second eq_refl)
      as (_ & _ & _ & Hin & Hout & _).
    destruct Hin as [_ Hi]; [reflexivity | repeat constructor |].
    destruct Hout as [_ Ho]; [reflexivity | repeat constructor |].
    intros n Hn. split; [apply Hi; exact Hn | apply Ho; exact Hn].
Defined.
(** ** Tool calls *)

Section ToolCallFacts.

Lemma filter_tool_app (a b : list Event) :
  filter is_tool_event (a ++ b) = filter is_tool_event a ++ filter is_tool_event b.
Proof. apply filter_app. Qed.

Lemma functionCall_events_round_trip (fc : FunctionCall) (s : LiveClient) :
  session s <> None ->
  filter is_tool_event (functionCall_events fc s) = spec_round_trip fc.
Proof.
  intro Hs. unfold functionCall_events, spec_round_trip.
  destruct (String.eqb (fc_name fc) "provideBilingualDetails"); [|reflexivity].
  rewrite !or_empty_field.
  destruct (session s); [reflexivity | contradiction].
Qed.

Lemma toolCall_events_round_trip (calls : list FunctionCall) (s : LiveClient) :
  session s <> None ->
  filter is_tool_event (flat_map (fun fc => functionCall_events fc s) calls) =
  flat_map spec_round_trip calls.
Proof.
  intro Hs. induction calls as [|fc calls IH]; [reflexivity|].
  cbn [flat_map]. rewrite filter_tool_app, IH, functionCall_events_round_trip by exact Hs.
  reflexivity.
Qed.

(** The tool events of a message are those of its tool-call block. *)
Lemma handleMessage_tool_events (now : Q) (message : LiveServerMessage)
      (s : LiveClient) :
  isConnected s = true ->
  exists s',
    session s' = session s /\
    filter is_tool_event (trace_of (handleMessage now message s)) =
    filter is_tool_event (trace_of (handleToolCall message s')).
Proof.
  intro Hc. rewrite (handleMessage_connected now message s Hc). cbn zeta.
  cbn [trace_of fst snd].
  set (s1 := state_of (handleAudio now message s)).
  set (s2 := state_of (handleInputTranscription message s1)).
  set (s3 := state_of (handleOutputTranscription message s2)).
  exists s3. split.
  - destruct (handleAudio_connection now message s) as (_ & H1 & _).
    destruct (handleInputTranscription_connection message s1) as (_ & H2 & _).
    destruct (handleOutputTranscription_connection message s2) as (_ & H3 & _).
    fold s1 in H1. fold s2 in H2. fold s3 in H3. congruence.
  - rewrite !filter_tool_app.
    destruct (handleAudio_transcripts now message s) as (_ & _ & _ & _ & HA).
    rewrite HA.
    assert (H2 : filter is_tool_event
                   (trace_of (handleInputTranscription message s1)) = []).
    { unfold handleInputTranscription.
      destruct (msg_inputTranscription message); reflexivity. }
    assert (H3 : filter is_tool_event
                   (trace_of (handleOutputTranscription message s2)) = []).
    { unfold handleOutputTranscription.
      destruct (msg_outputTranscription message); reflexivity. }
    rewrite H2, H3. cbn [app].
    set (s4 := state_of (handleToolCall message s3)).
    assert (H5 : filter is_tool_event
                   (trace_of (handleTurnComplete message s4)) = []).
    { unfold handleTurnComplete, when.
      destruct (msg_turnComplete message); reflexivity. }
    set (s5 := state_of (handleTurnComplete message s4)).
    assert (H6 : filter is_tool_event
                   (trace_of (handleInterrupted message s5)) = []).
    { rewrite handleInterrupted_spec.
      destruct (msg_interrupted message); [apply filter_tool_stops | reflexivity]. }
    rewrite H5, H6, app_nil_r. reflexivity.
Qed.

End ToolCallFacts.

(** C4. When a connected client handles a message whose tool call lists
    the function calls [calls], then, call by call and in order, a call
    named 'provideBilingualDetails' makes the client call [onExplanation]
    with the three fields of its arguments (the empty string for an absent
    field) and then send one tool response with the id and the name of the
    call and the result "ok"; a call of another name produces neither. *)
Theorem toolCall_round_trip
        (s : LiveClient) (now : Q) (message : LiveServerMessage)
        (calls : list FunctionCall) :
  reachable s ->
  isConnected s = true ->
  toolCall message = Some calls ->
  filter is_tool_event (trace_of (handleMessage now message s)) =
  flat_map spec_round_trip calls.
Proof.
  intros Hr Hc Hcalls.
  destruct (reachable_ready s Hr Hc) as (Hs & _).
  destruct (handleMessage_tool_events now message s Hc) as (s' & Hs' & ->).
  rewrite handleToolCall_spec, Hcalls. cbn [trace_of fst snd].
  apply toolCall_events_round_trip. congruence.
Qed.

Lemma toolCall_round_trip_witness :
  let calls :=
    [ {| fc_id := Some "call-1"; fc_name := "provideBilingualDetails";
         fc_args := {| arg_botTranslation := Some "How are you?";
                       arg_userOriginal := None;
                       arg_userEnglishTranslation := None |} |};
      {| fc_id := Some "call-2"; fc_name := "somethingElse";
         fc_args := {| arg_botTranslation := Some "x"; arg_userOriginal := None;
                       arg_userEnglishTranslation := None |} |} ] in
  filter is_tool_event
    (trace_of (handleMessage 0 (toolCall_message calls) connected_client)) =
  [OnExplanation {| botTranslation := "How are you?"; userOriginal := "";
                    userEnglishTranslation := "" |};
   SendToolResponse (Some "call-1") "provideBilingualDetails" "ok"].
Proof.
  intro calls.
  apply (toolCall_round_trip connected_client 0 (toolCall_message calls) calls).
  - apply reach_connect, reach_new.
  - reflexivity.
  - reflexivity.
Defined.

(** ** Interruption *)

Section InterruptionFacts.

Lemma Set_add_incl (x : AudioBufferSourceNode) (l : list AudioBufferSourceNode) :
  incl l (Set_add x l).
Proof.
  unfold Set_add. destruct (existsb (same_node x) l).
  - apply incl_refl.
  - apply incl_appl, incl_refl.
Qed.

(** The sources playing when the interruption block starts include those
    playing when the message arrived. *)
Lemma sources_before_interruption (now : Q) (message : LiveServerMessage)
      (s : LiveClient) :
  let s1 := state_of (handleAudio now message s) in
  let s2 := state_of (handleInputTranscription message s1) in
  let s3 := state_of (handleOutputTranscription message s2) in
  let s4 := state_of (handleToolCall message s3) in
  let s5 := state_of (handleTurnComplete message s4) in
  incl (sources s) (sources s5).
Proof.
  intros s1 s2 s3 s4 s5.
  assert (H1 : incl (sources s) (sources s1)).
  { unfold s1. destruct (handleAudio_cases now message s)
      as [H|[(b & bytes & buf & _ & _ & _ & H)|(b & _ & H)]]; rewrite H.
    - apply incl_refl.
    - apply Set_add_incl.
    - apply incl_refl. }
  assert (H2 : sources s2 = sources s1).
  { unfold s2, handleInputTranscription.
    destruct (msg_inputTranscription message); reflexivity. }
  assert (H3 : sources s3 = sources s2).
  { unfold s3, handleOutputTranscription.
    destruct (msg_outputTranscription message); reflexivity. }
  assert (H4 : s4 = s3).
  { unfold s4. rewrite handleToolCall_spec. reflexivity. }
  assert (H5 : sources s5 = sources s4).
  { unfold s5, handleTurnComplete, when.
    destruct (msg_turnComplete message); reflexivity. }
  rewrite H5, H4, H3, H2. exact H1.
Qed.

End InterruptionFacts.

(** C2, as stated, fails on a message that is interrupted and also carries
    an input transcription: the fragment is appended, so the input
    accumulator is not left unchanged. *)
Lemma interrupted_with_input_fragment :
  let message :=
    {| serverContent :=
         Some {| sc_audio := None; sc_inputTranscription := Some "hi";
                 sc_outputTranscription := None; sc_turnComplete := false;
                 sc_interrupted := true |};
       toolCall := None |} in
  let s := connected_client in
  isConnected s = true /\
  msg_interrupted message = true /\
  currentInputTranscription s = "" /\
  currentInputTranscription (state_of (handleMessage 0 message s)) = "hi" /\
  currentInputTranscription (state_of (handleMessage 0 message s))
    <> currentInputTranscription s.
Proof.
  repeat split. discriminate.
Qed.

(** C2, amended. When a connected client handles a message with
    [interrupted] set, it stops every playback source of its set (the trace
    ends with the stops of the sources playing at that point, which include
    all those of the set before the message), empties the set, resets
    [nextStartTime] to 0 and clears the output transcription; the session
    and [isConnected] are unchanged, and so is the input transcription
    unless the same message carries an input fragment or completes the
    turn. *)
Theorem interruption_effect
        (s : LiveClient) (now : Q) (message : LiveServerMessage) :
  isConnected s = true ->
  msg_interrupted message = true ->
  let r := handleMessage now message s in
  (exists before playing,
      trace_of r = before ++ map SourceStop playing /\
      incl (sources s) playing) /\
  sources (state_of r) = [] /\
  nextStartTime (state_of r) = 0 /\
  currentOutputTranscription (state_of r) = "" /\
  session (state_of r) = session s /\
  isConnected (state_of r) = isConnected s /\
  (msg_inputTranscription message = None ->
   msg_turnComplete message = false ->
   currentInputTranscription (state_of r) = currentInputTranscription s).
Proof.
  intros Hc Hi r.
  destruct (handleMessage_connection now message s) as (Hconn & Hsess & _).
  destruct (handleMessage_transcripts now message s Hc) as (Hin & Hout & _).
  fold r in Hconn, Hsess, Hin, Hout.
  rewrite Hi, orb_true_r in Hout.
  assert (Er : exists before s5,
             incl (sources s) (sources s5) /\
             r = (set_currentOutputTranscription ""
                    (set_nextStartTime 0 (set_sources [] s5)),
                  before ++ map SourceStop (sources s5), Ok tt)).
  { pose proof (sources_before_interruption now message s) as Hincl.
    cbn zeta in Hincl.
    unfold r. rewrite (handleMessage_connected now message s Hc). cbn zeta.
    set (s5 := state_of (handleTurnComplete message _)) in *.
    rewrite !handleInterrupted_spec, Hi. cbn [state_of trace_of fst snd].
    eexists. exists s5. split; [exact Hincl|].
    rewrite !app_assoc. reflexivity. }
  destruct Er as (before & s5 & Hincl & Er).
  repeat split; try assumption.
  - exists before, (sources s5). rewrite Er. split; [reflexivity | exact Hincl].
  - rewrite Er. reflexivity.
  - rewrite Er. reflexivity.
  - intros Hnone Htc. rewrite Hin, Htc, Hnone. reflexivity.
Qed.

Lemma interruption_effect_witness :
  let s := state_of (handleMessages
                       [(0, audio_message "AAD/fw=="); (0, input_message "hi");
                        (0, output_message "namaste")] connected_client) in
  let r := handleMessage 1 interrupted_message s in
  (exists before playing,
      trace_of r = before ++ map SourceStop playing /\
      incl (sources s) playing) /\
  sources (state_of r) = [] /\
  nextStartTime (state_of r) = 0 /\
  currentOutputTranscription (state_of r) = "" /\
  session (state_of r) = session s /\
  isConnected (state_of r) = isConnected s /\
  (msg_inputTranscription interrupted_message = None ->
   msg_turnComplete interrupted_message = false ->
   currentInputTranscription (state_of r) = currentInputTranscription s).
Proof.
  intros s r.
  apply (interruption_effect s 1 interrupted_message).
  - reflexivity.
  - reflexivity.
Defined.

(** ** The playback timeline *)

Section TimelineFacts.

Lemma lastEnd_app (init : Q) (a b : list Event) :
  lastEnd init (a ++ b) = lastEnd (lastEnd init a) b.
Proof. apply fold_left_app. Qed.

Lemma lastEnd_quiet (tr : list Event) :
  starts_nothing tr -> forall init, lastEnd init tr = init.
Proof.
  induction 1 as [|e tr He _ IH]; intro init.
  - reflexivity.
  - cbn [lastEnd fold_left]. destruct e; try discriminate He; apply IH.
Qed.

Lemma filter_start_quiet (tr : list Event) :
  starts_nothing tr -> filter is_start tr = [].
Proof.
  induction 1 as [|e tr He _ IH].
  - reflexivity.
  - cbn [filter]. rewrite He. exact IH.
Qed.

Lemma starts_nothing_app (a b : list Event) :
  starts_nothing a -> starts_nothing b -> starts_nothing (a ++ b).
Proof.
  intros Ha Hb. apply Forall_app. split; assumption.
Qed.

Lemma toolCall_starts_nothing (message : LiveServerMessage) (s : LiveClient) :
  starts_nothing (trace_of (handleToolCall message s)).
Proof.
  rewrite handleToolCall_spec. cbn [trace_of fst snd].
  destruct (toolCall message) as [calls|]; [|constructor].
  induction calls as [|fc calls IH]; [constructor|].
  cbn [flat_map]. apply starts_nothing_app; [|exact IH].
  unfold functionCall_events.
  destruct (String.eqb (fc_name fc) "provideBilingualDetails"); [|constructor].
  destruct (session s); repeat constructor.
Qed.

(** Without an interruption, what a message does to the timeline is what
    its audio block does. *)
Lemma handleMessage_playback (now : Q) (message : LiveServerMessage)
      (s : LiveClient) :
  isConnected s = true ->
  msg_interrupted message = false ->
  exists rest,
    starts_nothing rest /\
    trace_of (handleMessage now message s) =
      trace_of (handleAudio now message s) ++ rest /\
    nextStartTime (state_of (handleMessage now message s)) =
      nextStartTime (state_of (handleAudio now message s)).
Proof.
  intros Hc Hi. rewrite (handleMessage_connected now message s Hc). cbn zeta.
  cbn [state_of trace_of fst snd].
  set (s1 := state_of (handleAudio now message s)).
  set (s2 := state_of (handleInputTranscription message s1)).
  set (s3 := state_of (handleOutputTranscription message s2)).
  set (s4 := state_of (handleToolCall message s3)).
  set (s5 := state_of (handleTurnComplete message s4)).
  eexists. split; [|split; [reflexivity|]].
  - repeat apply starts_nothing_app.
    + unfold handleInputTranscription.
      destruct (msg_inputTranscription message); repeat constructor.
    + unfold handleOutputTranscription.
      destruct (msg_outputTranscription message); repeat constructor.
    + apply toolCall_starts_nothing.
    + unfold handleTurnComplete, when.
      destruct (msg_turnComplete message); repeat constructor.
    + rewrite handleInterrupted_spec, Hi. constructor.
  - rewrite handleInterrupted_spec, Hi. cbn [state_of fst].
    assert (H2 : nextStartTime s2 = nextStartTime s1).
    { unfold s2, handleInputTranscription.
      destruct (msg_inputTranscription message); reflexivity. }
    assert (H3 : nextStartTime s3 = nextStartTime s2).
    { unfold s3, handleOutputTranscription.
      destruct (msg_outputTranscription message); reflexivity. }
    assert (H4 : s4 = s3).
    { unfold s4. rewrite handleToolCall_spec. reflexivity. }
    assert (H5 : nextStartTime s5 = nextStartTime s4).
    { unfold s5, handleTurnComplete, when.
      destruct (msg_turnComplete message); reflexivity. }
    rewrite H5, H4, H3, H2. reflexivity.
Qed.

(** A payload that decodes to a buffer is not the empty string. *)
Lemma decoded_truthy (base64Audio : string) (bytes : Uint8Array)
      (audioBuffer : AudioBuffer) :
  decode base64Audio = Ok bytes ->
  decodeAudioData bytes 24000 1 = Ok audioBuffer ->
  truthy base64Audio = true.
Proof.
  intros Hd Ha. destruct base64Audio as [|c rest]; [|reflexivity].
  vm_compute in Hd. injection Hd as <-. discriminate Ha.
Qed.

Lemma handleAudio_scheduled (now : Q) (message : LiveServerMessage)
      (s : LiveClient) (base64Audio : string) (bytes : Uint8Array)
      (audioBuffer : AudioBuffer) :
  ready s ->
  msg_audio message = Some base64Audio ->
  decode base64Audio = Ok bytes ->
  decodeAudioData bytes 24000 1 = Ok audioBuffer ->
  handleAudio now message s =
  (scheduled_state now audioBuffer s,
   [SourceStart {| node_id := nodesCreated s; node_buffer := audioBuffer |}
      (Qmax (nextStartTime s) now)],
   Ok tt).
Proof.
  intros (_ & Hctx & Hnode) Hm Hd Ha.
  unfold handleAudio, bind, get. rewrite Hm.
  destruct (outputAudioContext s); [|contradiction].
  destruct (outputNode s); [|contradiction].
  rewrite (decoded_truthy _ _ _ Hd Ha). unfold when.
  rewrite (scheduleAudio_decoded now base64Audio bytes audioBuffer s Hd Ha).
  reflexivity.
Qed.

Lemma handleAudio_failed (now : Q) (message : LiveServerMessage)
      (s : LiveClient) (base64Audio : string) :
  ready s ->
  msg_audio message = Some base64Audio ->
  truthy base64Audio = true ->
  (forall bytes audioBuffer,
      decode base64Audio = Ok bytes ->
      decodeAudioData bytes 24000 1 <> Ok audioBuffer) ->
  handleAudio now message s =
  (set_nextStartTime (Qmax (nextStartTime s) now) s,
   [ConsoleError "Audio Decode Error"], Ok tt).
Proof.
  intros (_ & Hctx & Hnode) Hm Ht Hf.
  unfold handleAudio, bind, get. rewrite Hm.
  destruct (outputAudioContext s); [|contradiction].
  destruct (outputNode s); [|contradiction].
  rewrite Ht. unfold when.
  rewrite (scheduleAudio_failed now base64Audio s Hf). reflexivity.
Qed.

(** The timeline after one message, whatever its audio block did: the end
    of the last scheduled chunk is not after [nextStartTime], and
    [nextStartTime] is not after the later of that end and the clock. *)
Lemma timeline_step (now : Q) (message : LiveServerMessage) (s : LiveClient)
      (c init : Q) :
  isConnected s = true ->
  msg_interrupted message = false ->
  init <= nextStartTime s ->
  nextStartTime s <= Qmax init c ->
  c <= now ->
  let r := handleMessage now message s in
  let e := lastEnd init (trace_of r) in
  e <= nextStartTime (state_of r) /\
  nextStartTime (state_of r) <= Qmax e now.
Proof.
  intros Hc Hi Hlo Hhi Hclock r e.
  destruct (handleMessage_playback now message s Hc Hi) as (rest & Hq & Htr & Hn).
  fold r in Htr, Hn. unfold e. rewrite Htr, lastEnd_app, (lastEnd_quiet rest Hq), Hn.
  assert (Hmax : Qmax init c <= Qmax init now).
  { apply Q.max_le_compat_l. exact Hclock. }
  destruct (handleAudio_cases now message s)
    as [H|[(b & bytes & buf & _ & _ & _ & H)|(b & _ & H)]]; rewrite H;
    cbn [state_of trace_of fst snd lastEnd fold_left].
  - split; [exact Hlo|]. apply Qle_trans with (Qmax init c); assumption.
  - cbn [scheduled_state nextStartTime set_sources set_nextStartTime
           set_nodesCreated node_buffer].
    split; [apply Qle_refl | apply Q.le_max_l].
  - cbn [nextStartTime set_nextStartTime]. split.
    + apply Qle_trans with (nextStartTime s); [exact Hlo | apply Q.le_max_l].
    + apply Q.max_lub; [|apply Q.le_max_r].
      apply Qle_trans with (Qmax init c); assumption.
Qed.

Lemma last_cons (t c : Q) (l : list Q) : last (t :: l) c = last l t.
Proof.
  revert t c. induction l as [|x l IH]; intros t c; [reflexivity|].
  change (last (t :: x :: l) c) with (last (x :: l) c).
  rewrite (IH x c), (IH x t). reflexivity.
Qed.

(** The same over a sequence of messages handled with a clock that does
    not go back. *)
Lemma timeline_invariant (msgs : list (Q * LiveServerMessage)) :
  forall (s : LiveClient) (c init : Q),
    isConnected s = true ->
    Forall no_interrupted msgs ->
    nondecreasing c (map fst msgs) ->
    init <= nextStartTime s ->
    nextStartTime s <= Qmax init c ->
    let r := handleMessages msgs s in
    let e := lastEnd init (trace_of r) in
    e <= nextStartTime (state_of r) /\
    nextStartTime (state_of r) <= Qmax e (last (map fst msgs) c).
Proof.
  induction msgs as [|[now m] msgs IH]; intros s c init Hc Hint Hclock Hlo Hhi.
  - cbn. split; assumption.
  - inversion_clear Hint as [|? ? Hi Hrest]. unfold no_interrupted in Hi.
    cbn [snd] in Hi. cbn [map fst nondecreasing] in Hclock.
    destruct Hclock as [Hnow Hclock].
    rewrite handleMessages_cons. cbn zeta. cbn [state_of trace_of fst snd map].
    rewrite lastEnd_app, last_cons.
    destruct (timeline_step now m s c init Hc Hi Hlo Hhi Hnow) as [H1 H2].
    destruct (handleMessage_connection now m s) as (Hc' & _).
    apply IH; try assumption. congruence.
Qed.

Lemma nondecreasing_snoc (l : list Q) :
  forall c t,
    nondecreasing c (l ++ [t]) -> nondecreasing c l /\ last l c <= t.
Proof.
  induction l as [|x l IH]; intros c t H.
  - cbn in *. tauto.
  - cbn [app nondecreasing] in H. destruct H as [Hx H].
    destruct (IH x t H) as [H1 H2]. rewrite last_cons.
    split; [split; assumption | exact H2].
Qed.

End TimelineFacts.

(** C1, as stated, fails on a sequence that contains a payload that does
    not decode: the chunk is not scheduled, yet [nextStartTime] has already
    been moved up to the clock, past the end of the last scheduled chunk. *)
Lemma nextStartTime_after_failed_decode :
  let msgs := [(0, audio_message "AAD/fw=="); (10, audio_message "AA==")] in
  let r := handleMessages msgs connected_client in
  Forall no_interrupted msgs /\
  filter is_start (trace_of r) =
    [SourceStart
       {| node_id := 0;
          node_buffer := {| numberOfChannels := 1; buffer_length := 2;
                            buffer_sampleRate := 24000;
                            channelData := [[0 # 32768; 32767 # 32768]] |} |}
       0] /\
  lastEnd 0 (trace_of r) == 2 # 24000 /\
  nextStartTime (state_of r) == 10 /\
  ~ nextStartTime (state_of r) == lastEnd 0 (trace_of r).
Proof.
  repeat split; try discriminate.
  repeat constructor.
Qed.

(** C1, amended. Let a connected client handle messages, none of them
    interrupted, with a clock that starts at 0 or later and never goes
    back.  A message whose audio decodes to a buffer schedules exactly one
    chunk, that buffer, to start at the maximum of the clock and the end of
    the previously scheduled chunk (the initial [nextStartTime] when there
    is none), and leaves [nextStartTime] at that start plus the duration of
    the buffer, which is the end of the last scheduled chunk; so a chunk
    whose predecessor is still playing starts exactly where it ends, and no
    chunk starts before its predecessor ends.  A message whose non-empty
    audio does not decode schedules nothing and leaves [nextStartTime] at
    the maximum of the clock and the end of the last scheduled chunk. *)
Theorem playback_timeline
        (s : LiveClient) (pre : list (Q * LiveServerMessage))
        (now : Q) (message : LiveServerMessage) (base64Audio : string) :
  reachable s ->
  isConnected s = true ->
  Forall no_interrupted pre ->
  msg_interrupted message = false ->
  nondecreasing 0 (map fst (pre ++ [(now, message)])) ->
  msg_audio message = Some base64Audio ->
  let r1 := handleMessages pre s in
  let r2 := handleMessage now message (state_of r1) in
  let previousEnd := lastEnd (nextStartTime s) (trace_of r1) in
  (forall bytes audioBuffer,
      decode base64Audio = Ok bytes ->
      decodeAudioData bytes 24000 1 = Ok audioBuffer ->
      exists src start,
        filter is_start (trace_of r2) = [SourceStart src start] /\
        node_buffer src = audioBuffer /\
        start == Qmax now previousEnd /\
        nextStartTime (state_of r2) = start + duration audioBuffer /\
        nextStartTime (state_of r2) =
          lastEnd (nextStartTime s) (trace_of r1 ++ trace_of r2) /\
        (now <= previousEnd -> start == previousEnd) /\
        previousEnd <= start) /\
  (truthy base64Audio = true ->
   (forall bytes audioBuffer,
       decode base64Audio = Ok bytes ->
       decodeAudioData bytes 24000 1 <> Ok audioBuffer) ->
   filter is_start (trace_of r2) = [] /\
   lastEnd (nextStartTime s) (trace_of r1 ++ trace_of r2) = previousEnd /\
   nextStartTime (state_of r2) == Qmax now previousEnd).
Proof.
  intros Hr Hc Hpre Hi Hclock Hm r1 r2 previousEnd.
  rewrite map_app in Hclock. cbn [map fst] in Hclock.
  destruct (nondecreasing_snoc _ _ _ Hclock) as [Hclock' Hlast].
  destruct (timeline_invariant pre s 0 (nextStartTime s) Hc Hpre Hclock'
              (Qle_refl _) (Q.le_max_l _ _)) as [Hlo Hhi].
  fold r1 in Hlo, Hhi. fold previousEnd in Hlo, Hhi.
  set (s1 := state_of r1) in *.
  assert (Hr1 : reachable s1 /\ isConnected s1 = true).
  { destruct (handleMessages_connection pre s) as (H1 & H2 & H3 & H4).
    fold r1 in H1, H2, H3, H4. fold s1 in H1, H2, H3, H4.
    split; [|congruence].
    unfold s1, r1. clear -Hr. revert s Hr.
    induction pre as [|[t m] pre IH]; intros s Hr; [exact Hr|].
    rewrite handleMessages_cons. cbn [state_of fst].
    apply IH. apply (reach_deliver (ServerMessage t m)). exact Hr. }
  destruct Hr1 as [Hr1 Hc1].
  pose proof (reachable_ready s1 Hr1 Hc1) as Hready.
  destruct (handleMessage_playback now message s1 Hc1 Hi) as (rest & Hq & Htr & Hn).
  fold r2 in Htr, Hn.
  assert (Hstart : Qmax (nextStartTime s1) now == Qmax now previousEnd).
  { apply Qle_antisym.
    - apply Q.max_lub; [|apply Q.le_max_l].
      apply Qle_trans with (Qmax previousEnd (last (map fst pre) 0)); [exact Hhi|].
      apply Q.max_lub; [apply Q.le_max_r|].
      apply Qle_trans with now; [exact Hlast | apply Q.le_max_l].
    - apply Q.max_lub; [apply Q.le_max_r|].
      apply Qle_trans with (nextStartTime s1); [exact Hlo | apply Q.le_max_l]. }
  split.
  - intros bytes audioBuffer Hd Ha.
    rewrite (handleAudio_scheduled now message s1 base64Audio bytes audioBuffer
               Hready Hm Hd Ha) in Htr, Hn.
    cbn [state_of trace_of fst snd] in Htr, Hn.
    exists {| node_id := nodesCreated s1; node_buffer := audioBuffer |},
           (Qmax (nextStartTime s1) now).
    repeat split.
    + rewrite Htr. cbn [app filter is_start]. rewrite (filter_start_quiet rest Hq).
      reflexivity.
    + exact Hstart.
    + rewrite Hn. reflexivity.
    + rewrite Hn, lastEnd_app, Htr. fold previousEnd.
      cbn [app lastEnd fold_left node_buffer].
      change (fold_left _ rest ?x) with (lastEnd x rest).
      rewrite (lastEnd_quiet rest Hq). reflexivity.
    + intro Hle. rewrite Hstart. apply Q.max_r. exact Hle.
    + rewrite Hstart. apply Q.le_max_r.
  - intros Ht Hf.
    rewrite (handleAudio_failed now message s1 base64Audio Hready Hm Ht Hf)
      in Htr, Hn.
    cbn [state_of trace_of fst snd] in Htr, Hn.
    repeat split.
    + rewrite Htr. cbn [app filter is_start]. apply (filter_start_quiet rest Hq).
    + rewrite lastEnd_app, Htr. fold previousEnd.
      cbn [app lastEnd fold_left].
      change (fold_left _ rest ?x) with (lastEnd x rest).
      apply (lastEnd_quiet rest Hq).
    + rewrite Hn. exact Hstart.
Qed.

Lemma playback_timeline_witness :
  let s := connected_client in
  let audioBuffer :=
    {| numberOfChannels := 1; buffer_length := 2; buffer_sampleRate := 24000;
       channelData := [[-32768 # 32768; 32767 # 32768]] |} in
  (* a chunk that arrives while its predecessor is playing *)
  (let pre := [(0, audio_message "AAD/fw==")] in
   let now := 1 # 24000 in
   let r1 := handleMessages pre s in
   let r2 := handleMessage now (audio_message "AID/fw==") (state_of r1) in
   let previousEnd := lastEnd (nextStartTime s) (trace_of r1) in
   exists src start,
     filter is_start (trace_of r2) = [SourceStart src start] /\
     node_buffer src = audioBuffer /\
     start == Qmax now previousEnd /\
     nextStartTime (state_of r2) = start + duration audioBuffer /\
     nextStartTime (state_of r2) =
       lastEnd (nextStartTime s) (trace_of r1 ++ trace_of r2) /\
     (now <= previousEnd -> start == previousEnd) /\
     previousEnd <= start) /\
  (* a payload of one byte, after the first chunk has finished *)
  (let pre := [(0, audio_message "AAD/fw==")] in
   let now := 10 in
   let r1 := handleMessages pre s in
   let r2 := handleMessage now (audio_message "AA==") (state_of r1) in
   let previousEnd := lastEnd (nextStartTime s) (trace_of r1) in
   filter is_start (trace_of r2) = [] /\
   lastEnd (nextStartTime s) (trace_of r1 ++ trace_of r2) = previousEnd /\
   nextStartTime (state_of r2) == Qmax now previousEnd).
Proof.
  intros s audioBuffer.
  assert (Hs : reachable s) by (apply reach_connect, reach_new).
  split.
  - intros pre now.
    destruct (playback_timeline s pre now (audio_message "AID/fw==") "AID/fw=="
                Hs eq_refl) as [Hok _].
    + repeat constructor.
    + reflexivity.
    + cbn. repeat split; discriminate.
    + reflexivity.
    + apply (Hok [x00; x80; xff; x7f] audioBuffer);
        vm_compute; reflexivity.
  - intros pre now.
    destruct (playback_timeline s pre now (audio_message "AA==") "AA=="
                Hs eq_refl) as [_ Hfail].
    + repeat constructor.
    + reflexivity.
    + cbn. repeat split; discriminate.
    + reflexivity.
    + apply Hfail; [reflexivity|].
      intros bytes audioBuffer' Hd. vm_compute in Hd. injection Hd as <-.
      discriminate.
Defined.

(** ** Live mode and the text chat *)

Section LiveModeFacts.

Lemma handleSubmit_live (props : ChatInput.Props) (text : string) :
  ChatInput.isLiveActive props = true ->
  ChatInput.handleSubmit props text = (text, []).
Proof.
  intro H. unfold ChatInput.handleSubmit. rewrite H.
  rewrite andb_false_r. reflexivity.
Qed.

Lemma act_live (a : App.UserAction) (st : App.State) :
  App.isLive st = true ->
  App.isLive (fst (App.act a st)) = true /\
  snd (App.act a st) = [] /\
  (App.showLangMenu st = false -> App.showLangMenu (fst (App.act a st)) = false).
Proof.
  intro Hl. destruct a as [|code|value|key shiftKey|]; unfold App.act.
  - unfold App.langButton_disabled. rewrite Hl. auto.
  - destruct (App.showLangMenu st) eqn:Hm; cbn; auto.
  - unfold ChatInput.textarea_disabled, App.chatInputProps. cbn.
    rewrite Hl, orb_true_r. auto.
  - unfold ChatInput.textarea_disabled, App.chatInputProps. cbn.
    rewrite Hl, orb_true_r. auto.
  - unfold ChatInput.sendButton_rendered, App.chatInputProps. cbn.
    rewrite Hl. cbn. auto.
Qed.

Lemma acts_live (l : list App.UserAction) :
  forall st,
    App.isLive st = true ->
    App.isLive (fst (App.acts l st)) = true /\
    snd (App.acts l st) = [] /\
    (App.showLangMenu st = false -> App.showLangMenu (fst (App.acts l st)) = false).
Proof.
  induction l as [|a l IH]; intros st Hl.
  - cbn. auto.
  - cbn [App.acts]. destruct (act_live a st Hl) as (H1 & H2 & H3).
    destruct (App.act a st) as [st1 e1]. cbn [fst snd] in *.
    destruct (IH st1 H1) as (K1 & K2 & K3).
    destruct (App.acts l st1) as [st2 e2]. cbn [fst snd] in *.
    subst e1 e2. auto.
Qed.

End LiveModeFacts.

(** Outside live mode the same actions send the trimmed text and open the
    menu. *)
Example text_mode_actions :
  App.acts [App.TypeText " hello "; App.PressKey "Enter" false;
            App.ClickLanguageButton]
           {| App.isLive := false; App.isLoading := false;
              App.showLangMenu := false; App.selectedLanguage := "Hindi";
              App.input := "" |}
  = ({| App.isLive := false; App.isLoading := false; App.showLangMenu := true;
        App.selectedLanguage := "Hindi"; App.input := "" |},
     [ChatInput.OnSend "hello"; ChatInput.ResetTextareaHeight]).
Proof. reflexivity. Qed.

(** C10. While live mode is active, [handleSubmit] of the chat input calls
    [onSend] for no text, the message textarea is disabled and the
    language button is disabled, its click handler doing nothing; so
    whatever the user does to the text input and to the language selector,
    no text message is sent and a closed language menu stays closed. *)
Theorem live_mode_locks_text_chat
        (st : App.State) (text : string) (actions : list App.UserAction) :
  App.isLive st = true ->
  let props := App.chatInputProps st in
  ChatInput.handleSubmit props text = (text, []) /\
  ChatInput.textarea_disabled props = true /\
  App.langButton_disabled st = true /\
  App.langButton_onClick st = st /\
  filter App.is_send (snd (App.acts actions st)) = [] /\
  App.isLive (fst (App.acts actions st)) = true /\
  (App.showLangMenu st = false ->
   App.showLangMenu (fst (App.acts actions st)) = false).
Proof.
  intros Hl props.
  destruct (acts_live actions st Hl) as (H1 & H2 & H3).
  repeat split.
  - apply handleSubmit_live. exact Hl.
  - unfold ChatInput.textarea_disabled, props, App.chatInputProps. cbn.
    rewrite Hl. apply orb_true_r.
  - exact Hl.
  - unfold App.langButton_onClick. rewrite Hl. reflexivity.
  - rewrite H2. reflexivity.
  - exact H1.
  - exact H3.
Qed.

Lemma live_mode_locks_text_chat_witness :
  let st := {| App.isLive := true; App.isLoading := false;
               App.showLangMenu := false; App.selectedLanguage := "Hindi";
               App.input := "hello" |} in
  let actions := [App.ClickLanguageButton; App.TypeText "namaste";
                  App.PressKey "Enter" false; App.ClickSend] in
  let props := App.chatInputProps st in
  ChatInput.handleSubmit props "hello" = ("hello", []) /\
  ChatInput.textarea_disabled props = true /\
  App.langButton_disabled st = true /\
  App.langButton_onClick st = st /\
  filter App.is_send (snd (App.acts actions st)) = [] /\
  App.isLive (fst (App.acts actions st)) = true /\
  (App.showLangMenu st = false ->
   App.showLangMenu (fst (App.acts actions st)) = false).
Proof.
  intros st actions.
  apply (live_mode_locks_text_chat st "hello" actions).
  reflexivity.
Defined.

(** ** More on the wire format *)

Section WireFormatFacts.
Import Base64.
Local Open Scope nat_scope.

Lemma string_of_list_ascii_length (l : list ascii) :
  String.length (string_of_list_ascii l) = List.length l.
Proof.
  induction l as [|c l IH]; simpl; [reflexivity | now rewrite IH].
Qed.

Lemma list_ascii_of_bytes (bytes : Uint8Array) :
  list_ascii_of_string (string_of_list_byte bytes) = map ascii_of_byte bytes.
Proof.
  unfold string_of_list_byte. apply list_ascii_of_string_of_list_ascii.
Qed.

Lemma padding_length (len : nat) :
  List.length (padding len) = match len mod 3 with 1 => 2 | 2 => 1 | _ => 0 end.
Proof.
  unfold padding. destruct (len mod 3) as [|[|[|m]]]; reflexivity.
Qed.

Lemma btoa_chars_length (l : list N) :
  List.length (to_sextets l) + List.length (padding (List.length l)) =
  4 * ((List.length l + 2) / 3).
Proof.
  rewrite padding_length.
  destruct (to_sextets_length l) as [k [[H1 H2]|[[H1 H2]|[H1 H2]]]];
    rewrite H1, H2.
  - assert (E1 : (3 * k) mod 3 = 0)
      by (symmetry; apply (Nat.mod_unique _ 3 k 0); lia).
    assert (E2 : (3 * k + 2) / 3 = k)
      by (symmetry; apply (Nat.div_unique _ 3 k 2); lia).
    rewrite E1, E2. lia.
  - assert (E1 : (3 * k + 1) mod 3 = 1)
      by (symmetry; apply (Nat.mod_unique _ 3 k 1); lia).
    assert (E2 : (3 * k + 1 + 2) / 3 = k + 1)
      by (symmetry; apply (Nat.div_unique _ 3 (k + 1) 0); lia).
    rewrite E1, E2. lia.
  - assert (E1 : (3 * k + 2) mod 3 = 2)
      by (symmetry; apply (Nat.mod_unique _ 3 k 2); lia).
    assert (E2 : (3 * k + 2 + 2) / 3 = k + 1)
      by (symmetry; apply (Nat.div_unique _ 3 (k + 1) 1); lia).
    rewrite E1, E2. lia.
Qed.

Lemma btoa_chars_base64 (l : list N) :
  Forall (fun b => (b < 256)%N) l ->
  Forall is_base64_char
         (map char_of_sextet (to_sextets l) ++ padding (List.length l)).
Proof.
  intro Hl. apply Forall_app. split.
  - pose proof (to_sextets_bounded l Hl) as Hs.
    induction Hs as [|n ns Hn _ IH]; simpl; constructor; [|exact IH].
    left. rewrite (sextet_char_roundtrip n Hn). discriminate.
  - unfold padding. destruct (List.length l mod 3) as [|[|[|m]]];
      repeat constructor; right; reflexivity.
Qed.

End WireFormatFacts.

Lemma encode_length (bytes : Uint8Array) :
  String.length (encode bytes) = (4 * ((List.length bytes + 2) / 3))%nat.
Proof.
  unfold encode, Base64.btoa. rewrite binary_of_bytes_spec, list_ascii_of_bytes.
  set (l := map N_of_ascii (map ascii_of_byte bytes)).
  rewrite string_of_list_ascii_length, length_app, (length_map Base64.char_of_sextet).
  rewrite btoa_chars_length. unfold l. rewrite !length_map. reflexivity.
Qed.

(** X1. The base64 text that [encode] returns for n bytes has
    4 * ceil(n / 3) characters, each a character of the base64 alphabet or
    the padding [=]; so the payload of the blob that [createBlob] builds
    from k samples has 4 * ceil(2 k / 3) characters. *)
Theorem encode_shape (bytes : Uint8Array) (data : list float) :
  String.length (encode bytes) = (4 * ((List.length bytes + 2) / 3))%nat /\
  Forall is_base64_char (list_ascii_of_string (encode bytes)) /\
  String.length (blob_data (createBlob data)) =
    (4 * ((2 * List.length data + 2) / 3))%nat.
Proof.
  split; [apply encode_length|]. split.
  - unfold encode, Base64.btoa.
    rewrite binary_of_bytes_spec, list_ascii_of_bytes,
      list_ascii_of_string_of_list_ascii.
    apply btoa_chars_base64. apply N_of_ascii_bounded_all.
  - unfold createBlob. cbn [blob_data].
    rewrite encode_length, buffer_of_Int16Array_length, length_map. reflexivity.
Qed.

(** ** More on the conversion of samples *)

Section QuantisationFacts.
Local Open Scope Z_scope.

Lemma Qtrunc_monotone (p q : Q) : (p <= q)%Q -> Qtrunc p <= Qtrunc q.
Proof.
  destruct p as [a b], q as [c d]. unfold Qle, Qtrunc. simpl. intro H.
  rewrite <- (Z.quot_mul_cancel_r a (Z.pos b) (Z.pos d)) by lia.
  rewrite <- (Z.quot_mul_cancel_r c (Z.pos d) (Z.pos b)) by lia.
  rewrite (Z.mul_comm (Z.pos d) (Z.pos b)).
  apply Z.quot_le_mono; lia.
Qed.

Lemma spec_clamp_monotone (p q : Q) :
  (p <= q)%Q -> (spec_clamp p <= spec_clamp q)%Q.
Proof.
  intro H. unfold spec_clamp.
  destruct (Qlt_le_dec p (-1)) as [Hp|Hp], (Qlt_le_dec q (-1)) as [Hq|Hq].
  - apply Qle_refl.
  - destruct (Qlt_le_dec 1 q); [discriminate | exact Hq].
  - exfalso. apply (Qlt_irrefl q).
    apply Qlt_le_trans with (-1)%Q; [exact Hq|].
    apply Qle_trans with p; assumption.
  - destruct (Qlt_le_dec 1 p) as [Hp1|Hp1], (Qlt_le_dec 1 q) as [Hq1|Hq1].
    + apply Qle_refl.
    + exfalso. apply (Qlt_irrefl 1).
      apply Qlt_le_trans with p; [exact Hp1|].
      apply Qle_trans with q; assumption.
    + exact Hp1.
    + exact H.
Qed.

Lemma spec_pcm16_monotone (p q : Q) :
  (p <= q)%Q -> spec_pcm16 p <= spec_pcm16 q.
Proof.
  intro H. pose proof (spec_clamp_monotone p q H) as Hc.
  destruct (spec_clamp_range p) as [Hp1 Hp2].
  destruct (spec_clamp_range q) as [Hq1 Hq2].
  unfold spec_pcm16.
  destruct (Qlt_le_dec (spec_clamp p) 0) as [Hp|Hp],
           (Qlt_le_dec (spec_clamp q) 0) as [Hq|Hq].
  - apply Qtrunc_monotone. apply Qmult_le_compat_r; [exact Hc | discriminate].
  - pose proof (Qtrunc_scale_neg _ Hp1 (Qlt_le_weak _ _ Hp)).
    pose proof (Qtrunc_scale_pos _ Hq Hq2). lia.
  - exfalso. apply (Qlt_irrefl 0).
    apply Qle_lt_trans with (spec_clamp q); [|exact Hq].
    apply Qle_trans with (spec_clamp p); assumption.
  - apply Qtrunc_monotone. apply Qmult_le_compat_r; [exact Hc | discriminate].
Qed.

(** The stored value, read back as a sample, is within 1/16384 of the
    clamped input, and on the same side of zero. *)
Lemma spec_pcm16_error (q : Q) :
  (spec_clamp q - (1 # 16384) < sample_of_int16 (spec_pcm16 q))%Q /\
  (sample_of_int16 (spec_pcm16 q) < spec_clamp q + (1 # 16384))%Q /\
  ((spec_clamp q < 0)%Q -> spec_pcm16 q <= 0) /\
  ((0 <= spec_clamp q)%Q -> 0 <= spec_pcm16 q).
Proof.
  destruct (spec_clamp_range q) as [H1 H2].
  unfold spec_pcm16.
  destruct (Qlt_le_dec (spec_clamp q) 0) as [Hneg|Hpos].
  - pose proof (Qtrunc_scale_neg _ H1 (Qlt_le_weak _ _ Hneg)) as Hr.
    repeat split.
    + revert H1 Hneg. destruct (spec_clamp q) as [n d].
      unfold Qle, Qlt, Qtrunc, sample_of_int16, Qminus, Qplus, Qopp. simpl.
      intros H1 Hneg. rewrite Pos2Z.inj_mul.
      Z.to_euclidean_division_equations. nia.
    + revert H1 Hneg. destruct (spec_clamp q) as [n d].
      unfold Qle, Qlt, Qtrunc, sample_of_int16, Qminus, Qplus, Qopp. simpl.
      intros H1 Hneg. rewrite Pos2Z.inj_mul.
      Z.to_euclidean_division_equations. nia.
    + intros _. lia.
    + intro Hge. exfalso. apply (Qlt_irrefl 0).
      apply Qle_lt_trans with (spec_clamp q); assumption.
  - pose proof (Qtrunc_scale_pos _ Hpos H2) as Hr.
    repeat split.
    + revert Hpos H2. destruct (spec_clamp q) as [n d].
      unfold Qle, Qlt, Qtrunc, sample_of_int16, Qminus, Qplus, Qopp. simpl.
      intros Hpos H2. rewrite Pos2Z.inj_mul.
      Z.to_euclidean_division_equations. nia.
    + revert Hpos H2. destruct (spec_clamp q) as [n d].
      unfold Qle, Qlt, Qtrunc, sample_of_int16, Qminus, Qplus, Qopp. simpl.
      intros Hpos H2. rewrite Pos2Z.inj_mul.
      Z.to_euclidean_division_equations. nia.
    + intro Hlt. exfalso. apply (Qlt_irrefl 0).
      apply Qle_lt_trans with (spec_clamp q); assumption.
    + intros _. lia.
Qed.

End QuantisationFacts.

(** X2. The value [createBlob] stores for a finite sample, divided by
    32768 as a receiver reads it back, is within 1/16384 of the sample
    clamped to [-1, 1], and is never of the opposite sign. *)
Theorem pcm16_quantisation (q : Q) :
  let v := pcm16_of_sample (Finite q) in
  spec_clamp q - (1 # 16384) < sample_of_int16 v /\
  sample_of_int16 v < spec_clamp q + (1 # 16384) /\
  (spec_clamp q < 0 -> (v <= 0)%Z) /\
  (0 <= spec_clamp q -> (0 <= v)%Z).
Proof.
  cbn zeta. rewrite pcm16_of_finite. apply spec_pcm16_error.
Qed.

Lemma pcm16_quantisation_witness :
  let v := pcm16_of_sample (Finite (-1 # 3)) in
  spec_clamp (-1 # 3) - (1 # 16384) < sample_of_int16 v /\
  sample_of_int16 v < spec_clamp (-1 # 3) + (1 # 16384) /\
  (v <= 0)%Z.
Proof.
  intro v.
  destruct (pcm16_quantisation (-1 # 3)) as (H1 & H2 & H3 & _).
  split; [exact H1|]. split; [exact H2|]. apply H3. reflexivity.
Defined.

(** X3. The conversion of [createBlob] is monotone: a larger finite
    sample is never stored as a smaller value, so the wrap of ToInt16 never
    turns a loud positive sample into a negative one. *)
Theorem pcm16_monotone (p q : Q) :
  p <= q -> (pcm16_of_sample (Finite p) <= pcm16_of_sample (Finite q))%Z.
Proof.
  intro H. rewrite !pcm16_of_finite. apply spec_pcm16_monotone. exact H.
Qed.

Lemma pcm16_monotone_witness :
  (pcm16_of_sample (Finite (9 # 10)) <= pcm16_of_sample (Finite (5 # 2)))%Z.
Proof.
  apply (pcm16_monotone (9 # 10) (5 # 2)). discriminate.
Defined.

(** ** More on [decodeAudioData] *)

Section DecodeOutcomeFacts.
Local Open Scope nat_scope.

Lemma Int16Array_of_buffer_range (n : nat) :
  forall (data : Uint8Array) (a : Int16Array),
    List.length data <= n ->
    Int16Array_of_buffer data = Ok a -> Forall int16_range a.
Proof.
  induction n as [|n IH]; intros data a Hlen Ha.
  - destruct data; [|simpl in Hlen; lia]. injection Ha as <-. constructor.
  - destruct data as [|lo [|hi rest]].
    + injection Ha as <-. constructor.
    + discriminate Ha.
    + cbn [Int16Array_of_buffer] in Ha.
      destruct (Int16Array_of_buffer rest) as [a'|e] eqn:E; [|discriminate].
      injection Ha as <-. constructor.
      * apply int16_of_bytes_range.
      * apply (IH rest); [simpl in Hlen; lia | exact E].
Qed.

Lemma Int16Array_of_buffer_odd (n : nat) :
  forall data : Uint8Array,
    List.length data = 2 * n + 1 ->
    Int16Array_of_buffer data =
    Throw "RangeError: byte length of Int16Array should be a multiple of 2".
Proof.
  induction n as [|n IH]; intros data Hlen.
  - destruct data as [|b [|c r]]; try discriminate Hlen. reflexivity.
  - destruct data as [|lo [|hi rest]]; try (simpl in Hlen; lia).
    cbn [Int16Array_of_buffer]. rewrite (IH rest); [reflexivity|].
    simpl in Hlen. lia.
Qed.

Lemma half_length (m : nat) :
  (Nat.even m = true /\ m = 2 * (m / 2)) \/
  (Nat.even m = false /\ m = 2 * (m / 2) + 1).
Proof.
  destruct (Nat.Even_or_Odd m) as [[k Hk]|[k Hk]]; subst m.
  - left. split; [apply Nat.even_even|].
    rewrite (Nat.mul_comm 2 k), Nat.div_mul by discriminate. lia.
  - right. split; [apply Nat.even_odd|].
    replace ((2 * k + 1) / 2) with k; [reflexivity|].
    apply (Nat.div_unique _ 2 k 1); lia.
Qed.

Lemma nth_map_seq_gen {A} (f : nat -> A) (d : A) (n i : nat) :
  i < n -> nth i (map f (seq 0 n)) d = f i.
Proof.
  intro Hi.
  rewrite (nth_indep _ d (f 0)) by (rewrite length_map, length_seq; exact Hi).
  rewrite map_nth, seq_nth by exact Hi. reflexivity.
Qed.

Lemma map_nth_seq (a : Int16Array) (f : Z -> Q) :
  map (fun i => f (nth i a 0%Z)) (seq 0 (List.length a)) = map f a.
Proof.
  induction a as [|v a IH]; [reflexivity|].
  cbn [List.length seq map nth]. f_equal.
  rewrite <- seq_shift, map_map. exact IH.
Qed.

Lemma createBuffer_throws (numChannels frameCount : nat) (sampleRate : Z) :
  numChannels = 0 \/ maxChannels < numChannels \/ frameCount = 0 ->
  createBuffer numChannels frameCount sampleRate = Throw "NotSupportedError".
Proof.
  intro H. unfold createBuffer.
  replace ((numChannels =? 0) || (maxChannels <? numChannels) || (frameCount =? 0))
    with true; [reflexivity|].
  symmetry. rewrite !orb_true_iff, !Nat.eqb_eq, Nat.ltb_lt. tauto.
Qed.

Lemma createBuffer_returns (numChannels frameCount : nat) (sampleRate : Z) :
  1 <= numChannels <= maxChannels -> 1 <= frameCount ->
  createBuffer numChannels frameCount sampleRate =
  Ok {| numberOfChannels := numChannels;
        buffer_length := frameCount;
        buffer_sampleRate := sampleRate;
        channelData := repeat (repeat 0%Q frameCount) numChannels |}.
Proof.
  intros Hc Hf. unfold createBuffer.
  replace ((numChannels =? 0) || (maxChannels <? numChannels) || (frameCount =? 0))
    with false; [reflexivity|].
  symmetry. rewrite !orb_false_iff, !Nat.eqb_neq, Nat.ltb_ge. lia.
Qed.

(** The three outcomes of [decodeAudioData], by the length of the data. *)
Lemma decodeAudioData_cases (data : Uint8Array) (sampleRate : Z) (numChannels : nat) :
  (Nat.even (List.length data) = false /\
   decodeAudioData data sampleRate numChannels =
   Throw "RangeError: byte length of Int16Array should be a multiple of 2") \/
  (Nat.even (List.length data) = true /\
   (numChannels = 0 \/ maxChannels < numChannels \/
    List.length data / 2 < numChannels) /\
   decodeAudioData data sampleRate numChannels = Throw "NotSupportedError") \/
  (Nat.even (List.length data) = true /\
   1 <= numChannels <= List.length data / 2 /\
   numChannels <= maxChannels /\
   exists a,
     Int16Array_of_buffer data = Ok a /\
     List.length a = List.length data / 2 /\
     (forall i, i < List.length a ->
        nth i a 0%Z =
        int16_of_bytes (nth (2 * i) data x00) (nth (2 * i + 1) data x00)) /\
     decodeAudioData data sampleRate numChannels =
     Ok {| numberOfChannels := numChannels;
           buffer_length := List.length a / numChannels;
           buffer_sampleRate := sampleRate;
           channelData :=
             fill_channels a numChannels (List.length a / numChannels) |}).
Proof.
  destruct (half_length (List.length data)) as [[He Hl]|[Ho Hl]].
  - destruct (Int16Array_of_buffer_even _ data Hl) as (a & Ha & Hla & Hnth).
    destruct (Nat.eq_dec numChannels 0) as [H0|H0].
    { right. left. split; [exact He|]. split; [left; exact H0|].
      unfold decodeAudioData. rewrite Ha, createBuffer_throws; [reflexivity|].
      left. exact H0. }
    destruct (Nat.ltb_spec maxChannels numChannels) as [Hmax|Hmax].
    { right. left. split; [exact He|]. split; [right; left; exact Hmax|].
      unfold decodeAudioData. rewrite Ha, createBuffer_throws; [reflexivity|].
      right. left. exact Hmax. }
    destruct (Nat.ltb_spec (List.length data / 2) numChannels) as [Hlt|Hge].
    + right. left. split; [exact He|]. split; [right; right; exact Hlt|].
      unfold decodeAudioData. rewrite Ha, createBuffer_throws; [reflexivity|].
      right. right. rewrite Hla. apply Nat.div_small. exact Hlt.
    + right. right. split; [exact He|]. split; [lia|]. split; [exact Hmax|].
      exists a. split; [exact Ha|]. split; [exact Hla|].
      split; [intros i Hi; apply Hnth; lia|].
      unfold decodeAudioData. rewrite Ha, createBuffer_returns; [reflexivity|lia|].
      rewrite Hla.
      destruct (List.length data / 2 / numChannels) as [|k] eqn:Hk; [|lia].
      apply Nat.div_small_iff in Hk; lia.
  - left. split; [exact Ho|].
    unfold decodeAudioData. rewrite (Int16Array_of_buffer_odd _ data Hl).
    reflexivity.
Qed.

End DecodeOutcomeFacts.



(** X5. Every buffer that [decodeAudioData] returns is well formed: it
    has as many channels as it says, every channel has as many samples as
    it has frames, channels times frames does not exceed the number of
    16-bit values of the data, every sample lies in [-1, 1), and the sample
    of channel [c] at frame [i] is the little-endian 16-bit value at index
    [i * numChannels + c], divided by 32768. *)
Theorem decodeAudioData_buffer
        (data : Uint8Array) (sampleRate : Z) (numChannels : nat)
        (buffer : AudioBuffer) :
  decodeAudioData data sampleRate numChannels = Ok buffer ->
  List.length (channelData buffer) = numberOfChannels buffer /\
  Forall (fun cd => List.length cd = buffer_length buffer) (channelData buffer) /\
  (numberOfChannels buffer * buffer_length buffer <= List.length data / 2)%nat /\
  (forall c i,
      (c < numberOfChannels buffer)%nat -> (i < buffer_length buffer)%nat ->
      let k := (i * numChannels + c)%nat in
      let x := nth i (nth c (channelData buffer) []) 0 in
      x = sample_of_int16
            (int16_of_bytes (nth (2 * k) data x00) (nth (2 * k + 1) data x00)) /\
      -1 <= x /\ x < 1).
Proof.
  intro Hok.
  destruct (decodeAudioData_cases data sampleRate numChannels)
    as [(_ & H)|[(_ & _ & H)|(_ & Hc & _ & a & Ha & Hla & Hnth & H)]];
    try congruence.
  rewrite H in Hok. injection Hok as <-.
  cbn [numberOfChannels buffer_length channelData]. unfold fill_channels.
  set (frames := (List.length a / numChannels)%nat).
  assert (Hfit : (numChannels * frames <= List.length a)%nat).
  { unfold frames. apply Nat.Div0.mul_div_le. }
  repeat split.
  - rewrite length_map, length_seq. reflexivity.
  - apply Forall_forall. intros cd Hcd. apply in_map_iff in Hcd.
    destruct Hcd as (c & <- & _). rewrite length_map, length_seq. reflexivity.
  - rewrite <- Hla. exact Hfit.
  - rewrite (nth_map_seq_gen _ [] numChannels c H0).
    rewrite (nth_map_seq_gen _ 0 frames i H1).
    rewrite Hnth by nia. reflexivity.
  - rewrite (nth_map_seq_gen _ [] numChannels c H0).
    rewrite (nth_map_seq_gen _ 0 frames i H1).
    rewrite Hnth by nia. apply sample_of_int16_range, int16_of_bytes_range.
  - rewrite (nth_map_seq_gen _ [] numChannels c H0).
    rewrite (nth_map_seq_gen _ 0 frames i H1).
    rewrite Hnth by nia. apply sample_of_int16_range, int16_of_bytes_range.
Qed.

Lemma decodeAudioData_buffer_witness :
  let data := [x00; x80; xff; x7f; x01; x00; xff; xff] in
  let buffer :=
    {| numberOfChannels := 2; buffer_length := 2; buffer_sampleRate := 24000;
       channelData := [[-32768 # 32768; 1 # 32768]; [32767 # 32768; -1 # 32768]] |} in
  List.length (channelData buffer) = numberOfChannels buffer /\
  Forall (fun cd => List.length cd = buffer_length buffer) (channelData buffer) /\
  (numberOfChannels buffer * buffer_length buffer <= List.length data / 2)%nat /\
  (forall c i,
      (c < numberOfChannels buffer)%nat -> (i < buffer_length buffer)%nat ->
      let k := (i * 2 + c)%nat in
      let x := nth i (nth c (channelData buffer) []) 0 in
      x = sample_of_int16
            (int16_of_bytes (nth (2 * k) data x00) (nth (2 * k + 1) data x00)) /\
      -1 <= x /\ x < 1).
Proof.
  intros data buffer.
  apply (decodeAudioData_buffer data 24000 2 buffer). reflexivity.
Defined.

(** X6. Loopback of the wire format: for a non-empty buffer of samples,
    the payload that [createBlob] builds is accepted by the client's own
    [decode] and [decodeAudioData] (one channel), which return one frame
    per input sample, each the stored 16-bit value divided by 32768. *)
Theorem createBlob_loopback (data : list float) (sampleRate : Z) :
  data <> [] ->
  exists bytes,
    decode (blob_data (createBlob data)) = Ok bytes /\
    List.length bytes = (2 * List.length data)%nat /\
    decodeAudioData bytes sampleRate 1 =
    Ok {| numberOfChannels := 1;
          buffer_length := List.length data;
          buffer_sampleRate := sampleRate;
          channelData :=
            [map (fun x => sample_of_int16 (pcm16_of_sample x)) data] |}.
Proof.
  intro Hne.
  set (samples := map pcm16_of_sample data).
  exists (buffer_of_Int16Array samples).
  assert (Hrange : Forall (fun v => (-32768 <= v <= 32767)%Z) samples).
  { unfold samples. rewrite map_pcm16_spec. apply Forall_forall.
    intros v Hv. apply in_map_iff in Hv. destruct Hv as (x & <- & _).
    apply spec_pcm16_float_range. }
  assert (Hlen : List.length samples = List.length data)
    by (unfold samples; apply length_map).
  split; [apply decode_inverts_encode|].
  split; [rewrite buffer_of_Int16Array_length, Hlen; reflexivity|].
  rewrite (decodeAudioData_mono _ samples sampleRate
             (Int16Array_of_buffer_of_Int16Array samples Hrange)).
  - rewrite map_nth_seq, Hlen. unfold samples. rewrite map_map. reflexivity.
  - rewrite Hlen. destruct data; [contradiction | simpl; lia].
Qed.

Lemma createBlob_loopback_witness :
  exists bytes,
    decode (blob_data (createBlob [Finite (1 # 2); NaN; Finite (-2)])) = Ok bytes /\
    List.length bytes = 6%nat /\
    decodeAudioData bytes 24000 1 =
    Ok {| numberOfChannels := 1; buffer_length := 3; buffer_sampleRate := 24000;
          channelData := [[16383 # 32768; 0 # 32768; -32768 # 32768]] |}.
Proof.
  apply (createBlob_loopback [Finite (1 # 2); NaN; Finite (-2)] 24000).
  discriminate.
Defined.

(** ** More on the connection life cycle *)

Section ResourceFacts.




Lemma release_events_are_releases (s : LiveClient) :
  Forall (fun e => is_release e = true) (release_events s).
Proof.
  unfold release_events, close_events.
  destruct (session s), (mediaStream s), (source s), (scriptProcessor s),
    (inputAudioContext s) as [[r1 []]|], (outputAudioContext s) as [[r2 []]|];
    repeat constructor.
Qed.

Lemma release_events_released (s : LiveClient) :
  release_events (released s) = [].
Proof. reflexivity. Qed.










End ResourceFacts.



(** X8. [disconnect] is idempotent on the state: a second call releases
    nothing (no session to close, no track to stop, no context to close)
    and only calls [onDisconnected] once more.  A call never stops a
    playback source and leaves the timeline, the set of sources and the
    transcriptions as they are. *)
Theorem disconnect_twice (s : LiveClient) :
  let s1 := state_of (disconnect s) in
  disconnect s1 = (s1, [OnDisconnected], Ok tt) /\
  filter is_release (trace_of (disconnect s)) = release_events s /\
  (forall src, ~ In (SourceStop src) (trace_of (disconnect s))) /\
  nextStartTime s1 = nextStartTime s /\
  sources s1 = sources s /\
  currentInputTranscription s1 = currentInputTranscription s /\
  currentOutputTranscription s1 = currentOutputTranscription s.
Proof.
  cbn zeta. rewrite !disconnect_spec. cbn [state_of trace_of fst snd].
  rewrite ?disconnect_spec, release_events_released.
  pose proof (release_events_are_releases s) as Hrel.
  repeat split.
  - rewrite filter_app. cbn [filter is_release]. rewrite app_nil_r.
    induction Hrel as [|e l He _ IH]; [reflexivity|].
    cbn [filter]. rewrite He, IH. reflexivity.
  - intros src Hin. apply in_app_iff in Hin. destruct Hin as [Hin|[Hin|[]]].
    + rewrite Forall_forall in Hrel. specialize (Hrel _ Hin). discriminate Hrel.
    + discriminate Hin.
Qed.



(** ** [connect] and what runs during its awaits *)

Section AsyncFacts.

Ltac same_run :=
  rewrite ?disconnect_spec; cbn [app]; rewrite ?app_nil_r; cbn [app];
  reflexivity.

(** Run with nothing in between, the parts of [connect] make up the
    method. *)
Lemma connect_uninterrupted_eq (env : Browser) (s : LiveClient) :
  connect_uninterrupted env s = connect env s.
Proof.
  unfold connect_uninterrupted, connect, connect_begin.
  destruct (has_API_KEY env); cbn [negb]; [|reflexivity].
  unfold connect_body, connect_settle, connect_resume, connect_segment,
    connect_from_514, connect_from_515, connect_from_517, connect_catch,
    note_resumed_input, note_resumed_output.
  unfold try_catch, bind, emit, modify, lift, get, ret.
  destruct (getUserMedia env) as [stream|e];
    [|same_run].
  destruct (newAudioContext env 16000) as [ictx|e];
    [|same_run].
  destruct (newAudioContext env 24000) as [octx|e];
    [|same_run].
  cbn [inputAudioContext outputAudioContext set_mediaStream
         set_inputAudioContext set_outputAudioContext].
  destruct (ctx_state ictx) eqn:Ei;
    try (destruct (resume env ictx) as [[]|e];
         [|same_run]);
    cbn [inputAudioContext outputAudioContext set_mediaStream
           set_inputAudioContext set_outputAudioContext ctx_state resumed];
    (destruct (ctx_state octx) eqn:Eo;
     try (destruct (resume env octx) as [[]|e];
          [|same_run]);
     cbn [inputAudioContext outputAudioContext set_mediaStream
            set_inputAudioContext set_outputAudioContext set_inputNode
            set_outputNode ctx_state resumed language];
     (destruct (liveConnect env) as [sess|e];
      [same_run | same_run])).
Qed.


Ltac throws := left; eexists; reflexivity.
Ltac awaits := right; eexists; split; [reflexivity | cbn; lia].

Lemma same_link_trans (a b c : LiveClient) :
  same_link a b -> same_link b c -> same_link a c.
Proof.
  unfold same_link. intros (H1 & H2 & H3 & H4) (K1 & K2 & K3 & K4).
  repeat split; congruence.
Qed.

(** The rest of a part, run after fields outside the link have changed. *)
Lemma advances_from (k k' : nat) (s s1 s2 : LiveClient) (t t2 : list Event)
      (r : Result (option Await)) :
  (k <= k')%nat ->
  same_link s s1 ->
  advances k s1 (s2, t2, r) ->
  advances k' s (s2, t, r).
Proof.
  intros Hk Hl [Hl1 Hr]. cbn in Hl1, Hr. split.
  - exact (same_link_trans _ _ _ Hl Hl1).
  - destruct Hr as [He|(w & Hw & Hle)]; [left; exact He|].
    right. exists w. split; [exact Hw | lia].
Qed.

Lemma connect_from_517_advances (s : LiveClient) :
  advances 1 s (connect_from_517 s).
Proof.
  unfold advances, same_link, connect_from_517, bind, get, modify, emit, lift, ret.
  destruct (inputAudioContext s) as [ictx|]; cbn;
    [|split; [repeat split | throws]].
  destruct (outputAudioContext s) as [octx|]; cbn;
    (split; [repeat split |]); [awaits | throws].
Qed.

Lemma connect_from_515_eq (s : LiveClient) :
  connect_from_515 s =
  match outputAudioContext s with
  | None => (s, [], Throw TypeError)
  | Some octx =>
      match ctx_state octx with
      | suspended =>
          (s, [ContextResume octx], Ok (Some (AwaitResumeOutput octx)))
      | _ => connect_from_517 s
      end
  end.
Proof.
  unfold connect_from_515, bind, get, emit, lift, ret.
  destruct (outputAudioContext s) as [octx|]; [|reflexivity].
  destruct (ctx_state octx); try reflexivity;
    destruct (connect_from_517 s) as [[s2 t2] r]; reflexivity.
Qed.

Lemma connect_from_514_eq (s : LiveClient) :
  connect_from_514 s =
  match inputAudioContext s with
  | None => (s, [], Throw TypeError)
  | Some ictx =>
      match ctx_state ictx with
      | suspended =>
          (s, [ContextResume ictx], Ok (Some (AwaitResumeInput ictx)))
      | _ => connect_from_515 s
      end
  end.
Proof.
  unfold connect_from_514, bind, get, emit, lift, ret.
  destruct (inputAudioContext s) as [ictx|]; [|reflexivity].
  destruct (ctx_state ictx); try reflexivity;
    destruct (connect_from_515 s) as [[s2 t2] r]; reflexivity.
Qed.

Lemma connect_from_515_advances (s : LiveClient) :
  advances 2 s (connect_from_515 s).
Proof.
  pose proof (connect_from_517_advances s) as H.
  rewrite connect_from_515_eq.
  destruct (outputAudioContext s) as [octx|];
    [|split; [repeat split | throws]].
  destruct (connect_from_517 s) as [[s2 t2] r].
  destruct (ctx_state octx);
    try (apply (advances_from 1 2 s s s2 t2 t2 r); [lia | repeat split | exact H]).
  split; [repeat split | awaits].
Qed.

Lemma connect_from_514_advances (s : LiveClient) :
  advances 3 s (connect_from_514 s).
Proof.
  pose proof (connect_from_515_advances s) as H.
  rewrite connect_from_514_eq.
  destruct (inputAudioContext s) as [ictx|];
    [|split; [repeat split | throws]].
  destruct (connect_from_515 s) as [[s2 t2] r].
  destruct (ctx_state ictx);
    try (apply (advances_from 2 3 s s s2 t2 t2 r); [lia | repeat split | exact H]).
  split; [repeat split | awaits].
Qed.

(** A part of [connect] either throws or reaches a later await, leaving
    the link alone, or it is the last one and connects the client. *)
Lemma connect_segment_cases (env : Browser) (w : Await) (s : LiveClient) :
  let r := connect_segment env w s in
  advances (awaits_left w - 1) s r \/
  (result_of r = Ok None /\
   isConnected (state_of r) = true /\ session (state_of r) <> None /\
   source (state_of r) = source s /\
   scriptProcessor (state_of r) = scriptProcessor s).
Proof.
  destruct w as [|ctx|ctx|]; cbn [connect_segment awaits_left Nat.sub].
  - left. unfold bind, lift, modify, emit.
    destruct (getUserMedia env) as [stream|e];
      [|split; [repeat split | throws]].
    destruct (newAudioContext env 16000) as [ictx|e];
      [|split; [repeat split | throws]].
    destruct (newAudioContext env 24000) as [octx|e];
      [|split; [repeat split | throws]].
    set (s1 := set_outputAudioContext _ _).
    pose proof (connect_from_514_advances s1) as H.
    destruct (connect_from_514 s1) as [[s2 t2] r]. cbn.
    apply (advances_from 3 3 s s1 s2 _ t2 r); [lia | repeat split | exact H].
  - left. unfold bind, lift, modify.
    destruct (resume env ctx) as [[]|e]; [|split; [repeat split | throws]].
    pose proof (connect_from_515_advances (note_resumed_input ctx s)) as H.
    destruct (connect_from_515 (note_resumed_input ctx s)) as [[s2 t2] r]. cbn.
    apply (advances_from 2 2 s (note_resumed_input ctx s) s2 _ t2 r);
      [lia | | exact H].
    unfold note_resumed_input. destruct (inputAudioContext s); repeat split.
  - left. unfold bind, lift, modify.
    destruct (resume env ctx) as [[]|e]; [|split; [repeat split | throws]].
    pose proof (connect_from_517_advances (note_resumed_output ctx s)) as H.
    destruct (connect_from_517 (note_resumed_output ctx s)) as [[s2 t2] r]. cbn.
    apply (advances_from 1 1 s (note_resumed_output ctx s) s2 _ t2 r);
      [lia | | exact H].
    unfold note_resumed_output. destruct (outputAudioContext s); repeat split.
  - unfold bind, lift, modify, emit, ret.
    destruct (liveConnect env) as [sess|e].
    + right. cbn. repeat split. discriminate.
    + left. split; [repeat split | throws].
Qed.

Lemma connect_resume_cases (env : Browser) (w : Await) (s : LiveClient) :
  let r := connect_resume env w s in
  (exists s1, state_of r = released s1 /\ result_of r = Ok None) \/
  (same_link s (state_of r) /\
   exists w', result_of r = Ok (Some w') /\ (awaits_left w' < awaits_left w)%nat) \/
  (result_of r = Ok None /\
   isConnected (state_of r) = true /\ session (state_of r) <> None /\
   source (state_of r) = source s /\
   scriptProcessor (state_of r) = scriptProcessor s).
Proof.
  cbn zeta. unfold connect_resume, try_catch.
  pose proof (connect_segment_cases env w s) as H. cbn zeta in H.
  unfold advances in H.
  destruct (connect_segment env w s) as [[s1 t1] r1].
  cbn [state_of result_of fst snd] in H.
  destruct H as [[Hl [(e & He)|(w' & Hw & Hk)]]|H].
  - subst r1. left. exists s1.
    unfold connect_catch, bind, emit, ret. rewrite disconnect_spec.
    split; reflexivity.
  - subst r1. right. left. split; [exact Hl|]. exists w'. split; [reflexivity|].
    destruct w; cbn in *; lia.
  - destruct H as (Hr & H). subst r1. right. right. split; [reflexivity | exact H].
Qed.

End AsyncFacts.
(** ** The callbacks of [connect], the capture pipeline, session errors *)

Section ConnectFacts.





End ConnectFacts.






(** ** More on the playback timeline *)

Section TimelineFacts.







Lemma ready_same_connection (s s' : LiveClient) :
  same_connection s s' -> ready s -> ready s'.
Proof.
  intros (_ & H2 & H3 & H4) Hr. unfold ready in *. rewrite H2, H3, H4. exact Hr.
Qed.


(** Without an interruption, what a message does to the set of sources is
    what its audio block does. *)
Lemma handleMessage_sources (now : Q) (message : LiveServerMessage)
      (s : LiveClient) :
  isConnected s = true ->
  msg_interrupted message = false ->
  sources (state_of (handleMessage now message s)) =
  sources (state_of (handleAudio now message s)).
Proof.
  intros Hc Hi. rewrite (handleMessage_connected now message s Hc). cbn zeta.
  cbn [state_of fst].
  set (s1 := state_of (handleAudio now message s)).
  set (s2 := state_of (handleInputTranscription message s1)).
  set (s3 := state_of (handleOutputTranscription message s2)).
  set (s4 := state_of (handleToolCall message s3)).
  set (s5 := state_of (handleTurnComplete message s4)).
  rewrite handleInterrupted_spec, Hi. cbn [state_of fst].
  assert (H2 : sources s2 = sources s1).
  { unfold s2, handleInputTranscription.
    destruct (msg_inputTranscription message); reflexivity. }
  assert (H3 : sources s3 = sources s2).
  { unfold s3, handleOutputTranscription.
    destruct (msg_outputTranscription message); reflexivity. }
  assert (H4 : s4 = s3).
  { unfold s4. rewrite handleToolCall_spec. reflexivity. }
  assert (H5 : sources s5 = sources s4).
  { unfold s5, handleTurnComplete, when.
    destruct (msg_turnComplete message); reflexivity. }
  rewrite H5, H4, H3, H2. reflexivity.
Qed.

(** An interruption empties the queue. *)
Lemma handleMessage_interrupted_queue (now : Q) (message : LiveServerMessage)
      (s : LiveClient) :
  isConnected s = true ->
  msg_interrupted message = true ->
  nextStartTime (state_of (handleMessage now message s)) = 0 /\
  sources (state_of (handleMessage now message s)) = [].
Proof.
  intros Hc Hi. rewrite (handleMessage_connected now message s Hc). cbn zeta.
  cbn [state_of fst]. rewrite handleInterrupted_spec, Hi. split; reflexivity.
Qed.

End TimelineFacts.



(** X14. After an interruption the queue restarts from the clock: the
    next chunk that decodes, arriving at clock reading [now'] (0 or later),
    starts at [now'], whatever was queued before the interruption, is the
    only source of the set, and leaves [nextStartTime] at [now'] plus its
    duration. *)
Theorem playback_after_interruption
        (s : LiveClient) (now now' : Q) (message message' : LiveServerMessage)
        (base64Audio : string) (bytes : Uint8Array) (audioBuffer : AudioBuffer) :
  reachable s ->
  isConnected s = true ->
  msg_interrupted message = true ->
  msg_interrupted message' = false ->
  0 <= now' ->
  msg_audio message' = Some base64Audio ->
  decode base64Audio = Ok bytes ->
  decodeAudioData bytes 24000 1 = Ok audioBuffer ->
  let r := handleMessage now message s in
  let r' := handleMessage now' message' (state_of r) in
  exists src start,
    filter is_start (trace_of r') = [SourceStart src start] /\
    start == now' /\
    node_buffer src = audioBuffer /\
    sources (state_of r') = [src] /\
    nextStartTime (state_of r') == now' + duration audioBuffer.
Proof.
  intros Hr Hc Hi Hi' Hnow Hm Hd Ha r r'.
  destruct (handleMessage_interrupted_queue now message s Hc Hi) as (Hn & Hsrc).
  pose proof (handleMessage_connection now message s) as Hconn.
  fold r in Hn, Hsrc, Hconn. clearbody r.
  assert (Hc1 : isConnected (state_of r) = true)
    by (destruct Hconn as (H & _); congruence).
  pose proof (ready_same_connection _ _ Hconn (reachable_ready s Hr Hc)) as Hr1.
  destruct (handleMessage_playback now' message' (state_of r) Hc1 Hi')
    as (rest & Hq & Htr & Hnst).
  pose proof (handleMessage_sources now' message' (state_of r) Hc1 Hi') as Hsrcs.
  fold r' in Htr, Hnst, Hsrcs.
  rewrite (handleAudio_scheduled now' message' (state_of r) base64Audio bytes
             audioBuffer Hr1 Hm Hd Ha) in Htr, Hnst, Hsrcs.
  cbn [state_of trace_of fst snd] in Htr, Hnst, Hsrcs.
  exists {| node_id := nodesCreated (state_of r); node_buffer := audioBuffer |},
         (Qmax (nextStartTime (state_of r)) now').
  assert (Hmax : Qmax (nextStartTime (state_of r)) now' == now').
  { rewrite Hn. apply Q.max_r. exact Hnow. }
  split.
  { rewrite Htr. cbn [app filter is_start]. rewrite (filter_start_quiet rest Hq).
    reflexivity. }
  split; [exact Hmax|]. split; [reflexivity|]. split.
  - rewrite Hsrcs. unfold scheduled_state. cbn [sources set_sources].
    rewrite Hsrc. reflexivity.
  - rewrite Hnst. unfold scheduled_state.
    cbn [nextStartTime set_sources set_nextStartTime]. rewrite Hmax. reflexivity.
Qed.

Lemma playback_after_interruption_witness :
  let s := state_of (handleMessage 0 (audio_message "AAD/fw==") connected_client) in
  let r := handleMessage (1 # 48000) interrupted_message s in
  let r' := handleMessage (1 # 24000) (audio_message "AID/fw==") (state_of r) in
  nextStartTime s == 2 # 24000 /\
  exists src start,
    filter is_start (trace_of r') = [SourceStart src start] /\
    start == 1 # 24000 /\
    sources (state_of r') = [src] /\
    nextStartTime (state_of r') == 3 # 24000.
Proof.
  intros s r r'.
  assert (Hs : reachable s).
  { change (reachable (state_of (deliver (ServerMessage 0 (audio_message "AAD/fw=="))
                                         connected_client))).
    apply reach_deliver, reach_connect, reach_new. }
  split; [reflexivity|].
  assert (Hnow : 0 <= 1 # 24000) by discriminate.
  destruct (playback_after_interruption s (1 # 48000) (1 # 24000)
              interrupted_message (audio_message "AID/fw==") "AID/fw=="
              [x00; x80; xff; x7f]
              {| numberOfChannels := 1; buffer_length := 2;
                 buffer_sampleRate := 24000;
                 channelData := [[-32768 # 32768; 32767 # 32768]] |}
              Hs eq_refl eq_refl eq_refl Hnow eq_refl eq_refl eq_refl)
    as (src & start & H1 & H2 & _ & H4 & H5).
  exists src, start.
  split; [exact H1|]. split; [exact H2|]. split; [exact H4|].
  apply (Qeq_trans _ _ _ H5). reflexivity.
Defined.

(** ** The callbacks of one message *)

Section CallbackFacts.

Lemma off_playback_app (a b : list Event) :
  off_playback (a ++ b) = off_playback a ++ off_playback b.
Proof. apply filter_app. Qed.

Lemma off_playback_tool (calls : list FunctionCall) (s s' : LiveClient) :
  session s' = session s ->
  off_playback (flat_map (fun fc => functionCall_events fc s') calls) =
  flat_map (fun fc => functionCall_events fc s) calls.
Proof.
  intro Hs. induction calls as [|fc calls IH]; [reflexivity|].
  cbn [flat_map]. rewrite off_playback_app, IH. f_equal.
  unfold functionCall_events. rewrite Hs.
  destruct (String.eqb (fc_name fc) "provideBilingualDetails"); [|reflexivity].
  destruct (session s); reflexivity.
Qed.

Lemma off_playback_stops (l : list AudioBufferSourceNode) :
  off_playback (map SourceStop l) = [].
Proof. induction l as [|x l IH]; [reflexivity | exact IH]. Qed.

Lemma handleMessage_off_playback (now : Q) (m : LiveServerMessage) (s : LiveClient) :
  isConnected s = true ->
  off_playback (trace_of (handleMessage now m s)) = message_callbacks m s.
Proof.
  intro Hc. rewrite (handleMessage_connected now m s Hc). cbn zeta.
  cbn [trace_of fst snd].
  set (s1 := state_of (handleAudio now m s)).
  set (s2 := state_of (handleInputTranscription m s1)).
  set (s3 := state_of (handleOutputTranscription m s2)).
  set (s4 := state_of (handleToolCall m s3)).
  set (s5 := state_of (handleTurnComplete m s4)).
  assert (H1 : off_playback (trace_of (handleAudio now m s)) = [] /\
               currentInputTranscription s1 = currentInputTranscription s /\
               currentOutputTranscription s1 = currentOutputTranscription s /\
               session s1 = session s).
  { unfold s1. destruct (handleAudio_cases now m s)
      as [H|[(b & bytes & buf & _ & _ & _ & H)|(b & _ & H)]];
      rewrite H; repeat split. }
  destruct H1 as (Ht1 & Hin1 & Hout1 & Hs1).
  assert (H2 : off_playback (trace_of (handleInputTranscription m s1)) =
               match msg_inputTranscription m with
               | Some t => [OnInputTranscription (currentInputTranscription s ++ t)]
               | None => []
               end /\
               currentOutputTranscription s2 = currentOutputTranscription s1 /\
               session s2 = session s1).
  { unfold s2, handleInputTranscription.
    destruct (msg_inputTranscription m); cbn; rewrite ?Hin1; repeat split. }
  destruct H2 as (Ht2 & Hout2 & Hs2).
  assert (H3 : off_playback (trace_of (handleOutputTranscription m s2)) =
               match msg_outputTranscription m with
               | Some t => [OnOutputTranscription (currentOutputTranscription s ++ t)]
               | None => []
               end /\
               session s3 = session s2).
  { unfold s3, handleOutputTranscription.
    destruct (msg_outputTranscription m); cbn; rewrite ?Hout2, ?Hout1; repeat split. }
  destruct H3 as (Ht3 & Hs3).
  assert (H4 : off_playback (trace_of (handleToolCall m s3)) =
               match toolCall m with
               | Some functionCalls =>
                   flat_map (fun fc => functionCall_events fc s) functionCalls
               | None => []
               end).
  { rewrite handleToolCall_spec. cbn [trace_of fst snd].
    destruct (toolCall m) as [calls|]; [|reflexivity].
    apply off_playback_tool. congruence. }
  assert (H5 : off_playback (trace_of (handleTurnComplete m s4)) =
               if msg_turnComplete m then [OnTurnComplete] else []).
  { unfold handleTurnComplete, when. destruct (msg_turnComplete m); reflexivity. }
  assert (H6 : off_playback (trace_of (handleInterrupted m s5)) = []).
  { rewrite handleInterrupted_spec. destruct (msg_interrupted m); [|reflexivity].
    apply off_playback_stops. }
  rewrite !off_playback_app, Ht1, Ht2, Ht3, H4, H5, H6, app_nil_r.
  reflexivity.
Qed.

End CallbackFacts.

(** X15. What a connected client calls and sends for one message does not
    depend on the audio of the message, nor on whether it decodes.  Playback
    events apart, the message gives, in this order: [onInputTranscription]
    with the accumulated input when it has an input fragment,
    [onOutputTranscription] with the accumulated output when it has an
    output fragment, for every call of 'provideBilingualDetails' an
    [onExplanation] followed by a tool response when the session is set,
    and [onTurnComplete] when the turn is complete.  The same message
    without its audio gives the same calls and leaves the same
    transcriptions. *)
Theorem handleMessage_callbacks
        (s : LiveClient) (now now' : Q) (message : LiveServerMessage) :
  isConnected s = true ->
  let r := handleMessage now message s in
  let r' := handleMessage now' (strip_audio message) s in
  off_playback (trace_of r) = message_callbacks message s /\
  off_playback (trace_of r') = off_playback (trace_of r) /\
  currentInputTranscription (state_of r') = currentInputTranscription (state_of r) /\
  currentOutputTranscription (state_of r') = currentOutputTranscription (state_of r).
Proof.
  intros Hc r r'.
  assert (Hm : message_callbacks (strip_audio message) s = message_callbacks message s).
  { unfold message_callbacks, strip_audio, msg_inputTranscription,
      msg_outputTranscription, msg_turnComplete. cbn.
    destruct (serverContent message); reflexivity. }
  pose proof (handleMessage_off_playback now message s Hc) as H1.
  pose proof (handleMessage_off_playback now' (strip_audio message) s Hc) as H2.
  fold r in H1. fold r' in H2. rewrite Hm in H2.
  destruct (handleMessage_transcripts now message s Hc) as (Hi & Ho & _).
  destruct (handleMessage_transcripts now' (strip_audio message) s Hc) as (Hi' & Ho' & _).
  fold r in Hi, Ho. fold r' in Hi', Ho'.
  assert (Hf : msg_turnComplete (strip_audio message) = msg_turnComplete message /\
               msg_interrupted (strip_audio message) = msg_interrupted message /\
               msg_inputTranscription (strip_audio message) =
                 msg_inputTranscription message /\
               msg_outputTranscription (strip_audio message) =
                 msg_outputTranscription message).
  { unfold strip_audio, msg_turnComplete, msg_interrupted, msg_inputTranscription,
      msg_outputTranscription. cbn. destruct (serverContent message); repeat split. }
  destruct Hf as (F1 & F2 & F3 & F4).
  rewrite ?F1, ?F2, ?F3, ?F4 in Hi'. rewrite ?F1, ?F2, ?F3, ?F4 in Ho'.
  split; [exact H1|]. split; [rewrite H1; exact H2|]. split.
  - rewrite Hi', Hi. reflexivity.
  - rewrite Ho', Ho. reflexivity.
Qed.

Lemma handleMessage_callbacks_witness :
  let m := {| serverContent :=
                Some {| sc_audio := Some "AA=="; sc_inputTranscription := Some "hi";
                        sc_outputTranscription := Some "namaste";
                        sc_turnComplete := true; sc_interrupted := false |};
              toolCall := None |} in
  off_playback (trace_of (handleMessage 1 m connected_client)) =
  [OnInputTranscription "hi"; OnOutputTranscription "namaste"; OnTurnComplete] /\
  trace_of (handleMessage 1 m connected_client) =
  [ConsoleError "Audio Decode Error"; OnInputTranscription "hi";
   OnOutputTranscription "namaste"; OnTurnComplete].
Proof.
  intro m.
  destruct (handleMessage_callbacks connected_client 1 2 m eq_refl) as (H & _).
  split; [rewrite H; reflexivity | reflexivity].
Defined.

(** ** More on the chat input *)

Section ChatInputFacts.

Lemma trimStart_head (s : string) (c : ascii) (r : string) :
  trimStart s = String c r -> is_js_whitespace c = false.
Proof.
  induction s as [|d s IH]; cbn [trimStart]; [discriminate|].
  destruct (is_js_whitespace d) eqn:Hd; [exact IH|].
  intro H. injection H as <- _. exact Hd.
Qed.

Lemma trimEnd_head (c : ascii) (r : string) :
  is_js_whitespace c = false -> exists r', trimEnd (String c r) = String c r'.
Proof.
  intro Hc. cbn [trimEnd]. rewrite Hc.
  destruct (trimEnd r); eexists; reflexivity.
Qed.

Lemma trimEnd_idempotent (s : string) : trimEnd (trimEnd s) = trimEnd s.
Proof.
  induction s as [|c rest IH]; [reflexivity|].
  cbn [trimEnd]. destruct (trimEnd rest) as [|d k] eqn:Hr.
  - destruct (is_js_whitespace c) eqn:Hc; [reflexivity|].
    cbn [trimEnd]. rewrite Hc. reflexivity.
  - change (trimEnd (String c (String d k)))
      with (match trimEnd (String d k) with
            | EmptyString =>
                if is_js_whitespace c then EmptyString else String c EmptyString
            | String d' k' => String c (String d' k')
            end).
    rewrite IH. reflexivity.
Qed.

Lemma trim_idempotent (s : string) : trim (trim s) = trim s.
Proof.
  unfold trim. destruct (trimStart s) as [|c r] eqn:Hs; [reflexivity|].
  pose proof (trimStart_head s c r Hs) as Hc.
  destruct (trimEnd_head c r Hc) as (r' & Hr). rewrite Hr.
  cbn [trimStart]. rewrite Hc, <- Hr. apply trimEnd_idempotent.
Qed.

Lemma truthy_nonempty (s : string) : truthy s = true -> s <> EmptyString.
Proof. destruct s; [discriminate | intros _; discriminate]. Qed.

Lemma handleSubmit_sends (props : ChatInput.Props) (input text : string) :
  In (ChatInput.OnSend text) (snd (ChatInput.handleSubmit props input)) ->
  text = trim input /\ truthy (trim input) = true /\
  ChatInput.isLoading props = false /\ ChatInput.isLiveActive props = false /\
  fst (ChatInput.handleSubmit props input) = EmptyString.
Proof.
  unfold ChatInput.handleSubmit.
  destruct (truthy (trim input)) eqn:Ht, (ChatInput.isLoading props) eqn:Hl,
    (ChatInput.isLiveActive props) eqn:Hv; cbn; try tauto.
  intros [H|[H|[]]]; [|discriminate H]. injection H as <-. repeat split.
Qed.

Lemma act_step (a : App.UserAction) (st : App.State) :
  App.isLive (fst (App.act a st)) = App.isLive st /\
  App.isLoading (fst (App.act a st)) = App.isLoading st /\
  (App.input (fst (App.act a st)) = App.input st \/
   a = App.TypeText (App.input (fst (App.act a st))) \/
   App.input (fst (App.act a st)) = EmptyString) /\
  (forall text, In (ChatInput.OnSend text) (snd (App.act a st)) ->
     text = trim (App.input st) /\ truthy (trim (App.input st)) = true /\
     App.isLoading st = false /\ App.isLive st = false /\
     App.input (fst (App.act a st)) = EmptyString).
Proof.
  destruct a as [|code|value|key shiftKey|]; unfold App.act.
  - unfold App.langButton_disabled, App.langButton_onClick.
    destruct (App.isLive st) eqn:Hl; cbn; rewrite ?Hl; cbn; intuition.
  - destruct (App.showLangMenu st); cbn; intuition.
  - destruct (ChatInput.textarea_disabled (App.chatInputProps st)); cbn; intuition.
  - destruct (ChatInput.textarea_disabled (App.chatInputProps st)); [cbn; intuition|].
    unfold ChatInput.handleKeyDown.
    destruct (String.eqb key "Enter" && negb shiftKey); [|cbn; intuition].
    pose proof (handleSubmit_sends (App.chatInputProps st) (App.input st)) as Hs.
    destruct (ChatInput.handleSubmit (App.chatInputProps st) (App.input st))
      as [input' effects] eqn:E. cbn [fst snd] in *. cbn [App.set_input App.isLive
      App.isLoading App.input].
    split; [reflexivity|]. split; [reflexivity|]. split.
    + unfold ChatInput.handleSubmit in E.
      destruct (_ && _ && _) in E; injection E as <- _; auto.
    + intros text Hin. destruct (Hs text Hin) as (H1 & H2 & H3 & H4 & H5).
      repeat split; assumption.
  - destruct (ChatInput.sendButton_rendered (App.chatInputProps st)
              && negb (ChatInput.sendButton_disabled (App.chatInputProps st)
                         (App.input st))); [|cbn; intuition].
    pose proof (handleSubmit_sends (App.chatInputProps st) (App.input st)) as Hs.
    destruct (ChatInput.handleSubmit (App.chatInputProps st) (App.input st))
      as [input' effects] eqn:E. cbn [fst snd] in *. cbn [App.set_input App.isLive
      App.isLoading App.input].
    split; [reflexivity|]. split; [reflexivity|]. split.
    + unfold ChatInput.handleSubmit in E.
      destruct (_ && _ && _) in E; injection E as <- _; auto.
    + intros text Hin. destruct (Hs text Hin) as (H1 & H2 & H3 & H4 & H5).
      repeat split; assumption.
Qed.

Lemma acts_sends (l : list App.UserAction) :
  forall (st : App.State) (text : string),
    In (ChatInput.OnSend text) (snd (App.acts l st)) ->
    App.isLoading st = false /\ App.isLive st = false /\
    truthy text = true /\
    (text = trim (App.input st) \/
     exists typed, In (App.TypeText typed) l /\ text = trim typed).
Proof.
  induction l as [|a l IH]; intros st text Hin; [destruct Hin|].
  cbn [App.acts] in Hin.
  destruct (act_step a st) as (Hlive & Hload & Hinput & Hsend).
  destruct (App.act a st) as [st1 e1]. cbn [fst snd] in *.
  specialize (IH st1 text).
  destruct (App.acts l st1) as [st2 e2]. cbn [fst snd] in *.
  apply in_app_iff in Hin. destruct Hin as [Hin|Hin].
  - destruct (Hsend text Hin) as (H1 & H2 & H3 & H4 & _).
    subst text. repeat split; auto.
  - destruct (IH Hin) as (K1 & K2 & K3 & K4).
    rewrite Hload in K1. rewrite Hlive in K2.
    repeat split; try assumption.
    destruct K4 as [K4|(typed & Ht & K4)].
    + destruct Hinput as [Hi|[Hi|Hi]].
      * left. rewrite K4, Hi. reflexivity.
      * right. exists (App.input st1). split; [left; exact Hi | exact K4].
      * rewrite Hi in K4. subst text. discriminate K3.
    + right. exists typed. split; [right; exact Ht | exact K4].
Qed.

End ChatInputFacts.

(** X16. Whatever the user does to the text input and to the language
    selector, every text that [onSend] receives is the trimmed form of the
    text of the input or of a text the user typed; it is not empty and has
    no white space at either end (trimming it again changes nothing); and
    a text is sent only while the page is neither loading nor in live
    mode. *)
Theorem sent_text_trimmed
        (st : App.State) (actions : list App.UserAction) (text : string) :
  In (ChatInput.OnSend text) (snd (App.acts actions st)) ->
  text <> EmptyString /\
  trim text = text /\
  (text = trim (App.input st) \/
   exists typed, In (App.TypeText typed) actions /\ text = trim typed) /\
  App.isLoading st = false /\
  App.isLive st = false.
Proof.
  intro Hin. destruct (acts_sends actions st text Hin) as (H1 & H2 & H3 & H4).
  split; [apply truthy_nonempty; exact H3|]. split.
  - destruct H4 as [->|(typed & _ & ->)]; apply trim_idempotent.
  - repeat split; assumption.
Qed.

Lemma sent_text_trimmed_witness :
  let st := {| App.isLive := false; App.isLoading := false;
               App.showLangMenu := false; App.selectedLanguage := "Hindi";
               App.input := "" |} in
  let actions := [App.TypeText "  namaste ji  "; App.PressKey "Enter" false] in
  snd (App.acts actions st) =
    [ChatInput.OnSend "namaste ji"; ChatInput.ResetTextareaHeight] /\
  trim "namaste ji" = "namaste ji"%string.
Proof.
  intros st actions. split; [reflexivity|].
  assert (Hin : In (ChatInput.OnSend "namaste ji") (snd (App.acts actions st)))
    by (left; reflexivity).
  destruct (sent_text_trimmed st actions "namaste ji" Hin) as (_ & H & _).
  exact H.
Defined.

(** X17. The send button and the submit handler agree.  Outside live mode
    the button is enabled exactly when [handleSubmit] sends, and it then
    sends the trimmed text once and empties the input; in live mode the
    button is not rendered.  A key press submits only when the key is
    Enter without Shift, and then does what the button does. *)
Theorem send_button_matches_submit
        (props : ChatInput.Props) (input key : string) (shiftKey : bool) :
  (ChatInput.isLiveActive props = false ->
   (ChatInput.sendButton_disabled props input = false ->
    ChatInput.handleSubmit props input =
    (EmptyString, [ChatInput.OnSend (trim input); ChatInput.ResetTextareaHeight])) /\
   (ChatInput.sendButton_disabled props input = true ->
    ChatInput.handleSubmit props input = (input, []))) /\
  (ChatInput.sendButton_rendered props = false <->
   ChatInput.isLiveActive props = true) /\
  (ChatInput.handleKeyDown key shiftKey props input =
   if String.eqb key "Enter" && negb shiftKey
   then ChatInput.handleSubmit props input
   else (input, [])) /\
  (shiftKey = true \/ key <> "Enter"%string ->
   ChatInput.handleKeyDown key shiftKey props input = (input, [])).
Proof.
  unfold ChatInput.sendButton_disabled, ChatInput.handleSubmit,
    ChatInput.sendButton_rendered, ChatInput.handleKeyDown.
  split.
  - intro Hl. rewrite Hl.
    destruct (truthy (trim input)), (ChatInput.isLoading props); cbn;
      split; intro H; try discriminate H; reflexivity.
  - split.
    + destruct (ChatInput.isLiveActive props); cbn; split; congruence.
    + split; [reflexivity|].
      intros [->|Hk].
      * rewrite andb_false_r. reflexivity.
      * destruct (String.eqb_spec key "Enter"); [contradiction | reflexivity].
Qed.

Lemma send_button_matches_submit_witness :
  ChatInput.handleSubmit
    {| ChatInput.isLiveActive := false; ChatInput.isLoading := false |} " hi " =
  (EmptyString, [ChatInput.OnSend "hi"; ChatInput.ResetTextareaHeight]) /\
  ChatInput.handleKeyDown "Enter" true
    {| ChatInput.isLiveActive := false; ChatInput.isLoading := false |} " hi " =
  (" hi "%string, []).
Proof.
  destruct (send_button_matches_submit
              {| ChatInput.isLiveActive := false; ChatInput.isLoading := false |}
              " hi " "Enter" true) as (H1 & _ & _ & H4).
  split.
  - destruct (H1 eq_refl) as [H _]. apply H. reflexivity.
  - apply H4. left. reflexivity.
Defined.

(** ** The text chat *)

Section TextChatFacts.

Import TextChat.

Lemma toString_injective (a b : Z) : toString a = toString b -> a = b.
Proof.
  unfold toString. intro H.
  apply (f_equal DecimalString.NilEmpty.int_of_string) in H.
  rewrite !DecimalString.NilEmpty.isi in H. injection H as H.
  apply (f_equal Z.of_int) in H. rewrite !DecimalZ.of_to in H. exact H.
Qed.

Lemma set_text_fresh (botMsgId t : string) (prev : list ChatMessage) :
  (forall m, In m prev -> id m <> botMsgId) ->
  set_text botMsgId t prev = prev.
Proof.
  intro Hf. unfold set_text. induction prev as [|m prev IH]; [reflexivity|].
  cbn [map]. rewrite IH by (intros m' Hm'; apply Hf; right; exact Hm').
  destruct (String.eqb_spec (id m) botMsgId) as [E|_]; [|reflexivity].
  exfalso. exact (Hf m (or_introl eq_refl) E).
Qed.

Lemma set_text_last (botMsgId t t0 : string) (prev : list ChatMessage)
      (u : ChatMessage) :
  (forall m, In m prev -> id m <> botMsgId) ->
  id u <> botMsgId ->
  set_text botMsgId t
    (prev ++ [u; {| id := botMsgId; role := MODEL; text := t0; isError := false |}]) =
  prev ++ [u; {| id := botMsgId; role := MODEL; text := t; isError := false |}].
Proof.
  intros Hf Hu. unfold set_text. rewrite map_app.
  fold (set_text botMsgId t prev). rewrite (set_text_fresh _ _ _ Hf).
  cbn [map id role isError]. rewrite String.eqb_refl.
  destruct (String.eqb_spec (id u) botMsgId) as [E|_]; [contradiction|reflexivity].
Qed.

Lemma reply_text_cons (c : option string) (rest : list (option string)) :
  reply_text (c :: rest) = (field_or_empty c ++ reply_text rest)%string.
Proof. unfold reply_text. cbn [map]. apply concat_cons. Qed.

Lemma stream_chunks_spec (botMsgId : string) (prev : list ChatMessage)
      (u : ChatMessage) :
  (forall m, In m prev -> id m <> botMsgId) ->
  id u <> botMsgId ->
  forall (chunks : list (option string)) (full : string),
    stream_chunks botMsgId chunks full
      (prev ++ [u; {| id := botMsgId; role := MODEL; text := full;
                      isError := false |}]) =
    ((full ++ reply_text chunks)%string,
     prev ++ [u; {| id := botMsgId; role := MODEL;
                    text := (full ++ reply_text chunks)%string;
                    isError := false |}]).
Proof.
  intros Hf Hu. induction chunks as [|[c|] rest IH]; intro full.
  - cbn [stream_chunks]. unfold reply_text. cbn. rewrite string_app_nil_r.
    reflexivity.
  - cbn [stream_chunks]. rewrite reply_text_cons. cbn [field_or_empty].
    destruct (truthy c) eqn:Ht.
    + rewrite (set_text_last _ _ _ _ _ Hf Hu), IH, string_app_assoc. reflexivity.
    + destruct c; [|discriminate Ht]. apply IH.
  - cbn [stream_chunks]. rewrite reply_text_cons. apply IH.
Qed.

End TextChatFacts.

(** X18. The bubbles of one text message.  When the clock does not go
    back and no message of the page has the id of the new message of the
    model, [handleSendMessage] leaves the earlier messages as they are and
    appends the message of the user, then the message of the model, whose
    text is the texts of the chunks of the reply one after the other
    (chunks without text or with an empty text add nothing), and then, when
    the stream fails, an error message after the text received so far.
    It leaves [isLoading] false. *)
Theorem handleSendMessage_bubbles
        (env : Service.Env) (now1 now2 now3 : Z) (text : string)
        (st : TextChat.State) :
  (now1 <= now2)%Z ->
  (forall m, In m (TextChat.messages st) ->
             TextChat.id m <> TextChat.toString (now2 + 1)) ->
  let reply := snd (Service.sendMessageStream env text (TextChat.chatSession st)) in
  let st' := TextChat.handleSendMessage env now1 now2 now3 text st in
  TextChat.messages st' =
    TextChat.messages st
    ++ [{| TextChat.id := TextChat.toString now1; TextChat.role := TextChat.USER;
           TextChat.text := text; TextChat.isError := false |};
        {| TextChat.id := TextChat.toString (now2 + 1);
           TextChat.role := TextChat.MODEL;
           TextChat.text := TextChat.reply_text (Service.chunks reply);
           TextChat.isError := false |}]
    ++ match Service.failure reply with
       | Some _ =>
           [{| TextChat.id := TextChat.toString now3;
               TextChat.role := TextChat.MODEL;
               TextChat.text := TextChat.connection_trouble;
               TextChat.isError := true |}]
       | None => []
       end /\
  TextChat.isLoading st' = false /\
  TextChat.chatSession st' =
    fst (Service.sendMessageStream env text (TextChat.chatSession st)).
Proof.
  intros Hclock Hfresh reply st'. unfold st', TextChat.handleSendMessage.
  unfold reply.
  destruct (Service.sendMessageStream env text (TextChat.chatSession st))
    as [cs stream]. cbn [fst snd].
  rewrite <- app_assoc. cbn [app].
  assert (Hu : TextChat.id
                 {| TextChat.id := TextChat.toString now1;
                    TextChat.role := TextChat.USER; TextChat.text := text;
                    TextChat.isError := false |}
               <> TextChat.toString (now2 + 1)).
  { cbn. intro E. apply toString_injective in E. lia. }
  rewrite (stream_chunks_spec _ _ _ Hfresh Hu (Service.chunks stream) "").
  cbn [append].
  destruct (Service.failure stream); cbn [TextChat.messages TextChat.isLoading
    TextChat.chatSession]; rewrite <- ?app_assoc; repeat split.
Qed.

Lemma handleSendMessage_bubbles_witness :
  let env := {| Service.API_KEY := Some "key";
                Service.sdk_sendMessageStream :=
                  fun _ _ => {| Service.chunks := [Some "Nama"; None; Some ""; Some "ste"];
                                Service.failure := Some "network" |} |} in
  let welcome := {| TextChat.id := "welcome"; TextChat.role := TextChat.MODEL;
                    TextChat.text := "Hello!"; TextChat.isError := false |} in
  let st := {| TextChat.messages := [welcome]; TextChat.isLoading := false;
               TextChat.chatSession := Some {| Service.chat_language := "Hindi" |} |} in
  TextChat.messages (TextChat.handleSendMessage env 1000 1000 1007 "hello" st) =
  [welcome;
   {| TextChat.id := "1000"; TextChat.role := TextChat.USER;
      TextChat.text := "hello"; TextChat.isError := false |};
   {| TextChat.id := "1001"; TextChat.role := TextChat.MODEL;
      TextChat.text := "Namaste"; TextChat.isError := false |};
   {| TextChat.id := "1007"; TextChat.role := TextChat.MODEL;
      TextChat.text := TextChat.connection_trouble; TextChat.isError := true |}].
Proof.
  intros env welcome st.
  assert (Hclock : (1000 <= 1000)%Z) by lia.
  assert (Hfresh : forall m, In m (TextChat.messages st) ->
                             TextChat.id m <> TextChat.toString (1000 + 1)).
  { intros m [<-|[]]. discriminate. }
  destruct (handleSendMessage_bubbles env 1000 1000 1007 "hello" st Hclock Hfresh)
    as [H _].
  rewrite H. reflexivity.
Defined.

(** X19. The session of the text chat.  Without an API key no session is
    ever created: every text message gets the message of the user, an
    empty message of the model and the error message, whatever is sent and
    however often.  With an API key, once the effect on the selected
    language has run, every message goes to a chat of that language, and
    sending does not replace the session; a session created by
    [sendMessageStream] itself is a Hindi one. *)
Theorem text_chat_session
        (env : Service.Env) (language : string)
        (sends : list (Z * Z * Z * string)) (st : TextChat.State) :
  (Service.has_API_KEY env = false ->
   TextChat.chatSession st = None ->
   TextChat.chatSession (TextChat.languageEffect env language st) = None /\
   TextChat.messages (TextChat.handleSendMessages env sends st) =
     TextChat.messages st ++ flat_map TextChat.failed_exchange sends /\
   TextChat.chatSession (TextChat.handleSendMessages env sends st) = None) /\
  (Service.has_API_KEY env = true ->
   TextChat.chatSession
     (TextChat.handleSendMessages env sends
        (TextChat.languageEffect env language st)) =
   Some {| Service.chat_language := language |} /\
   forall message,
     snd (Service.sendMessageStream env message
            (TextChat.chatSession (TextChat.languageEffect env language st))) =
     Service.sdk_sendMessageStream env {| Service.chat_language := language |}
       message) /\
  (Service.has_API_KEY env = true ->
   forall message,
     Service.sendMessageStream env message None =
     (Some {| Service.chat_language := "Hindi" |},
      Service.sdk_sendMessageStream env {| Service.chat_language := "Hindi" |}
        message)).
Proof.
  split; [|split].
  - intros Hk Hs. split.
    { unfold TextChat.languageEffect, Service.initializeChatSession.
      rewrite Hk. exact Hs. }
    revert st Hs. induction sends as [|[[[now1 now2] now3] text] sends IH];
      intros st Hs.
    + cbn. rewrite app_nil_r. split; [reflexivity | exact Hs].
    + cbn [TextChat.handleSendMessages flat_map].
      assert (Hstep :
                TextChat.handleSendMessage env now1 now2 now3 text st =
                {| TextChat.messages :=
                     TextChat.messages st
                     ++ TextChat.failed_exchange (now1, now2, now3, text);
                   TextChat.isLoading := false;
                   TextChat.chatSession := None |}).
      { unfold TextChat.handleSendMessage, Service.sendMessageStream,
          Service.initializeChatSession. rewrite Hs, Hk. cbn.
        rewrite <- !app_assoc. reflexivity. }
      rewrite Hstep.
      set (st1 := {| TextChat.messages :=
                       TextChat.messages st
                       ++ TextChat.failed_exchange (now1, now2, now3, text);
                     TextChat.isLoading := false;
                     TextChat.chatSession := None |}).
      destruct (IH st1 eq_refl) as [H1 H2].
      rewrite H1, H2. unfold st1. cbn [TextChat.messages]. rewrite <- app_assoc.
      split; reflexivity.
  - intro Hk. split.
    + assert (Hs : TextChat.chatSession (TextChat.languageEffect env language st)
                   = Some {| Service.chat_language := language |}).
      { unfold TextChat.languageEffect, Service.initializeChatSession.
        rewrite Hk. reflexivity. }
      revert Hs. generalize (TextChat.languageEffect env language st).
      induction sends as [|[[[now1 now2] now3] text] sends IH]; intros st0 Hs.
      * exact Hs.
      * cbn [TextChat.handleSendMessages]. apply IH.
        unfold TextChat.handleSendMessage, Service.sendMessageStream.
        rewrite Hs.
        destruct (TextChat.stream_chunks _ _ _ _). reflexivity.
    + intro message.
      unfold TextChat.languageEffect, Service.initializeChatSession,
        Service.sendMessageStream. rewrite Hk. reflexivity.
  - intros Hk message.
    unfold Service.sendMessageStream, Service.initializeChatSession.
    rewrite Hk. reflexivity.
Qed.

Lemma text_chat_session_witness :
  let env := {| Service.API_KEY := None;
                Service.sdk_sendMessageStream :=
                  fun _ _ => {| Service.chunks := [Some "ok"];
                                Service.failure := None |} |} in
  let st := {| TextChat.messages := []; TextChat.isLoading := false;
               TextChat.chatSession := None |} in
  List.length
    (TextChat.messages
       (TextChat.handleSendMessages env
          [(1%Z, 2%Z, 3%Z, "a"); (4%Z, 5%Z, 6%Z, "b")] st)) = 6%nat.
Proof.
  intros env st.
  destruct (text_chat_session env "Tamil"
              [(1%Z, 2%Z, 3%Z, "a"); (4%Z, 5%Z, 6%Z, "b")] st) as [Hnokey _].
  destruct (Hnokey eq_refl eq_refl) as (_ & H & _).
  rewrite H. reflexivity.
Defined.

(** ** Live mode on the page *)

Section LiveModeFacts.

Import LiveMode.








End LiveModeFacts.



